(** * cleandb++ : a shallow embedding of the CSV cleaning pipeline

    The program (src/cleandb++.py) cleans CSV files with pandas: it normalises
    the header, extracts numbers from text cells, drops the columns without
    numeric content, reports the missing values and imputes the column mean.

    Conventions of the embedding.
    - A Python [str] is a list of Unicode code points ([pystr]).
    - Python's [re] is embedded as a small backtracking matcher ([Re]) for the
      patterns the program uses: sequences of quantified character classes.
    - A float is a binary64 value: a rational, an infinity or NaN
      ([pyfloat]). Every operation rounds its exact result to the nearest
      binary64, ties to even ([fl]), and overflows to an infinity. The two
      zeros are one value.
    - An exception is the [None] of an [option] result.
    - [logger_func] only appends text to the caller's log; the log is not
      modelled. *)

From Stdlib Require Import String Ascii QArith Qround Qcanon Qpower DecimalNat Lqa.
From stdpp Require Import base option list gmap.

Local Open Scope N_scope.

(** ** Python strings *)

Abbreviation char := N.
Definition pystr := list char.

(** An ASCII literal as a Python string. *)
Fixpoint str (s : string) : pystr :=
  match s with
  | EmptyString => []
  | String a s' => N_of_ascii a :: str s'
  end.

(** [Py_UNICODE_ISSPACE]: what [str.strip()], [str.isspace()] and the [\s] of
    a [str] pattern accept. *)
Definition is_space (c : char) : bool :=
  ((9 <=? c) && (c <=? 13)) || ((28 <=? c) && (c <=? 32))
  || (c =? 133) || (c =? 160) || (c =? 5760)
  || ((8192 <=? c) && (c <=? 8202))
  || (c =? 8232) || (c =? 8233) || (c =? 8239) || (c =? 8287) || (c =? 12288).

(** The code points of the digit zero of every Unicode decimal-digit block
    (category Nd, Unicode 14); each block holds the ten digits in order. *)
Definition unicode_zeros : list N :=
  [48; 1632; 1776; 1984; 2406; 2534; 2662; 2790; 2918; 3046; 3174; 3302; 3430;
   3558; 3664; 3792; 3872; 4160; 4240; 6112; 6160; 6470; 6608; 6784; 6800;
   6992; 7088; 7232; 7248; 42528; 43216; 43264; 43472; 43504; 43600; 44016;
   65296; 66720; 68912; 69734; 69872; 69942; 70096; 70384; 70736; 70864;
   71248; 71360; 71472; 71904; 72016; 72784; 73040; 73120; 92768; 92864;
   93008; 120782; 120792; 120802; 120812; 120822; 123200; 123632; 125264;
   130032].

(** [Py_UNICODE_TODECIMAL]: the value of a decimal digit. *)
Definition decimal_value (c : char) : option N :=
  match List.find (fun z => (z <=? c) && (c <? z + 10)) unicode_zeros with
  | Some z => Some (c - z)
  | None => None
  end.

(** The [\d] of a [str] pattern. *)
Definition is_digit (c : char) : bool :=
  match decimal_value c with Some _ => true | None => false end.

Definition is_ascii_alnum (c : char) : bool :=
  ((97 <=? c) && (c <=? 122)) || ((65 <=? c) && (c <=? 90))
  || ((48 <=? c) && (c <=? 57)).

Definition underscore : char := 95.
Definition hyphen : char := 45.
Definition space : char := 32.
Definition lparen : char := 40.
Definition rparen : char := 41.
Definition newline : char := 10.

(** [str.replace(old, new)] for a one-character [old]. *)
Definition replace_char (old : char) (new : pystr) (s : pystr) : pystr :=
  flat_map (fun c => if c =? old then new else [c]) s.

(** [s] without its longest prefix in the class [p]. *)
Fixpoint lstrip (p : char -> bool) (s : pystr) : pystr :=
  match s with
  | c :: t => if p c then lstrip p t else s
  | [] => []
  end.

(** The longest prefix of [s] in the class [p]. *)
Fixpoint take_run (p : char -> bool) (s : pystr) : pystr :=
  match s with
  | c :: t => if p c then c :: take_run p t else []
  | [] => []
  end.

Definition rstrip (p : char -> bool) (s : pystr) : pystr :=
  rev (lstrip p (rev s)).

(** [str.strip()] with [p := is_space], [str.strip('_')] with
    [p := (= '_')]. *)
Definition strip (p : char -> bool) (s : pystr) : pystr :=
  rstrip p (lstrip p s).

(** [s.encode('ascii', errors='ignore').decode('ascii')]. *)
Definition ascii_only (s : pystr) : pystr :=
  List.filter (fun c => c <? 128) s.

(** [str(n)] for a non-negative integer. *)
Fixpoint uint_digits (d : Decimal.uint) : pystr :=
  match d with
  | Decimal.Nil => []
  | Decimal.D0 d' => 48 :: uint_digits d'
  | Decimal.D1 d' => 49 :: uint_digits d'
  | Decimal.D2 d' => 50 :: uint_digits d'
  | Decimal.D3 d' => 51 :: uint_digits d'
  | Decimal.D4 d' => 52 :: uint_digits d'
  | Decimal.D5 d' => 53 :: uint_digits d'
  | Decimal.D6 d' => 54 :: uint_digits d'
  | Decimal.D7 d' => 55 :: uint_digits d'
  | Decimal.D8 d' => 56 :: uint_digits d'
  | Decimal.D9 d' => 57 :: uint_digits d'
  end.

Definition str_of_nat (n : nat) : pystr := uint_digits (Nat.to_uint n).

(** ** Python's [re] on the patterns of the program *)

Module Re.

Inductive quant := One | Opt | Star | Plus | LazyStar.

(** A character class with its quantifier; a pattern is a sequence. *)
Record atom := Atom { cls : char -> bool; qt : quant }.
Definition regex := list atom.

(** [p*] before the continuation [k]: the longest run first, then shorter. *)
Fixpoint greedy (p : char -> bool) (k : pystr -> option nat) (s : pystr)
  : option nat :=
  match s with
  | c :: t =>
      if p c then
        match greedy p k t with
        | Some n => Some (S n)
        | None => k s
        end
      else k s
  | [] => k s
  end.

(** [p*?] before the continuation [k]: the shortest run first. *)
Fixpoint lazy (p : char -> bool) (k : pystr -> option nat) (s : pystr)
  : option nat :=
  match k s with
  | Some n => Some n
  | None =>
      match s with
      | c :: t => if p c then S <$> lazy p k t else None
      | [] => None
      end
  end.

(** The length of the match of [r] at the start of [s], in the order a
    backtracking matcher tries the alternatives. *)
Fixpoint match_here (r : regex) (s : pystr) {struct r} : option nat :=
  match r with
  | [] => Some O
  | a :: r' =>
      match qt a with
      | One =>
          match s with
          | c :: t => if cls a c then S <$> match_here r' t else None
          | [] => None
          end
      | Opt =>
          match s with
          | c :: t =>
              if cls a c then
                match match_here r' t with
                | Some n => Some (S n)
                | None => match_here r' s
                end
              else match_here r' s
          | [] => match_here r' s
          end
      | Star => greedy (cls a) (match_here r') s
      | Plus =>
          match s with
          | c :: t =>
              if cls a c then S <$> greedy (cls a) (match_here r') t
              else None
          | [] => None
          end
      | LazyStar => lazy (cls a) (match_here r') s
      end
  end.

(** [re.search]: start and length of the leftmost match. *)
Fixpoint search (r : regex) (s : pystr) : option (nat * nat) :=
  match match_here r s with
  | Some n => Some (O, n)
  | None =>
      match s with
      | [] => None
      | _ :: t => (fun m => (S (fst m), snd m)) <$> search r t
      end
  end.

(** [match.group()]. *)
Definition group (m : nat * nat) (s : pystr) : pystr :=
  take (snd m) (drop (fst m) s).

(** [re.sub]: [skip] counts the characters of the current match still to
    be dropped. *)
Fixpoint sub_from (r : regex) (repl : pystr) (skip : nat) (s : pystr)
  : pystr :=
  match s with
  | [] =>
      match skip, match_here r [] with
      | O, Some _ => repl
      | _, _ => []
      end
  | c :: t =>
      match skip with
      | S k => sub_from r repl k t
      | O =>
          match match_here r s with
          | Some (S n) => repl ++ sub_from r repl n t
          | Some O => repl ++ c :: sub_from r repl O t
          | None => c :: sub_from r repl O t
          end
      end
  end.

Definition sub (r : regex) (repl : pystr) (s : pystr) : pystr :=
  sub_from r repl O s.

End Re.

(** ** Binary64 floats *)

(** A Python float, which is a numpy float64: a finite value, an infinity
    with its sign, or NaN. A finite value is kept as the rational it is; the
    values the operations below return are binary64 numbers. *)
Inductive pyfloat := Fnum (q : Q) | Finf (negative : bool) | Fnan.

(** To the nearest integer, ties to even: [numpy.rint], and the rounding of
    a significand. *)
Definition rint (q : Q) : Z :=
  let f := Qfloor q in
  let r := (q - inject_Z f)%Q in
  match (r ?= 1 # 2)%Q with
  | Lt => f
  | Gt => (f + 1)%Z
  | Eq => if Z.even f then f else (f + 1)%Z
  end.

(** The binary exponent of a positive rational: [2^e <= q < 2^(e+1)]. *)
Definition ilog2 (q : Q) : Z :=
  let e := (Z.log2 (Qnum q) - Z.log2 (Zpos (Qden q)))%Z in
  if Qle_bool (2 ^ e) q then e else (e - 1)%Z.

(** The exponent of the last place of the binary64 numbers around [q]: 53
    significant bits, and never below the subnormal spacing [2^-1074]. *)
Definition quantum (q : Q) : Z := Z.max (ilog2 q - 52) (-1074).

(** The multiple of the last place nearest to a positive [q], ties to
    even. *)
Definition nearest (q : Q) : Q :=
  (inject_Z (rint (q * 2 ^ (- quantum q))) * 2 ^ quantum q)%Q.

(** A positive rational rounded to binary64: an infinity from [2^1024]
    on. *)
Definition fl_pos (q : Q) : pyfloat :=
  let r := nearest q in
  if Qle_bool (2 ^ 1024) r then Finf false else Fnum (Qred r).

Definition fneg (x : pyfloat) : pyfloat :=
  match x with
  | Fnum q => Fnum (- q)
  | Finf s => Finf (negb s)
  | Fnan => Fnan
  end.

(** The binary64 number nearest to a rational, ties to even: the result of
    every correctly rounded operation (IEEE 754). *)
Definition fl (q : Q) : pyfloat :=
  match (q ?= 0)%Q with
  | Eq => Fnum 0
  | Gt => fl_pos q
  | Lt => fneg (fl_pos (- q))
  end.

Definition is_negative (q : Q) : bool := negb (Qle_bool 0 q).

(** [x * y] on floats. *)
Definition fmul (x y : pyfloat) : pyfloat :=
  match x, y with
  | Fnan, _ | _, Fnan => Fnan
  | Fnum a, Fnum b => fl (a * b)
  | Finf s, Fnum b | Fnum b, Finf s =>
      if Qeq_bool b 0 then Fnan else Finf (xorb s (is_negative b))
  | Finf s, Finf t => Finf (xorb s t)
  end.

(** [x / y] on numpy floats, which does not raise: a zero divisor gives an
    infinity or NaN. A zero has no sign here; the divisors of the program
    are never zero. *)
Definition fdiv (x y : pyfloat) : pyfloat :=
  match x, y with
  | Fnan, _ | _, Fnan => Fnan
  | Fnum a, Fnum b =>
      if Qeq_bool b 0 then
        if Qeq_bool a 0 then Fnan else Finf (is_negative a)
      else fl (a / b)
  | Fnum _, Finf _ => Fnum 0
  | Finf s, Fnum b => Finf (xorb s (is_negative b))
  | Finf _, Finf _ => Fnan
  end.

(** [numpy.rint] on a float. *)
Definition frint (x : pyfloat) : pyfloat :=
  match x with
  | Fnum q => Fnum (inject_Z (rint q))
  | _ => x
  end.

(** [float(z)] on a Python int: the nearest binary64; [None] is the
    [OverflowError] of an int too large for a float. *)
Definition float_of_int (z : Z) : option pyfloat :=
  match fl (inject_Z z) with
  | Finf _ => None
  | f => Some f
  end.

(** An int64 count as a float64, as numpy converts the operands of [/]. *)
Definition float_of_count (n : nat) : pyfloat := fl (inject_Z (Z.of_nat n)).

(** ** Cell values *)

(** The objects a cell of a DataFrame holds. *)
Inductive cell :=
| CStr (s : pystr)
| CInt (z : Z)
| CBool (b : bool)
| CFloat (f : pyfloat)
| CNA          (* pd.NA *)
| CNone        (* None *)
| COther.      (* any other object *)

(** ** extract_numeric *)

(** [[-+]?\d*\.?\d+] *)
Definition numeric_pattern : Re.regex :=
  [ Re.Atom (fun c => (c =? 45) || (c =? 43)) Re.Opt;
    Re.Atom is_digit Re.Star;
    Re.Atom (fun c => c =? 46) Re.Opt;
    Re.Atom is_digit Re.Plus ].

(** The number a digit string denotes. *)
Definition digits_value (ds : pystr) : N :=
  fold_left (fun acc c => 10 * acc + default 0 (decimal_value c)) ds 0.

(** The rational written by a sign, digits and at most one decimal point;
    [None] when the text is not of that form. *)
Definition literal_value (s : pystr) : option Q :=
  let '(neg, body) :=
    match s with
    | c :: t => if c =? 45 then (true, t) else if c =? 43 then (false, t)
                else (false, s)
    | [] => (false, s)
    end in
  let ip := take_run is_digit body in
  let rest := lstrip is_digit body in
  let mk (n : N) (k : nat) : Q :=
    Qred ((if neg then (- Z.of_N n)%Z else Z.of_N n)
          # Z.to_pos (10 ^ Z.of_nat k)) in
  match rest with
  | [] => if bool_decide (ip = []) then None else Some (mk (digits_value ip) O)
  | c :: fp =>
      if (c =? 46) && forallb is_digit fp
         && negb (bool_decide (ip ++ fp = [])) then
        Some (mk (digits_value (ip ++ fp)) (length fp))
      else None
  end.

(** [float(s)] on such a text: the binary64 nearest to the number written,
    an infinity when it is too large; [None] is [ValueError]. The other
    forms [float] accepts (exponents, [inf], [nan], surrounding blanks, digit
    separators) do not occur in a match of [numeric_pattern]. *)
Definition py_float (s : pystr) : option pyfloat := fl <$> literal_value s.

(** [None] is an exception: the [OverflowError] of [float(value)] on an
    int beyond the range of a float. *)
Definition extract_numeric (value : cell) : option cell :=
  match value with
  | CStr s =>
      let value := strip is_space (replace_char 37 [] s) in
      match Re.search numeric_pattern value with
      | Some m => CFloat <$> py_float (Re.group m value)
      | None => Some CNA
      end
  | CInt z => CFloat <$> float_of_int z
  | CBool b => Some (CFloat (Fnum (inject_Z (if b then 1 else 0))))
  | CFloat f => Some (CFloat f)
  | _ => Some CNA
  end.

(** ** Series and DataFrames *)

(** A column with its dtype: float64, int64, bool or object. *)
Inductive series :=
| SFloat (l : list pyfloat)
| SInt (l : list Z)
| SBool (l : list bool)
| SObject (l : list cell).

(** The cells of a series as Python objects, as [map] and [apply] see them. *)
Definition values (s : series) : list cell :=
  match s with
  | SFloat l => CFloat <$> l
  | SInt l => CInt <$> l
  | SBool l => CBool <$> l
  | SObject l => l
  end.

Definition is_object (s : series) : bool :=
  match s with SObject _ => true | _ => false end.

(** [select_dtypes(include=["number"])]. *)
Definition is_number_dtype (s : series) : bool :=
  match s with SFloat _ | SInt _ => true | _ => false end.

(** [pd.isna] on one cell. *)
Definition isna (c : cell) : bool :=
  match c with
  | CFloat Fnan | CNA | CNone => true
  | _ => false
  end.

Definition notna (c : cell) : bool := negb (isna c).

(** A column label. *)
Definition label := pystr.

Record DataFrame := mkDataFrame {
  nrows : nat;                        (* len(df.index) *)
  columns : list (label * series)     (* the columns, in order *)
}.

Definition labels (df : DataFrame) : list label := fst <$> columns df.

(** Every column has one cell per row. *)
Definition well_formed (df : DataFrame) : Prop :=
  Forall (fun c => length (values (snd c)) = nrows df) (columns df).

(** [df.empty]: some axis has length 0. *)
Definition empty (df : DataFrame) : bool :=
  bool_decide (nrows df = O) || bool_decide (columns df = []).

(** [df[col]]: the columns carrying the label. One column is a Series; with a
    duplicated label pandas returns a DataFrame of all of them. *)
Definition getitem (df : DataFrame) (col : label) : list series :=
  snd <$> List.filter (fun c => bool_decide (fst c = col)) (columns df).

(** [df[col] = s]. *)
Definition setitem (df : DataFrame) (col : label) (s : series) : DataFrame :=
  mkDataFrame (nrows df)
    ((fun c => if bool_decide (fst c = col) then (fst c, s) else c)
       <$> columns df).

(** [for col in cols: df = body(df, col)], an exception ending the loop. *)
Definition for_each (body : DataFrame -> label -> option DataFrame)
    (cols : list label) (df : DataFrame) : option DataFrame :=
  foldl (fun acc col => acc ≫= fun df => body df col) (Some df) cols.

(** ** clean_headers *)

(** [[（）]] *)
Definition fullwidth_parens : Re.regex :=
  [ Re.Atom (fun c => (c =? 65288) || (c =? 65289)) Re.One ].

(** [\(.*?\)]; the dot does not match a newline. *)
Definition parenthesised : Re.regex :=
  [ Re.Atom (fun c => c =? lparen) Re.One;
    Re.Atom (fun c => negb (c =? newline)) Re.LazyStar;
    Re.Atom (fun c => c =? rparen) Re.One ].

Definition kept (c : char) : bool :=
  is_ascii_alnum c || (c =? underscore) || is_space c || (c =? hyphen).

(** [[^a-zA-Z0-9_\s-]] *)
Definition not_kept : Re.regex := [ Re.Atom (fun c => negb (kept c)) Re.One ].

Definition is_underscore (c : char) : bool := c =? underscore.

(** [_+] *)
Definition underscores : Re.regex := [ Re.Atom is_underscore Re.Plus ].

(** The chain of [.str] transforms applied to one label. *)
Definition clean_label (l : label) : label :=
  let l := Re.sub fullwidth_parens [lparen; rparen] l in
  let l := Re.sub parenthesised [] l in
  let l := Re.sub not_kept [] l in
  let l := replace_char space [underscore] l in
  let l := Re.sub underscores [underscore] l in
  let l := strip is_underscore l in
  ascii_only l.

Definition unnamed_column : label := str "unnamed_column".

(** One iteration of the loop over [new_columns]; the state is
    [(counts, final_columns)]. *)
Definition dedupe_step (st : gmap label nat * list label) (col : label)
  : gmap label nat * list label :=
  let col := if bool_decide (col = []) then unnamed_column else col in
  match st.1 !! col with
  | Some n =>
      (<[col := S n]> st.1, st.2 ++ [col ++ underscore :: str_of_nat (S n)])
  | None => (<[col := O]> st.1, st.2 ++ [col])
  end.

(** The labels [clean_headers] assigns to [df.columns]. *)
Definition clean_header_labels (raw : list label) : list label :=
  (fold_left dedupe_step (clean_label <$> raw) (∅, [])).2.

Definition clean_headers (df : DataFrame) : DataFrame :=
  mkDataFrame (nrows df)
    (zip (clean_header_labels (labels df)) (snd <$> columns df)).

(** ** clean_mixed_columns *)

Definition is_str (c : cell) : bool :=
  match c with CStr _ => true | _ => false end.

Definition is_pd_NA (r : option cell) : bool :=
  match r with Some CNA => true | _ => false end.

Definition as_float (c : cell) : option pyfloat :=
  match c with CFloat f => Some f | _ => None end.

(** The dtype [Series.apply] infers for its results: floats alone give a
    float64 series, any [pd.NA] among them leaves an object series. *)
Definition infer_series (l : list cell) : series :=
  match mapM as_float l with
  | Some fs => SFloat fs
  | None => SObject l
  end.

(** The body of the loop over [df.columns]. [None] is the [AttributeError]
    of [df[column].dtype] when the label is duplicated: that test stands
    outside the [try]. *)
Definition clean_mixed_column (df : DataFrame) (column : label)
  : option DataFrame :=
  match getitem df column with
  | [s] =>
      if is_object s && negb (forallb isna (values s)) then
        match mapM extract_numeric (values s) with
        | Some cleaned =>
            if existsb notna cleaned
               || forallb (fun x => is_str x && is_pd_NA (extract_numeric x))
                    (values s)
            then Some (setitem df column (infer_series cleaned))
            else Some df
        | None => Some df            (* except Exception: logged *)
        end
      else Some df
  | _ => None
  end.

Definition clean_mixed_columns (df : DataFrame) : option DataFrame :=
  for_each clean_mixed_column (labels df) df.

(** ** remove_fully_non_numeric_columns *)

(** [isinstance(x, (int, float))]; [bool] is a subclass of [int]. *)
Definition is_int_or_float (c : cell) : bool :=
  match c with CInt _ | CBool _ | CFloat _ => true | _ => false end.

(** [df.loc[:, mask]]. *)
Definition select_columns (df : DataFrame) (mask : list bool) : DataFrame :=
  mkDataFrame (nrows df)
    (fst <$> List.filter snd (zip (columns df) mask)).

Section Classifier.

(** [pd.to_numeric(..., errors='coerce')] turns a string into a number or
    into NaN; pandas owns the grammar. [parses s] holds when the string
    [s] comes out as a number other than NaN. *)
Variable parses : pystr -> bool.

(** [pd.to_numeric(s, errors='coerce').notna()] on one cell. *)
Definition to_numeric_notna (c : cell) : bool :=
  match c with
  | CStr s => parses s
  | CInt _ | CBool _ => true
  | CFloat Fnan => false
  | CFloat _ => true
  | _ => false
  end.

(** The flag computed for one label. With a duplicated label [df[col_name]]
    is a DataFrame, the test raises and [except Exception: pass] leaves the
    flag [False]. *)
Definition is_potentially_numeric (df : DataFrame) (col_name : label)
  : bool :=
  match getitem df col_name with
  | [s] =>
      if existsb is_int_or_float (values s) then true
      else if existsb to_numeric_notna (values s) then true
      else false
  | _ => false
  end.

(** The first loop of the function only logs; the mask decides. *)
Definition remove_fully_non_numeric_columns (df : DataFrame) : DataFrame :=
  let numeric_cols_mask := is_potentially_numeric df <$> labels df in
  select_columns df numeric_cols_mask.

End Classifier.

(** ** report_missing_values *)

Inductive folder := ReportFolder | CleanedFolder.

#[global] Instance folder_eq_dec : EqDecision folder.
Proof. solve_decision. Defined.

(** A field of a written CSV file: the [na_rep] marker or a value. *)
Inductive csv_field := NA_marker | Field (c : cell).

Record report := mkReport {
  total_datapoints : nat;
  total_missing : nat;
  missing_percentage_dataset : pyfloat;
  missing_percentage_columns : list (label * pyfloat)
}.

Inductive content :=
| EmptyCsv                                        (* pd.DataFrame().to_csv *)
| ReportTxt (r : report)
| CleanedCsv (cols : list (label * list csv_field)).

(** A write: the folder, the name and what is written. *)
Definition file := (folder * pystr * content)%type.

(** The writes made to the two output folders, oldest first. [open(..., "w")]
    and [to_csv] replace a file of the same name: what a path holds is the
    last write to it ([file_content]). Two names are one file when they are
    the same text, as on a file system that tells upper case from lower
    case. *)
Definition filesystem := list file.

(** What the file [name] of [dir] holds after the writes [fs]. *)
Fixpoint file_content (fs : filesystem) (dir : folder) (name : pystr)
  : option content :=
  match fs with
  | [] => None
  | (d, n, c) :: rest =>
      match file_content rest dir name with
      | Some later => Some later
      | None =>
          if bool_decide (d = dir) && bool_decide (n = name) then Some c
          else None
      end
  end.

(** [s.isna().sum()]. *)
Definition count_na (s : series) : nat :=
  length (List.filter isna (values s)).

(** [a / b] on an int64 count and an int, and the mean of a column of
    booleans: numpy turns both operands into float64 and divides; nothing
    is raised on a zero divisor. *)
Definition truediv (a b : nat) : pyfloat :=
  fdiv (float_of_count a) (float_of_count b).

(** [x * 100]. *)
Definition percent (x : pyfloat) : pyfloat := fmul x (Fnum 100).

(** The figures of the report: the statements of the [try] block up to the
    report lines. None of them raises. *)
Definition missing_report (df : DataFrame) : report :=
  let total_datapoints := (nrows df * length (columns df))%nat in
  let total_missing := sum_list (count_na ∘ snd <$> columns df) in
  let missing_percentage_dataset :=
    if bool_decide (0 < total_datapoints)%nat
    then percent (truediv total_missing total_datapoints)
    else Fnum 0 in
  let missing_percentage_columns :=
    if negb (empty df)
    then (fun c => (fst c, percent (truediv (count_na (snd c)) (nrows df))))
           <$> columns df
    else [] in
  mkReport total_datapoints total_missing missing_percentage_dataset
    missing_percentage_columns.

(** The call with its effects: the dataset it was handed and the writes. *)
Definition report_missing_values (df : DataFrame) (output_file : pystr)
    (fs : filesystem) : DataFrame * filesystem :=
  (df, fs ++ [(ReportFolder, output_file, ReportTxt (missing_report df))]).

(** ** mean_imputation *)

(** [round(3)] on one float: numpy multiplies by [10**3], rounds to the
    nearest integer and divides, each step in binary64. *)
Definition round3 (x : pyfloat) : pyfloat :=
  fdiv (frint (fmul x (Fnum 1000))) (Fnum 1000).

(** The values of a float column that are not NaN. *)
Definition present (l : list pyfloat) : list pyfloat :=
  List.filter (fun x => match x with Fnan => false | _ => true end) l.

(** [s.fillna(v)] on a float column. *)
Definition fillna (v : pyfloat) (l : list pyfloat) : list pyfloat :=
  (fun x => match x with Fnan => v | _ => x end) <$> l.

(** The dtype pandas 2 settles on for an object column once [fillna] has
    run ([Block.convert], the silent downcast): a column of ints that fit
    int64 becomes int64, a column of bools bool, a column of floats, or of
    floats and such ints, float64; a column holding text, [pd.NA] or another
    object stays object, as does an empty one. Ints beyond int64 are left
    as objects here. *)
Definition in_int64 (z : Z) : bool :=
  (- 2 ^ 63 <=? z)%Z && (z <? 2 ^ 63)%Z.

Definition as_int64 (c : cell) : option Z :=
  match c with
  | CInt z => if in_int64 z then Some z else None
  | _ => None
  end.

Definition as_bool (c : cell) : option bool :=
  match c with CBool b => Some b | _ => None end.

Definition as_number (c : cell) : option pyfloat :=
  match c with
  | CFloat f => Some f
  | CInt z => if in_int64 z then Some (fl (inject_Z z)) else None
  | _ => None
  end.

Definition downcast (l : list cell) : series :=
  match l with
  | [] => SObject l
  | _ =>
      match mapM as_int64 l, mapM as_bool l, mapM as_number l with
      | Some zs, _, _ => SInt zs
      | None, Some bs, _ => SBool bs
      | None, None, Some fs => SFloat fs
      | None, None, None => SObject l
      end
  end.

(** [df[col].fillna(pd.NA)] on an object column: every absent cell holds
    [pd.NA], then the downcast. *)
Definition fillna_object (l : list cell) : series :=
  downcast ((fun c => if isna c then CNA else c) <$> l).

Section Imputer.

(** The sum of the present values of a column, in binary64. The order in
    which pandas adds them (numpy's pairwise sum, or bottleneck's loop) is
    the library's, and the last bits of the sum depend on it. *)
Variable fsum : list pyfloat -> pyfloat.

(** [Series.mean()]: the sum of the present values over their number, NaN
    without any. *)
Definition mean (l : list pyfloat) : pyfloat :=
  match present l with
  | [] => Fnan
  | ps => fdiv (fsum ps) (float_of_count (length ps))
  end.

(** The body of the loop over the numeric columns, on the series of the
    column. *)
Definition impute_series (s : series) : series :=
  match s with
  | SFloat l =>
      if existsb isna (values s) then
        match mean l with
        | Fnan => s                      (* logged, left as it is *)
        | m => SFloat (round3 <$> fillna m l)
        end
      else SFloat (round3 <$> l)
  | _ => s                (* an int64 column has no NaN and rounds to itself *)
  end.

(** [None] is the [ValueError] of [if df[col].isna().any()] when the label is
    duplicated. *)
Definition impute_column (df : DataFrame) (col : label) : option DataFrame :=
  match getitem df col with
  | [s] => Some (setitem df col (impute_series s))
  | _ => None
  end.

(** The loop over [non_numeric_cols]; [None] is the [AttributeError] of
    [df[col].dtype] when the label is duplicated. *)
Definition fill_object_column (df : DataFrame) (col : label)
  : option DataFrame :=
  match getitem df col with
  | [SObject l] => Some (setitem df col (fillna_object l))
  | [_] => Some df
  | _ => None
  end.

Definition mean_imputation (df : DataFrame) : option DataFrame :=
  let numeric_cols :=
    fst <$> List.filter (fun c => is_number_dtype (snd c)) (columns df) in
  let non_numeric_cols :=
    fst <$> List.filter (fun c => negb (is_number_dtype (snd c))) (columns df) in
  df ← (if negb (bool_decide (nrows df = O) || bool_decide (numeric_cols = []))
        then for_each impute_column numeric_cols df
        else Some df);
  for_each fill_object_column non_numeric_cols df.

End Imputer.

(** ** process_single_csv_file *)

(** What the two [pd.read_csv] attempts leave. *)
Inductive loaded := ReadError | Frame (df : DataFrame).

(** [df.to_csv(cleaned_file, index=False, na_rep='NA')]. *)
Definition to_csv (df : DataFrame) : content :=
  CleanedCsv
    ((fun c => (fst c, (fun x => if isna x then NA_marker else Field x)
                         <$> values (snd c))) <$> columns df).

Section Pipeline.

Variable parses : pystr -> bool.
Variable fsum : list pyfloat -> pyfloat.

(** The writes made once the call is over, those it found included. An
    exception of a stage ends the call in the outer [except], with what was
    written so far. *)
Definition process_single_csv_file (input : loaded)
    (filename_no_ext : pystr) (fs : filesystem) : filesystem :=
  match input with
  | ReadError => fs
  | Frame df =>
      if empty df then fs
      else
        let df := clean_headers df in
        match clean_mixed_columns df with
        | None => fs
        | Some df =>
            let df := remove_fully_non_numeric_columns parses df in
            if empty df || bool_decide (length (columns df) = O) then
              fs ++ [(CleanedFolder,
                      filename_no_ext ++ str "_clean_empty.csv", EmptyCsv)]
            else
              let report_file := filename_no_ext ++ str "_report.txt" in
              let '(df, fs) := report_missing_values df report_file fs in
              match mean_imputation fsum df with
              | None => fs
              | Some df =>
                  fs ++ [(CleanedFolder,
                          filename_no_ext ++ str "_clean.csv", to_csv df)]
              end
        end
  end.

End Pipeline.

(** ** main_processing_logic *)

(** [p.rfind(c)]: the index of the last [c] in [p]. *)
Fixpoint rfind (c : char) (p : pystr) : option nat :=
  match p with
  | [] => None
  | a :: t =>
      match rfind c t with
      | Some i => Some (S i)
      | None => if a =? c then Some O else None
      end
  end.

(** [os.path.splitext(p)[0]] on a file name without directory separator:
    the name is cut at its last dot, unless only dots stand before it. *)
Definition splitext_root (p : pystr) : pystr :=
  match rfind 46 p with
  | Some dotIndex =>
      if existsb (fun a => negb (a =? 46)) (take dotIndex p)
      then take dotIndex p
      else p
  | None => p
  end.

(** [s.endswith(suffix)]. *)
Definition endswith (s suffix : pystr) : bool :=
  bool_decide (drop (length s - length suffix) s = suffix).

Section BatchDriver.

Variable parses : pystr -> bool.
Variable fsum : list pyfloat -> pyfloat.

(** [str.lower()]; Python owns the Unicode case tables. *)
Variable lower : pystr -> pystr.

(** The test on a file name of the walk. *)
Definition is_csv (file : pystr) : bool := endswith (lower file) (str ".csv").

(** The body of the two loops over [os.walk]: the state is
    [(found_csv_files, writes made)]; an entry is a file name with what the
    [pd.read_csv] attempts leave when its turn comes. *)
Definition batch_step (st : bool * filesystem) (entry : pystr * loaded)
  : bool * filesystem :=
  if is_csv entry.1 then
    (true,
     process_single_csv_file parses fsum entry.2 (splitext_root entry.1) st.2)
  else st.

(** [walk] lists the files [os.walk(input_folder)] yields, in order.
    [os.makedirs] creates folders only. *)
Definition main_processing_logic (walk : list (pystr * loaded))
    (fs : filesystem) : bool * filesystem :=
  fold_left batch_step walk (false, fs).

End BatchDriver.

(** ** Definitions used to state the properties *)

(** *** The numeric literal *)

(** The classes [[-+]] and [\.] of [numeric_pattern]. *)
Definition is_sign (c : char) : bool := (c =? 45) || (c =? 43).
Definition is_point (c : char) : bool := c =? 46.

(** The length of the longest prefix of [body] made of digits with at most
    one decimal point before the last run of digits. *)
Definition unsigned_prefix (body : pystr) : option nat :=
  let ip := take_run is_digit body in
  let fp :=
    match lstrip is_digit body with
    | c :: t => if is_point c then take_run is_digit t else []
    | [] => []
    end in
  match fp, ip with
  | _ :: _, _ => Some (length ip + 1 + length fp)%nat
  | [], _ :: _ => Some (length ip)
  | [], [] => None
  end.

(** The same with an optional sign in front. *)
Definition literal_prefix (s : pystr) : option nat :=
  match s with
  | c :: t => if is_sign c then S <$> unsigned_prefix t else unsigned_prefix s
  | [] => None
  end.

(** The literal of the specification: an optional sign, followed by digits
    with an optional single decimal point, ending in a digit. *)
Inductive numeric_literal : pystr -> Prop :=
| Literal (sg ip pt fp : pystr) :
    sg = [] \/ sg = [45] \/ sg = [43] ->
    Forall (fun c => is_digit c = true) ip ->
    pt = [] \/ pt = [46] ->
    Forall (fun c => is_digit c = true) fp ->
    fp <> [] ->
    numeric_literal (sg ++ ip ++ pt ++ fp).

(** [m] occurs in [s] at offset [i]. *)
Definition substring_at (s : pystr) (i : nat) (m : pystr) : Prop :=
  exists pre post, s = pre ++ m ++ post /\ length pre = i.

(** [m] is the first literal of [s], read from left to right: no literal
    starts before offset [i], and none starting at [i] is longer. *)
Definition first_literal (s : pystr) (i : nat) (m : pystr) : Prop :=
  substring_at s i m
  /\ numeric_literal m
  /\ forall j m', substring_at s j m' -> numeric_literal m' ->
       (i < j)%nat \/ (i = j /\ (length m' <= length m)%nat).

(** The text [re.search] matches in [v], if any. *)
Definition first_match (v : pystr) : option pystr :=
  (fun m => Re.group m v) <$> Re.search numeric_pattern v.

(** *** The shape of a label *)

(** The characters a label is left with: ASCII letters, digits, underscores
    and hyphens. *)
Definition label_char (c : char) : bool :=
  is_ascii_alnum c || (c =? underscore) || (c =? hyphen).

Definition starts_with_underscore (l : pystr) : bool :=
  match l with
  | c :: _ => c =? underscore
  | [] => false
  end.

Definition ends_with_underscore (l : pystr) : bool :=
  starts_with_underscore (rev l).

(** No two consecutive underscores. *)
Fixpoint no_underscore_run (l : pystr) : bool :=
  match l with
  | a :: t =>
      negb ((a =? underscore) && starts_with_underscore t)
      && no_underscore_run t
  | [] => true
  end.

(** The shape of a label before the empty ones are replaced and the
    duplicates are numbered. *)
Definition shaped (l : pystr) : Prop :=
  Forall (fun c => label_char c = true) l
  /\ starts_with_underscore l = false
  /\ ends_with_underscore l = false
  /\ no_underscore_run l = true.

(** A label, once named and numbered: not empty and of the right shape. *)
Definition well_shaped (l : label) : Prop := l <> [] /\ shaped l.

(** *** A loop over labels, column by column *)

(** [update_with g] is the shape of the three loops that read [df[col]] and
    assign it back. *)
Definition update_with (g : series -> series) (df : DataFrame) (col : label)
  : option DataFrame :=
  match getitem df col with
  | [s] => Some (setitem df col (g s))
  | _ => None
  end.

(** The columns labelled in [ls] rewritten by [g], in place. *)
Definition map_columns (g : series -> series) (ls : list label)
    (df : DataFrame) : DataFrame :=
  mkDataFrame (nrows df)
    ((fun c => if bool_decide (c.1 ∈ ls) then (c.1, g c.2) else c)
       <$> columns df).

(** Every column rewritten by [g]. *)
Definition on_columns (g : series -> series) (df : DataFrame) : DataFrame :=
  mkDataFrame (nrows df) ((fun c => (c.1, g c.2)) <$> columns df).

(** What the loop of [clean_mixed_columns] does to one series. *)
Definition clean_series (s : series) : series :=
  if is_object s && negb (forallb isna (values s)) then
    match mapM extract_numeric (values s) with
    | Some cleaned =>
        if existsb notna cleaned
           || forallb (fun x => is_str x && is_pd_NA (extract_numeric x))
                (values s)
        then infer_series cleaned
        else s
    | None => s
    end
  else s.

(** The criterion on the series of a column. *)
Definition has_numeric_content (parses : pystr -> bool) (s : series) : bool :=
  existsb is_int_or_float (values s)
  || existsb (to_numeric_notna parses) (values s).

(** What the loop over [non_numeric_cols] does to one series. *)
Definition fill_series (s : series) : series :=
  match s with
  | SObject l => fillna_object l
  | _ => s
  end.

(** What [mean_imputation] does to one series of a frame of [n] rows. *)
Definition imputed (fsum : list pyfloat -> pyfloat) (n : nat) (s : series)
  : series :=
  if is_number_dtype s then
    if bool_decide (n = O) then s else impute_series fsum s
  else fill_series s.

(** *** Example datasets *)

(** A text column with an unreadable value, a column of notes, and a text
    column with a missing cell. *)
Definition scenario_1 : DataFrame :=
  mkDataFrame 3
    [ (str "Revenue ($)", SObject [CStr (str "$100"); CStr (str "$200"); CStr (str "bad")]);
      (str "Notes", SObject [CStr (str "x"); CStr (str "y"); CStr (str "z")]);
      (str "Price", SObject [CStr (str "$100"); CStr (str "$200"); CFloat Fnan]) ].

(** Text, floats, [pd.NA] and a string [pd.to_numeric] reads. *)
Definition classifier_example : DataFrame :=
  mkDataFrame 2
    [ (str "a", SObject [CStr (str "x"); CStr (str "y")]);
      (str "b", SFloat [Fnum 1; Fnan]);
      (str "c", SObject [CNA; CNA]);
      (str "d", SObject [CStr (str "7"); CNone]) ].

(** The file of the first end-to-end scenario of the specification, as
    [read_csv] loads it. *)
Definition scenario_revenue : DataFrame :=
  mkDataFrame 3
    [ (str "Revenue ($)",
       SObject [CStr (str "$100"); CStr (str "$200"); CStr (str "bad")]);
      (str "Notes", SObject [CStr (str "x"); CStr (str "y"); CStr (str "z")]) ].

(** Five columns of five cells, seven of them absent. *)
Definition seven_of_25 : DataFrame :=
  mkDataFrame 5
    [ (str "a", SFloat [Fnan; Fnan; Fnum 1; Fnum 2; Fnum 3]);
      (str "b", SFloat [Fnan; Fnan; Fnum 1; Fnum 2; Fnum 3]);
      (str "c", SFloat [Fnan; Fnan; Fnum 1; Fnum 2; Fnum 3]);
      (str "d", SFloat [Fnan; Fnum 0; Fnum 1; Fnum 2; Fnum 3]);
      (str "e", SInt [1; 2; 3; 4; 5]%Z) ].

(** The sum of floats from left to right, one of the orders pandas may
    take. *)
Definition fsum_loop (l : list pyfloat) : pyfloat :=
  fold_left (fun acc x =>
               match acc, x with
               | Fnum a, Fnum b => fl (a + b)
               | Fnan, _ | _, Fnan => Fnan
               | Finf s, Finf t => if eqb s t then Finf s else Fnan
               | Finf s, _ | _, Finf s => Finf s
               end) l (Fnum 0).


(** A file holding a header line and no row, as [read_csv] loads it. *)
Definition header_only : DataFrame :=
  mkDataFrame 0 [ (str "id", SObject []); (str "amount", SObject []) ].

(** An integer column and a column read from empty fields. *)
Definition blank_column_frame : DataFrame :=
  mkDataFrame 2
    [ (str "Qty", SInt [3; 4]%Z);
      (str "Blank (unused)", SFloat [Fnan; Fnan]) ].

(** *** The numbering of repeated labels *)

(** The label the loop of [clean_headers] works on: the placeholder for an
    empty label. *)
Definition named (c : label) : label :=
  if bool_decide (c = []) then unnamed_column else c.

(** How often [x] occurs in [l]. *)
Definition occurrences (x : label) (l : list label) : nat :=
  length (List.filter (fun y => bool_decide (y = x)) l).

(** The labels given to [cols] after the labels [seen]: a label seen [k > 0]
    times before gets the suffix [_k]. *)
Fixpoint numbered (seen cols : list label) : list label :=
  match cols with
  | [] => []
  | c :: t =>
      match occurrences (named c) seen with
      | O => named c
      | S k => named c ++ underscore :: str_of_nat (S k)
      end :: numbered (seen ++ [named c]) t
  end.

(** *** The paths of a stem *)

(** The three paths a call may write to under the stem of its file. *)
Definition output_paths (stem : pystr) : list (folder * pystr) :=
  [ (ReportFolder, stem ++ str "_report.txt");
    (CleanedFolder, stem ++ str "_clean.csv");
    (CleanedFolder, stem ++ str "_clean_empty.csv") ].

(** *** The alphabet of a produced label *)

(** What every character of a produced label is: ASCII, in the class the
    filter keeps, and not a space. *)
Definition output_char (c : char) : Prop :=
  (c <? 128) = true /\ kept c = true /\ c <> space.

(** *** Extracted cells *)

(** A float or [pd.NA]: what the extractor returns. *)
Definition extracted (x : cell) : Prop := x = CNA \/ exists f, x = CFloat f.

(** * Properties *)

(** ** Evaluations *)

Example extract_1 : extract_numeric (CStr (str "$12.50 off")) = Some (CFloat (Fnum (25 # 2))).
Proof. vm_compute. reflexivity. Qed.
Example extract_2 : extract_numeric (CStr (str "+-3 to 5")) = Some (CFloat (Fnum (-3 # 1))).
Proof. vm_compute. reflexivity. Qed.
Example extract_3 : extract_numeric (CStr (str "-.5")) = Some (CFloat (Fnum (-1 # 2))).
Proof. vm_compute. reflexivity. Qed.
Example extract_4 : extract_numeric (CStr (str " 12. %")) = Some (CFloat (Fnum (12 # 1))).
Proof. vm_compute. reflexivity. Qed.
Example extract_5 : extract_numeric (CStr (str "N/A")) = Some CNA.
Proof. vm_compute. reflexivity. Qed.

Example headers_1 :
  clean_header_labels [str "Revenue ($)"; str "Notes"; str ""; str "a b"; str "a_b"; str " a  b "]
  = [str "Revenue"; str "Notes"; str "unnamed_column"; str "a_b"; str "a_b_1"; str "a_b_2"].
Proof. vm_compute. reflexivity. Qed.

(** ** Binary64 rounding *)

Lemma rint_close (x : Q) :
  (inject_Z (rint x) - x <= 1 # 2 /\ x - inject_Z (rint x) <= 1 # 2)%Q.
Proof.
  pose proof (Qfloor_le x) as Hlo. pose proof (Qlt_floor x) as Hhi.
  rewrite inject_Z_plus in Hhi. change (inject_Z 1) with 1%Q in Hhi.
  unfold rint.
  destruct (x - inject_Z (Qfloor x) ?= 1 # 2)%Q eqn:Hc.
  - apply Qeq_alt in Hc.
    destruct (Z.even (Qfloor x));
      [|rewrite inject_Z_plus; change (inject_Z 1) with 1%Q]; lra.
  - apply Qlt_alt in Hc. lra.
  - apply Qgt_alt in Hc. rewrite inject_Z_plus.
    change (inject_Z 1) with 1%Q. lra.
Qed.

Lemma rint_comp (x y : Q) : (x == y)%Q -> rint x = rint y.
Proof.
  intros Hxy. unfold rint. rewrite (Qfloor_comp _ _ Hxy).
  assert (Hr : (x - inject_Z (Qfloor y) == y - inject_Z (Qfloor y))%Q)
    by (by rewrite Hxy).
  by rewrite (Qcompare_comp _ _ Hr _ _ (Qeq_refl (1 # 2))).
Qed.

Lemma rint_inject_Z (z : Z) : rint (inject_Z z) = z.
Proof.
  unfold rint. rewrite Qfloor_Z.
  destruct (inject_Z z - inject_Z z ?= 1 # 2)%Q eqn:Hc; [|reflexivity|].
  - apply Qeq_alt in Hc. lra.
  - apply Qgt_alt in Hc. lra.
Qed.

Lemma rint_floor_or_next (x : Q) :
  rint x = Qfloor x
  \/ (rint x = (Qfloor x + 1)%Z /\ (1 # 2 <= x - inject_Z (Qfloor x))%Q).
Proof.
  unfold rint. destruct (x - inject_Z (Qfloor x) ?= 1 # 2)%Q eqn:Hc.
  - apply Qeq_alt in Hc. destruct (Z.even (Qfloor x)); [by left|right].
    split; [reflexivity|lra].
  - by left.
  - apply Qgt_alt in Hc. right. split; [reflexivity|lra].
Qed.

Lemma rint_le (x : Q) (n : Z) : (x <= inject_Z n)%Q -> (rint x <= n)%Z.
Proof.
  intros Hx. pose proof (Qfloor_le x) as Hlo.
  destruct (rint_floor_or_next x) as [-> | [-> Hfrac]].
  - rewrite Zle_Qle. lra.
  - assert (Hlt : (inject_Z (Qfloor x) < inject_Z n)%Q) by lra.
    rewrite <- Zlt_Qlt in Hlt. lia.
Qed.

Lemma rint_ge (x : Q) (n : Z) : (inject_Z n <= x)%Q -> (n <= rint x)%Z.
Proof.
  intros Hx. apply Qfloor_resp_le in Hx. rewrite Qfloor_Z in Hx.
  destruct (rint_floor_or_next x) as [-> | [-> _]]; lia.
Qed.

Lemma two_to_pos (k : Z) : (0 < 2 ^ k)%Q.
Proof. by apply Qpower_0_lt. Qed.

Lemma two_to_plus (a b : Z) : (2 ^ (a + b) == 2 ^ a * 2 ^ b)%Q.
Proof. by apply Qpower_plus. Qed.

Lemma two_to_cancel (k : Z) : (2 ^ (- k) * 2 ^ k == 1)%Q.
Proof. rewrite <- two_to_plus. by replace (- k + k)%Z with 0%Z by lia. Qed.

Lemma two_to_inject (k : Z) : (0 <= k)%Z -> (2 ^ k == inject_Z (2 ^ k))%Q.
Proof. intros Hk. by rewrite Zpower_Qpower. Qed.

Lemma two_to_le (a b : Z) : (a <= b)%Z -> (2 ^ a <= 2 ^ b)%Q.
Proof. intros Hab. apply Qpower_le_compat_l; [done|lra]. Qed.

Lemma two_to_lt_inv (a b : Z) : (2 ^ a < 2 ^ b)%Q -> (a < b)%Z.
Proof. intros Hab. apply Qpower_lt_compat_l_inv in Hab; [done|lra]. Qed.

Lemma ilog2_spec (q : Q) :
  (0 < q)%Q -> (2 ^ ilog2 q <= q /\ q < 2 ^ (ilog2 q + 1))%Q.
Proof.
  intros Hq. destruct q as [n d]. unfold ilog2. cbn [Qnum Qden].
  assert (Hn : (0 < n)%Z) by (revert Hq; unfold Qlt; simpl; lia).
  pose proof (Z.log2_spec n Hn) as [Hn1 Hn2].
  pose proof (Z.log2_spec (Zpos d) (Pos2Z.is_pos d)) as [Hd1 Hd2].
  pose proof (Z.log2_nonneg n) as Ha. pose proof (Z.log2_nonneg (Zpos d)) as Hb.
  set (a := Z.log2 n) in *. set (b := Z.log2 (Zpos d)) in *.
  assert (Hq' : (n # d == inject_Z n / inject_Z (Zpos d))%Q) by apply Qmake_Qdiv.
  assert (Hdpos : (0 < inject_Z (Zpos d))%Q) by (unfold Qlt; simpl; lia).
  assert (HA : (2 ^ a <= inject_Z n)%Q).
  { rewrite two_to_inject by done. by rewrite <- Zle_Qle. }
  assert (HA' : (inject_Z n < 2 ^ a * 2)%Q).
  { change (2 ^ a * 2)%Q with (2 ^ a * 2 ^ 1)%Q. rewrite <- two_to_plus.
    rewrite two_to_inject by lia. rewrite <- Zlt_Qlt.
    by replace (a + 1)%Z with (Z.succ a) by lia. }
  assert (HB : (2 ^ b <= inject_Z (Zpos d))%Q).
  { rewrite two_to_inject by done. by rewrite <- Zle_Qle. }
  assert (HB' : (inject_Z (Zpos d) < 2 ^ b * 2)%Q).
  { change (2 ^ b * 2)%Q with (2 ^ b * 2 ^ 1)%Q. rewrite <- two_to_plus.
    rewrite two_to_inject by lia. rewrite <- Zlt_Qlt.
    by replace (b + 1)%Z with (Z.succ b) by lia. }
  assert (Hab : (2 ^ (a - b) * 2 ^ b == 2 ^ a)%Q).
  { rewrite <- two_to_plus. by replace (a - b + b)%Z with a by lia. }
  pose proof (two_to_pos a) as Hpa. pose proof (two_to_pos b) as Hpb.
  pose proof (two_to_pos (a - b)) as Hpab.
  set (D := inject_Z (Zpos d)) in *. set (N := inject_Z n) in *.
  set (x := (n # d)%Q) in *.
  assert (Hx : (x * D == N)%Q) by (rewrite Hq'; field; lra).
  set (P := (2 ^ (a - b))%Q) in *. set (PA := (2 ^ a)%Q) in *.
  set (PB := (2 ^ b)%Q) in *.
  assert (Hup : (x < P * 2)%Q).
  { apply Qnot_le_lt. intros Hc.
    assert (P * 2 * D <= x * D)%Q by (apply Qmult_le_compat_r; lra).
    assert (P * 2 * PB <= P * 2 * D)%Q by (apply Qmult_le_l; lra).
    lra. }
  assert (Hlow : (P < x * 2)%Q).
  { apply Qnot_le_lt. intros Hc.
    assert (x * 2 * D <= P * D)%Q by (apply Qmult_le_compat_r; lra).
    assert (P * D < P * (PB * 2))%Q by (apply Qmult_lt_l; lra).
    lra. }
  destruct (Qle_bool P x) eqn:Hle.
  - apply Qle_bool_iff in Hle. split; [done|].
    rewrite two_to_plus. change (2 ^ 1)%Q with 2%Q. done.
  - assert (Hlt : (x < P)%Q).
    { apply Qnot_le_lt. intros Hc. apply Qle_bool_iff in Hc. congruence. }
    replace (a - b - 1 + 1)%Z with (a - b)%Z by lia. split; [|done].
    assert (Hm : (2 ^ (a - b - 1) * 2 == P)%Q).
    { change 2%Q with (2 ^ 1)%Q at 2. rewrite <- two_to_plus.
      by replace (a - b - 1 + 1)%Z with (a - b)%Z by lia. }
    lra.
Qed.

Lemma ilog2_le (q : Q) (k : Z) : (0 < q)%Q -> (q < 2 ^ k)%Q -> (ilog2 q < k)%Z.
Proof.
  intros Hq Hk. destruct (ilog2_spec q Hq) as [Hlo _].
  apply two_to_lt_inv. lra.
Qed.

Lemma ilog2_ge (q : Q) (k : Z) : (2 ^ k <= q)%Q -> (k <= ilog2 q)%Z.
Proof.
  intros Hk. pose proof (two_to_pos k).
  destruct (ilog2_spec q ltac:(lra)) as [_ Hhi].
  assert (k < ilog2 q + 1)%Z; [|lia]. apply two_to_lt_inv. lra.
Qed.

Lemma scaled_back (q : Q) (u : Z) : (q * 2 ^ (- u) * 2 ^ u == q)%Q.
Proof. rewrite <- Qmult_assoc, two_to_cancel. ring. Qed.

Lemma quantum_normal (q : Q) :
  (-1022 <= ilog2 q)%Z -> quantum q = (ilog2 q - 52)%Z.
Proof. unfold quantum. lia. Qed.

Lemma nearest_nonneg (q : Q) : (0 < q)%Q -> (0 <= nearest q)%Q.
Proof.
  intros Hq. unfold nearest. pose proof (two_to_pos (quantum q)) as Hp.
  pose proof (two_to_pos (- quantum q)) as Hp'.
  assert (Hm : (0 <= rint (q * 2 ^ (- quantum q)))%Z).
  { apply rint_ge. change (inject_Z 0) with 0%Q.
    apply Qmult_le_0_compat; lra. }
  apply Qmult_le_0_compat; [|lra].
  change 0%Q with (inject_Z 0). by rewrite <- Zle_Qle.
Qed.

Lemma nearest_upper (q : Q) (n k : Z) :
  (0 < q)%Q -> (q <= inject_Z n * 2 ^ k)%Q -> (quantum q <= k)%Z ->
  (nearest q <= inject_Z n * 2 ^ k)%Q.
Proof.
  intros Hq Hle Hk. unfold nearest. set (u := quantum q) in *.
  pose proof (two_to_pos u) as Hp. pose proof (two_to_pos (- u)) as Hp'.
  assert (Hsplit : (2 ^ k == inject_Z (2 ^ (k - u)) * 2 ^ u)%Q).
  { rewrite <- two_to_inject by lia. rewrite <- two_to_plus.
    by replace (k - u + u)%Z with k by lia. }
  assert (Hm : (rint (q * 2 ^ (- u)) <= n * 2 ^ (k - u))%Z).
  { apply rint_le. rewrite inject_Z_mult.
    assert (H1 : (q * 2 ^ (- u) <= inject_Z n * 2 ^ k * 2 ^ (- u))%Q)
      by (apply Qmult_le_compat_r; lra).
    assert (H2 : (inject_Z n * 2 ^ k * 2 ^ (- u)
                  == inject_Z n * inject_Z (2 ^ (k - u)))%Q).
    { rewrite Hsplit. rewrite <- !Qmult_assoc.
      rewrite (Qmult_comm (2 ^ u)), two_to_cancel. ring. }
    lra. }
  rewrite Zle_Qle, inject_Z_mult in Hm.
  assert (H3 : (inject_Z (rint (q * 2 ^ (- u))) * 2 ^ u
                <= inject_Z n * inject_Z (2 ^ (k - u)) * 2 ^ u)%Q)
    by (apply Qmult_le_compat_r; lra).
  rewrite Hsplit. lra.
Qed.

Lemma nearest_lower (q : Q) (n k : Z) :
  (inject_Z n * 2 ^ k <= q)%Q -> (quantum q <= k)%Z ->
  (inject_Z n * 2 ^ k <= nearest q)%Q.
Proof.
  intros Hle Hk. unfold nearest. set (u := quantum q) in *.
  pose proof (two_to_pos u) as Hp. pose proof (two_to_pos (- u)) as Hp'.
  assert (Hsplit : (2 ^ k == inject_Z (2 ^ (k - u)) * 2 ^ u)%Q).
  { rewrite <- two_to_inject by lia. rewrite <- two_to_plus.
    by replace (k - u + u)%Z with k by lia. }
  assert (Hm : (n * 2 ^ (k - u) <= rint (q * 2 ^ (- u)))%Z).
  { apply rint_ge. rewrite inject_Z_mult.
    assert (H1 : (inject_Z n * 2 ^ k * 2 ^ (- u) <= q * 2 ^ (- u))%Q)
      by (apply Qmult_le_compat_r; lra).
    assert (H2 : (inject_Z n * 2 ^ k * 2 ^ (- u)
                  == inject_Z n * inject_Z (2 ^ (k - u)))%Q).
    { rewrite Hsplit. rewrite <- !Qmult_assoc.
      rewrite (Qmult_comm (2 ^ u)), two_to_cancel. ring. }
    lra. }
  rewrite Zle_Qle, inject_Z_mult in Hm.
  assert (H3 : (inject_Z n * inject_Z (2 ^ (k - u)) * 2 ^ u
                <= inject_Z (rint (q * 2 ^ (- u))) * 2 ^ u)%Q)
    by (apply Qmult_le_compat_r; lra).
  rewrite Hsplit. lra.
Qed.

Lemma nearest_exact (q : Q) (n : Z) :
  (q * 2 ^ (- quantum q) == inject_Z n)%Q -> (nearest q == q)%Q.
Proof.
  intros Hn. unfold nearest. rewrite (rint_comp _ _ Hn), rint_inject_Z.
  rewrite <- Hn. apply scaled_back.
Qed.

(** The rounding error in the normal range: half a unit in the last place,
    at most [2^-53] of the value. *)
Lemma nearest_error (q : Q) :
  (0 < q)%Q -> (-1022 <= ilog2 q)%Z ->
  (nearest q - q <= q * (1 # 9007199254740992)
   /\ q - nearest q <= q * (1 # 9007199254740992))%Q.
Proof.
  intros Hq He. destruct (ilog2_spec q Hq) as [Hlo _].
  unfold nearest. rewrite (quantum_normal q He).
  set (u := (ilog2 q - 52)%Z). set (x := (q * 2 ^ (- u))%Q).
  pose proof (rint_close x) as [H1 H2]. pose proof (two_to_pos u) as Hp.
  assert (Hx : (x * 2 ^ u == q)%Q) by apply scaled_back.
  assert (Hu : (2 ^ u == 2 ^ ilog2 q * (1 # 4503599627370496))%Q).
  { unfold u. replace (ilog2 q - 52)%Z with (ilog2 q + - 52)%Z by lia.
    rewrite two_to_plus. reflexivity. }
  set (m := inject_Z (rint x)) in *. set (P := (2 ^ u)%Q) in *.
  set (E := (2 ^ ilog2 q)%Q) in *.
  assert (H3 : ((m - x) * P <= (1 # 2) * P)%Q)
    by (apply Qmult_le_compat_r; lra).
  assert (H4 : ((x - m) * P <= (1 # 2) * P)%Q)
    by (apply Qmult_le_compat_r; lra).
  split; lra.
Qed.

Lemma fl_positive (q : Q) : (0 < q)%Q -> fl q = fl_pos q.
Proof.
  intros Hq. unfold fl. destruct (q ?= 0)%Q eqn:Hc; [| |reflexivity].
  - apply Qeq_alt in Hc. lra.
  - apply Qlt_alt in Hc. lra.
Qed.

Lemma fl_negative (q : Q) : (q < 0)%Q -> fl q = fneg (fl_pos (- q)).
Proof.
  intros Hq. unfold fl. destruct (q ?= 0)%Q eqn:Hc; [|reflexivity|].
  - apply Qeq_alt in Hc. lra.
  - apply Qgt_alt in Hc. lra.
Qed.

Lemma fl_zero (q : Q) : (q == 0)%Q -> fl q = Fnum 0.
Proof. intros Hq. unfold fl. apply Qeq_alt in Hq. by rewrite Hq. Qed.

Lemma fl_pos_finite (q : Q) :
  (nearest q < 2 ^ 1024)%Q -> fl_pos q = Fnum (Qred (nearest q)).
Proof.
  intros Hr. unfold fl_pos.
  destruct (Qle_bool (2 ^ 1024) (nearest q)) eqn:Hb; [|reflexivity].
  apply Qle_bool_iff in Hb. lra.
Qed.

Lemma fl_pos_overflow (q : Q) :
  (2 ^ 1024 <= nearest q)%Q -> fl_pos q = Finf false.
Proof.
  intros Hr. unfold fl_pos. apply Qle_bool_iff in Hr. by rewrite Hr.
Qed.

(** An integer of at most 53 bits is a float. *)
Lemma nearest_int (z : Z) :
  (0 < z <= 2 ^ 53)%Z -> (nearest (inject_Z z) == inject_Z z)%Q.
Proof.
  intros Hz. set (q := inject_Z z).
  assert (Hq : (0 < q)%Q) by (unfold q, Qlt; simpl; lia).
  destruct (ilog2_spec q Hq) as [Hlo Hhi].
  assert (He0 : (0 <= ilog2 q)%Z).
  { apply ilog2_ge. change (2 ^ 0)%Q with (inject_Z 1). unfold q.
    rewrite <- Zle_Qle. lia. }
  assert (He1 : (ilog2 q < 54)%Z).
  { apply ilog2_le; [done|]. rewrite two_to_inject by lia. unfold q.
    rewrite <- Zlt_Qlt. lia. }
  assert (Hu : quantum q = (ilog2 q - 52)%Z) by (apply quantum_normal; lia).
  destruct (decide (ilog2 q <= 52)%Z) as [He|He].
  - apply (nearest_exact q (z * 2 ^ (52 - ilog2 q))).
    rewrite Hu, inject_Z_mult, <- two_to_inject by lia.
    by replace (- (ilog2 q - 52))%Z with (52 - ilog2 q)%Z by lia.
  - assert (He53 : ilog2 q = 53%Z) by lia.
    assert (Hz53 : z = (2 ^ 53)%Z).
    { rewrite He53, two_to_inject in Hlo by lia. unfold q in Hlo.
      rewrite <- Zle_Qle in Hlo. lia. }
    apply (nearest_exact q (2 ^ 52)). rewrite Hu, He53. unfold q.
    rewrite Hz53. reflexivity.
Qed.

Lemma fl_int (z : Z) :
  (Z.abs z <= 2 ^ 53)%Z -> fl (inject_Z z) = Fnum (inject_Z z).
Proof.
  intros Hz.
  assert (Hpos : forall n, (0 < n <= 2 ^ 53)%Z ->
                   fl_pos (inject_Z n) = Fnum (inject_Z n)).
  { intros n Hn. pose proof (nearest_int n Hn) as Hex.
    rewrite fl_pos_finite.
    - f_equal. rewrite (Qred_complete _ _ Hex). apply Qred_identity.
      simpl. apply Z.gcd_1_r.
    - rewrite Hex, two_to_inject by lia. rewrite <- Zlt_Qlt. lia. }
  destruct (Z.lt_trichotomy z 0) as [Hneg | [-> | Hp]].
  - rewrite fl_negative by (unfold Qlt; simpl; lia).
    change (- inject_Z z)%Q with (inject_Z (- z)).
    rewrite Hpos by lia. cbn [fneg].
    change (- inject_Z (- z))%Q with (inject_Z (- - z)).
    by rewrite Z.opp_involutive.
  - reflexivity.
  - rewrite fl_positive by (unfold Qlt; simpl; lia). apply Hpos. lia.
Qed.

(** [float(z)] in general: it raises only on an integer of at least 1024
    bits, and otherwise is within [2^-53] of the integer, relatively. *)
Lemma fl_pos_int_cases (n : Z) :
  (0 < n)%Z ->
  (fl_pos (inject_Z n) = Finf false /\ (2 ^ 1023 <= n)%Z)
  \/ (exists q, fl_pos (inject_Z n) = Fnum q
        /\ (q - inject_Z n <= inject_Z n * (1 # 9007199254740992)
            /\ inject_Z n - q <= inject_Z n * (1 # 9007199254740992))%Q
        /\ (n < 2 ^ 1024)%Z).
Proof.
  intros Hn. set (x := inject_Z n).
  assert (Hx : (0 < x)%Q) by (unfold x, Qlt; simpl; lia).
  assert (He0 : (0 <= ilog2 x)%Z).
  { apply ilog2_ge. change (2 ^ 0)%Q with (inject_Z 1). unfold x.
    rewrite <- Zle_Qle. lia. }
  pose proof (nearest_error x Hx ltac:(lia)) as [H1 H2].
  destruct (Qlt_le_dec (nearest x) (2 ^ 1024)) as [Hfin|Hover].
  - right. exists (Qred (nearest x)). split; [by apply fl_pos_finite|].
    rewrite Qred_correct. split; [done|].
    apply Z.lt_nge. intros Hbig.
    assert (Hb : (2 ^ 1024 <= x)%Q).
    { rewrite two_to_inject by lia. unfold x. by rewrite <- Zle_Qle. }
    assert (He : (1024 <= ilog2 x)%Z) by (by apply ilog2_ge).
    destruct (ilog2_spec x Hx) as [Hlo _].
    assert (Hlow : (inject_Z 1 * 2 ^ ilog2 x <= nearest x)%Q).
    { apply nearest_lower; [|unfold quantum; lia].
      change (inject_Z 1) with 1%Q. lra. }
    pose proof (two_to_le 1024 (ilog2 x) He) as Hmono.
    change (inject_Z 1) with 1%Q in Hlow. lra.
  - left. split; [by apply fl_pos_overflow|].
    apply Z.le_ngt. intros Hsmall.
    assert (Hb : (x <= inject_Z (2 ^ 1023 - 1))%Q)
      by (unfold x; rewrite <- Zle_Qle; lia).
    rewrite (two_to_inject 1024) in Hover by lia.
    revert Hover Hb H1. generalize (nearest x). intros r Hover Hb H1.
    assert (Hc : (inject_Z (2 ^ 1024)
                  <= inject_Z (2 ^ 1023 - 1) * (1 + (1 # 9007199254740992)))%Q).
    { apply Qle_trans with r; [done|].
      apply Qle_trans with (x * (1 + (1 # 9007199254740992)))%Q; [lra|].
      apply Qmult_le_compat_r; [done|]. unfold Qle. simpl. lia. }
    revert Hc. unfold Qle. vm_compute. intros Hc. apply Hc. reflexivity.
Qed.

Lemma truediv_exact_operands (a b : nat) :
  (Z.of_nat a <= 2 ^ 53)%Z -> (0 < Z.of_nat b <= 2 ^ 53)%Z ->
  truediv a b = fl (inject_Z (Z.of_nat a) / inject_Z (Z.of_nat b)).
Proof.
  intros Ha Hb. unfold truediv, float_of_count. rewrite !fl_int by lia.
  cbn [fdiv].
  destruct (Qeq_bool (inject_Z (Z.of_nat b)) 0) eqn:Hz; [|reflexivity].
  apply Qeq_bool_iff in Hz. revert Hz. unfold Qeq. simpl. lia.
Qed.

Lemma percentage_accuracy (a b : nat) :
  (0 < a)%nat -> (0 < b)%nat ->
  (Z.of_nat a <= 2 ^ 53)%Z -> (Z.of_nat b <= 2 ^ 53)%Z ->
  let exact := (100 * inject_Z (Z.of_nat a) / inject_Z (Z.of_nat b))%Q in
  exists q,
    percent (truediv a b) = Fnum q
    /\ (0 < q)%Q
    /\ (q - exact <= exact * (1 # 2251799813685248)
        /\ exact - q <= exact * (1 # 2251799813685248))%Q
    /\ ((a <= b)%nat -> (q <= 100)%Q).
Proof.
  intros Ha Hb Ha53 Hb53 exact.
  rewrite truediv_exact_operands by lia.
  set (A := inject_Z (Z.of_nat a)) in *. set (B := inject_Z (Z.of_nat b)) in *.
  assert (HA : (1 <= A)%Q) by (unfold A, Qle; simpl; lia).
  assert (HB : (1 <= B)%Q) by (unfold B, Qle; simpl; lia).
  assert (HA' : (A <= inject_Z (2 ^ 53))%Q) by (unfold A; by rewrite <- Zle_Qle).
  assert (HB' : (B <= inject_Z (2 ^ 53))%Q) by (unfold B; by rewrite <- Zle_Qle).
  set (x := (A / B)%Q).
  assert (HxB : (x * B == A)%Q) by (unfold x; field; lra).
  assert (Hx0 : (0 < x)%Q).
  { apply Qnot_le_lt. intros Hc.
    assert (x * B <= 0 * B)%Q by (apply Qmult_le_compat_r; lra). lra. }
  assert (Hxlo : (2 ^ (-53) <= x)%Q).
  { apply Qnot_lt_le. intros Hc.
    assert (x * B <= 2 ^ (-53) * inject_Z (2 ^ 53))%Q.
    { apply Qle_trans with (2 ^ (-53) * B)%Q.
      - apply Qmult_le_compat_r; lra.
      - apply Qmult_le_l; [apply two_to_pos|done]. }
    assert (2 ^ (-53) * inject_Z (2 ^ 53) == 1)%Q by reflexivity.
    assert (x * B < 2 ^ (-53) * B)%Q by (apply Qmult_lt_r; lra).
    assert (2 ^ (-53) * B <= 2 ^ (-53) * inject_Z (2 ^ 53))%Q
      by (apply Qmult_le_l; [apply two_to_pos|done]).
    lra. }
  assert (Hxhi : (x <= inject_Z (2 ^ 53))%Q).
  { apply Qnot_lt_le. intros Hc.
    assert (inject_Z (2 ^ 53) * B < x * B)%Q by (apply Qmult_lt_r; lra).
    assert (inject_Z (2 ^ 53) * 1 <= inject_Z (2 ^ 53) * B)%Q
      by (apply Qmult_le_l; [reflexivity|done]).
    lra. }
  assert (Hex : (-1022 <= ilog2 x)%Z).
  { assert (-53 <= ilog2 x)%Z by (by apply ilog2_ge). lia. }
  pose proof (nearest_error x Hx0 Hex) as [Hx1 Hx2].
  assert (Hxfin : (nearest x < 2 ^ 1024)%Q).
  { apply Qle_lt_trans with (x * (1 + (1 # 9007199254740992)))%Q; [lra|].
    apply Qle_lt_trans
      with (inject_Z (2 ^ 53) * (1 + (1 # 9007199254740992)))%Q.
    - apply Qmult_le_compat_r; [done|]. unfold Qle. simpl. lia.
    - reflexivity. }
  rewrite (fl_positive x Hx0), (fl_pos_finite x Hxfin).
  unfold percent. cbn [fmul].
  set (x1 := Qred (nearest x)).
  assert (Hx1eq : (x1 == nearest x)%Q) by apply Qred_correct.
  set (y := (x1 * 100)%Q).
  assert (Hy0 : (0 < y)%Q) by (unfold y; lra).
  assert (Hylo : (2 ^ (-50) <= y)%Q).
  { unfold y. change (2 ^ (-50))%Q with (1 # 1125899906842624)%Q.
    change (2 ^ (-53))%Q with (1 # 9007199254740992)%Q in Hxlo. lra. }
  assert (Hey : (-1022 <= ilog2 y)%Z).
  { assert (-50 <= ilog2 y)%Z by (by apply ilog2_ge). lia. }
  pose proof (nearest_error y Hy0 Hey) as [Hy1 Hy2].
  assert (Hyhi : (y <= inject_Z (2 ^ 61))%Q).
  { unfold y. apply Qle_trans with
      (inject_Z (2 ^ 53) * (1 + (1 # 9007199254740992)) * 100)%Q; [|done].
    assert (x * (1 + (1 # 9007199254740992))
            <= inject_Z (2 ^ 53) * (1 + (1 # 9007199254740992)))%Q.
    { apply Qmult_le_compat_r; [done|]. unfold Qle. simpl. lia. }
    lra. }
  assert (Hyfin : (nearest y < 2 ^ 1024)%Q).
  { apply Qle_lt_trans with (y * (1 + (1 # 9007199254740992)))%Q; [lra|].
    apply Qle_lt_trans
      with (inject_Z (2 ^ 61) * (1 + (1 # 9007199254740992)))%Q.
    - apply Qmult_le_compat_r; [done|]. unfold Qle. simpl. lia.
    - reflexivity. }
  rewrite (fl_positive y Hy0), (fl_pos_finite y Hyfin).
  exists (Qred (nearest y)).
  assert (Hexact : (exact == 100 * x)%Q) by (unfold exact, x; field; lra).
  split; [reflexivity|]. rewrite Qred_correct.
  split; [unfold y in *; lra|]. split.
  - rewrite Hexact. unfold y in *. lra.
  - intros Hab.
    assert (Hx1le : (x <= 1)%Q).
    { apply Qnot_lt_le. intros Hc.
      assert (1 * B < x * B)%Q by (apply Qmult_lt_r; lra).
      assert (A <= B)%Q by (unfold A, B; rewrite <- Zle_Qle; lia). lra. }
    assert (Hn1 : (nearest x <= inject_Z 1 * 2 ^ 0)%Q).
    { apply nearest_upper; [done|change (inject_Z 1 * 2 ^ 0)%Q with 1%Q; lra|].
      assert (ilog2 x < 1)%Z by (apply ilog2_le; [done|change (2 ^ 1)%Q with 2%Q; lra]).
      unfold quantum. lia. }
    change (inject_Z 1 * 2 ^ 0)%Q with 1%Q in Hn1.
    assert (Hn2 : (nearest y <= inject_Z 25 * 2 ^ 2)%Q).
    { apply nearest_upper; [done|change (inject_Z 25 * 2 ^ 2)%Q with 100%Q; unfold y; lra|].
      assert (ilog2 y < 7)%Z.
      { apply ilog2_le; [done|]. change (2 ^ 7)%Q with 128%Q. unfold y. lra. }
      unfold quantum. lia. }
    change (inject_Z 25 * 2 ^ 2)%Q with 100%Q in Hn2. done.
Qed.

Lemma percentage_zero (b : nat) :
  (0 < b)%nat -> (Z.of_nat b <= 2 ^ 53)%Z ->
  percent (truediv 0 b) = Fnum 0.
Proof.
  intros Hb Hb53. rewrite truediv_exact_operands by lia.
  rewrite fl_zero by (unfold Qdiv; simpl; ring).
  unfold percent. cbn [fmul]. by rewrite fl_zero.
Qed.

(** The exponent of a rational is that of its value. *)
Lemma ilog2_comp (x y : Q) : (0 < x)%Q -> (x == y)%Q -> ilog2 x = ilog2 y.
Proof.
  intros Hx Hxy. assert (Hy : (0 < y)%Q) by lra.
  destruct (ilog2_spec x Hx) as [H1 H2]. destruct (ilog2_spec y Hy) as [H3 H4].
  assert (ilog2 x < ilog2 y + 1)%Z by (apply two_to_lt_inv; lra).
  assert (ilog2 y < ilog2 x + 1)%Z by (apply two_to_lt_inv; lra).
  lia.
Qed.

(** Rounding depends on the value only, not on the fraction that writes
    it. *)
Lemma fl_comp (x y : Q) : (x == y)%Q -> fl x = fl y.
Proof.
  intros Hxy.
  assert (Hpos : forall a b, (0 < a)%Q -> (a == b)%Q -> fl_pos a = fl_pos b).
  { intros a b Ha Hab.
    assert (Hn : (nearest a == nearest b)%Q).
    { unfold nearest, quantum. rewrite (ilog2_comp a b Ha Hab).
      assert (Hs : (a * 2 ^ (- Z.max (ilog2 b - 52) (-1074))
                    == b * 2 ^ (- Z.max (ilog2 b - 52) (-1074)))%Q)
        by (by rewrite Hab).
      by rewrite (rint_comp _ _ Hs). }
    unfold fl_pos. rewrite (Qred_complete _ _ Hn).
    assert (Hb : Qle_bool (2 ^ 1024) (nearest a)
                 = Qle_bool (2 ^ 1024) (nearest b)).
    { destruct (Qle_bool (2 ^ 1024) (nearest b)) eqn:Hle.
      - apply Qle_bool_iff. apply Qle_bool_iff in Hle. lra.
      - destruct (Qle_bool (2 ^ 1024) (nearest a)) eqn:Hle'; [|reflexivity].
        apply Qle_bool_iff in Hle'.
        assert (Hc : Qle_bool (2 ^ 1024) (nearest b) = true)
          by (apply Qle_bool_iff; lra).
        congruence. }
    by rewrite Hb. }
  destruct (Q_dec x 0) as [[Hneg | Hp] | Hz].
  - rewrite (fl_negative x Hneg), (fl_negative y) by lra. f_equal.
    apply Hpos; [lra|by rewrite Hxy].
  - rewrite (fl_positive x Hp), (fl_positive y) by lra. by apply Hpos.
  - rewrite (fl_zero x Hz), (fl_zero y) by lra. reflexivity.
Qed.



(** ** Numeric Extractor *)

Lemma point_not_digit (c : char) : is_point c = true -> is_digit c = false.
Proof. unfold is_point. intros H. apply N.eqb_eq in H. by subst. Qed.

Lemma sign_not_digit (c : char) : is_sign c = true -> is_digit c = false.
Proof.
  unfold is_sign. intros H. apply orb_true_iff in H as [H|H];
    apply N.eqb_eq in H; by subst.
Qed.

Lemma sign_not_point (c : char) : is_sign c = true -> is_point c = false.
Proof.
  unfold is_sign. intros H. apply orb_true_iff in H as [H|H];
    apply N.eqb_eq in H; by subst.
Qed.

Lemma greedy_end (p : char -> bool) (s : pystr) :
  Re.greedy p (Re.match_here []) s = Some (length (take_run p s)).
Proof.
  induction s as [|c t IH]; [reflexivity|].
  cbn [Re.greedy take_run]. destruct (p c); [|reflexivity]. by rewrite IH.
Qed.

(** [p+] *)
Lemma match_plus (p : char -> bool) (s : pystr) :
  Re.match_here [Re.Atom p Re.Plus] s
  = match take_run p s with
    | [] => None
    | r => Some (length r)
    end.
Proof.
  destruct s as [|c t]; [reflexivity|].
  cbn [Re.match_here Re.qt Re.cls take_run].
  destruct (p c); [|reflexivity]. by rewrite greedy_end.
Qed.

(** [\.?\d+] *)
Lemma match_point_digits (s : pystr) :
  Re.match_here [Re.Atom (fun c => c =? 46) Re.Opt; Re.Atom is_digit Re.Plus] s
  = match s with
    | c :: t =>
        if is_point c then
          match take_run is_digit t with
          | [] => None
          | r => Some (S (length r))
          end
        else
          match take_run is_digit s with
          | [] => None
          | r => Some (length r)
          end
    | [] => None
    end.
Proof.
  destruct s as [|c t]; [reflexivity|].
  change (Re.match_here (_ :: ?r) (c :: t))
    with (if is_point c then
            match Re.match_here r t with
            | Some n => Some (S n)
            | None => Re.match_here r (c :: t)
            end
          else Re.match_here r (c :: t)).
  rewrite !match_plus. destruct (is_point c) eqn:Hp; [|reflexivity].
  cbn [take_run]. rewrite (point_not_digit _ Hp).
  by destruct (take_run is_digit t).
Qed.

(** [\d*\.?\d+] *)
Lemma match_unsigned (s : pystr) :
  Re.match_here [Re.Atom is_digit Re.Star; Re.Atom (fun c => c =? 46) Re.Opt;
                 Re.Atom is_digit Re.Plus] s
  = unsigned_prefix s.
Proof.
  change (Re.match_here (_ :: ?r) s)
    with (Re.greedy is_digit (Re.match_here r) s).
  induction s as [|c t IH]; [reflexivity|].
  cbn [Re.greedy]. rewrite IH, match_point_digits.
  unfold unsigned_prefix. cbn [take_run lstrip].
  destruct (is_digit c) eqn:Hd.
  - assert (Hp : is_point c = false).
    { destruct (is_point c) eqn:Hp; [|reflexivity].
      apply point_not_digit in Hp. congruence. }
    rewrite Hp. cbn [take_run]. rewrite ?Hd.
    destruct (match lstrip is_digit t with
              | [] => []
              | c0 :: t0 => if is_point c0 then take_run is_digit t0 else []
              end); [|reflexivity].
    by destruct (take_run is_digit t).
  - destruct (is_point c); [|reflexivity].
    by destruct (take_run is_digit t).
Qed.

(** [[-+]?\d*\.?\d+]: the backtracking matcher finds the longest literal. *)
Lemma match_numeric (s : pystr) :
  Re.match_here numeric_pattern s = literal_prefix s.
Proof.
  unfold numeric_pattern. destruct s as [|c t].
  - change (Re.match_here (_ :: ?r) []) with (Re.match_here r []).
    by rewrite match_unsigned.
  - change (Re.match_here (_ :: ?r) (c :: t))
      with (if is_sign c then
              match Re.match_here r t with
              | Some n => Some (S n)
              | None => Re.match_here r (c :: t)
              end
            else Re.match_here r (c :: t)).
    rewrite !match_unsigned. unfold literal_prefix.
    destruct (is_sign c) eqn:Hs; [|reflexivity].
    destruct (unsigned_prefix t); [reflexivity|].
    unfold unsigned_prefix. cbn [take_run lstrip].
    by rewrite (sign_not_digit _ Hs), (sign_not_point _ Hs).
Qed.

Lemma take_run_lstrip (p : char -> bool) (s : pystr) :
  take_run p s ++ lstrip p s = s.
Proof.
  induction s as [|c t IH]; [reflexivity|].
  simpl. destruct (p c); [|reflexivity]. simpl. by rewrite IH.
Qed.

Lemma Forall_take_run (p : char -> bool) (s : pystr) :
  Forall (fun c => p c = true) (take_run p s).
Proof.
  induction s as [|c t IH]; [constructor|].
  simpl. destruct (p c) eqn:Hc; by constructor.
Qed.

Lemma lstrip_head (p : char -> bool) (s : pystr) c t :
  lstrip p s = c :: t -> p c = false.
Proof.
  induction s as [|a s IH]; [discriminate|].
  simpl. destruct (p a) eqn:Ha; [done|]. intros [= <- _]. done.
Qed.

Lemma take_run_app_all (p : char -> bool) (d t : pystr) :
  Forall (fun c => p c = true) d -> take_run p (d ++ t) = d ++ take_run p t.
Proof.
  induction 1 as [|c d Hc _ IH]; [reflexivity|].
  simpl. by rewrite Hc, IH.
Qed.

Lemma lstrip_app_all (p : char -> bool) (d t : pystr) :
  Forall (fun c => p c = true) d -> lstrip p (d ++ t) = lstrip p t.
Proof.
  induction 1 as [|c d Hc _ IH]; [reflexivity|].
  simpl. by rewrite Hc, IH.
Qed.

Lemma take_prefix {A} (l k : list A) (n : nat) :
  n = length l -> take n (l ++ k) = l.
Proof. intros ->. apply take_app_length. Qed.

Local Ltac solve_literal := first [done | by left | by right | by constructor | auto].

Lemma unsigned_prefix_sound (body : pystr) (n : nat) :
  unsigned_prefix body = Some n ->
  (n <= length body)%nat /\ numeric_literal (take n body).
Proof.
  unfold unsigned_prefix.
  pose proof (take_run_lstrip is_digit body) as Hbody.
  pose proof (Forall_take_run is_digit body) as Hip.
  remember (take_run is_digit body) as ip eqn:Hipdef. clear Hipdef.
  assert (Hplain : forall x xs, ip = x :: xs ->
            (length ip <= length body)%nat
            /\ numeric_literal (take (length ip) body)).
  { intros x xs Hx. rewrite <- Hbody. split.
    - rewrite length_app. lia.
    - rewrite take_prefix by done. subst ip.
      apply (Literal [] [] [] (x :: xs)); solve_literal. }
  destruct (lstrip is_digit body) as [|c t] eqn:Hrest.
  - destruct ip as [|x xs]; [discriminate|].
    intros [= <-]. by eapply Hplain.
  - destruct (is_point c) eqn:Hp.
    + pose proof (take_run_lstrip is_digit t) as Ht.
      pose proof (Forall_take_run is_digit t) as Hfp.
      apply N.eqb_eq in Hp. subst c.
      destruct (take_run is_digit t) as [|f fs] eqn:Hrun.
      * destruct ip as [|x xs]; [discriminate|].
        intros [= <-]. by eapply Hplain.
      * intros [= <-].
        assert (Hb : body = (ip ++ [46] ++ f :: fs) ++ lstrip is_digit t).
        { rewrite <- Hbody. rewrite <- Ht at 1. by rewrite <- !app_assoc. }
        rewrite Hb. split.
        { rewrite !length_app. simpl. lia. }
        rewrite take_prefix by (rewrite !length_app; simpl; lia).
        apply (Literal [] ip [46] (f :: fs)); solve_literal.
    + destruct ip as [|x xs]; [discriminate|].
      intros [= <-]. by eapply Hplain.
Qed.

Lemma unsigned_prefix_longest (ip pt fp t : pystr) :
  Forall (fun c => is_digit c = true) ip ->
  pt = [] \/ pt = [46] ->
  Forall (fun c => is_digit c = true) fp ->
  fp <> [] ->
  exists n, unsigned_prefix ((ip ++ pt ++ fp) ++ t) = Some n
            /\ (length (ip ++ pt ++ fp) <= n)%nat.
Proof.
  intros Hip Hpt Hfp Hne. unfold unsigned_prefix. destruct Hpt as [->| ->].
  - rewrite app_nil_l.
    assert (Hd : Forall (fun c => is_digit c = true) (ip ++ fp))
      by (by apply Forall_app).
    rewrite (take_run_app_all _ _ t Hd).
    destruct (ip ++ fp) as [|x xs] eqn:Hx.
    { apply app_eq_nil in Hx as [_ ?]. done. }
    destruct (match lstrip is_digit ((x :: xs) ++ t) with
              | [] => []
              | c :: t0 => if is_point c then take_run is_digit t0 else []
              end).
    + simpl. eexists. split; [reflexivity|]. rewrite length_app. lia.
    + eexists. split; [reflexivity|]. simpl. rewrite length_app. lia.
  - rewrite <- !app_assoc. rewrite (take_run_app_all _ _ _ Hip).
    rewrite (lstrip_app_all _ _ _ Hip). simpl.
    rewrite (take_run_app_all _ _ _ Hfp).
    destruct fp as [|f fs]; [done|]. simpl.
    eexists. split; [reflexivity|].
    rewrite ?length_app. simpl. rewrite ?length_app. simpl. lia.
Qed.

Lemma literal_prefix_sound (s : pystr) (n : nat) :
  literal_prefix s = Some n ->
  (n <= length s)%nat /\ numeric_literal (take n s).
Proof.
  destruct s as [|c t]; [discriminate|]. unfold literal_prefix.
  destruct (is_sign c) eqn:Hs; [|apply unsigned_prefix_sound].
  destruct (unsigned_prefix t) as [k|] eqn:Hk; [|discriminate].
  intros [= <-]. pose proof (unsigned_prefix_sound _ _ Hk) as [Hle Hlit].
  split; [simpl; lia|]. change (take (S k) (c :: t)) with (c :: take k t).
  inversion Hlit as [sg ip pt fp Hsg Hip Hpt Hfp Hne Heq].
  assert (sg = []) as ->.
  { destruct Hsg as [->|Hsg]; [done|]. exfalso.
    assert (Hhead : exists c', is_sign c' = true /\ exists r, take k t = c' :: r).
    { destruct Hsg as [-> | ->]; eexists; (split; [|by eexists]); done. }
    destruct Hhead as (c' & Hc' & r & Hr).
    (* a sign cannot start the text after the sign: the matcher took digits
       or a point there *)
    unfold unsigned_prefix in Hk.
    destruct t as [|a t']; [by destruct k|].
    destruct k; [discriminate|]. simpl in Hr. injection Hr as <- _.
    simpl in Hk. rewrite (sign_not_digit _ Hc'), (sign_not_point _ Hc') in Hk.
    discriminate. }
  unfold is_sign in Hs. apply orb_true_iff in Hs as [Hs|Hs];
    apply N.eqb_eq in Hs; subst c.
  - apply (Literal [45] ip pt fp); solve_literal.
  - apply (Literal [43] ip pt fp); solve_literal.
Qed.

Lemma literal_prefix_longest (w t : pystr) :
  numeric_literal w ->
  exists n, literal_prefix (w ++ t) = Some n /\ (length w <= n)%nat.
Proof.
  intros [sg ip pt fp Hsg Hip Hpt Hfp Hne].
  destruct (unsigned_prefix_longest ip pt fp t Hip Hpt Hfp Hne)
    as (n & Hn & Hle).
  assert (Hfirst : exists c r, (ip ++ pt ++ fp) ++ t = c :: r
                               /\ is_sign c = false).
  { destruct ip as [|d ip'].
    - destruct Hpt as [-> | ->]; simpl.
      + destruct fp as [|f fs]; [done|]. exists f, (fs ++ t). split; [done|].
        inversion Hfp as [|? ? Hf _]; subst.
        destruct (is_sign f) eqn:Hs; [|done].
        apply sign_not_digit in Hs. congruence.
      + by eexists _, _.
    - exists d, ((ip' ++ pt ++ fp) ++ t). split; [done|].
      inversion Hip as [|? ? Hd _]; subst.
      destruct (is_sign d) eqn:Hs; [|done].
      apply sign_not_digit in Hs. congruence. }
  destruct Hfirst as (c & r & Hcr & Hc).
  destruct Hsg as [-> | [-> | ->]].
  - exists n. simpl. split; [|done].
    unfold literal_prefix. rewrite Hcr, Hc, <- Hcr. done.
  - exists (S n). rewrite <- app_assoc. simpl. rewrite Hn. split; [done|].
    simpl in *. lia.
  - exists (S n). rewrite <- app_assoc. simpl. rewrite Hn. split; [done|].
    simpl in *. lia.
Qed.

(** [re.search] returns the first position where the matcher succeeds. *)
Lemma search_some (r : Re.regex) (s : pystr) (i n : nat) :
  Re.search r s = Some (i, n) ->
  (i <= length s)%nat
  /\ Re.match_here r (drop i s) = Some n
  /\ forall j, (j < i)%nat -> Re.match_here r (drop j s) = None.
Proof.
  revert i. induction s as [|c t IH]; intros i; simpl.
  - destruct (Re.match_here r []) eqn:Hm; [|discriminate].
    intros [= <- <-]. split; [done|]. split; [done|]. intros j Hj. lia.
  - destruct (Re.match_here r (c :: t)) eqn:Hm.
    + intros [= <- <-]. split; [lia|]. split; [done|]. intros j Hj. lia.
    + destruct (Re.search r t) as [[i' n']|] eqn:Hs; [|discriminate].
      simpl. intros [= <- <-]. destruct (IH i' eq_refl) as (Hle & Hm' & Hj).
      split; [lia|]. split; [done|].
      intros [|j] Hlt; [done|]. simpl. apply Hj. lia.
Qed.

Lemma search_none (r : Re.regex) (s : pystr) :
  Re.search r s = None -> forall j, Re.match_here r (drop j s) = None.
Proof.
  induction s as [|c t IH]; simpl.
  - destruct (Re.match_here r []) eqn:Hm; [discriminate|].
    intros _ j. by rewrite drop_nil.
  - destruct (Re.match_here r (c :: t)) eqn:Hm; [discriminate|].
    destruct (Re.search r t) as [[i' n']|] eqn:Hs; [discriminate|].
    intros _ [|j]; [done|]. simpl. by apply IH.
Qed.

(** [float] accepts every literal, with the value its digits denote. *)
Lemma literal_value_parts (sg ip pt fp : pystr) :
  sg = [] \/ sg = [45] \/ sg = [43] ->
  Forall (fun c => is_digit c = true) ip ->
  pt = [] \/ pt = [46] ->
  Forall (fun c => is_digit c = true) fp ->
  fp <> [] ->
  literal_value (sg ++ ip ++ pt ++ fp)
  = Some (Qred ((if bool_decide (sg = [45])
                 then (- Z.of_N (digits_value (ip ++ fp)))%Z
                 else Z.of_N (digits_value (ip ++ fp)))
                # Z.to_pos (10 ^ Z.of_nat (if bool_decide (pt = []) then O
                                           else length fp)))).
Proof.
  intros Hsg Hip Hpt Hfp Hne.
  assert (Hbody : forall neg : bool,
    (let ip' := take_run is_digit (ip ++ pt ++ fp) in
     let rest := lstrip is_digit (ip ++ pt ++ fp) in
     let mk (n : N) (k : nat) : Q :=
       Qred ((if neg then (- Z.of_N n)%Z else Z.of_N n)
             # Z.to_pos (10 ^ Z.of_nat k)) in
     match rest with
     | [] => if bool_decide (ip' = []) then None
             else Some (mk (digits_value ip') O)
     | c :: fp' =>
         if (c =? 46) && forallb is_digit fp'
            && negb (bool_decide (ip' ++ fp' = [])) then
           Some (mk (digits_value (ip' ++ fp')) (length fp'))
         else None
     end)
    = Some (Qred ((if neg then (- Z.of_N (digits_value (ip ++ fp)))%Z
                   else Z.of_N (digits_value (ip ++ fp)))
                  # Z.to_pos (10 ^ Z.of_nat (if bool_decide (pt = []) then O
                                             else length fp))))).
  { intros neg. cbv zeta. destruct Hpt as [-> | ->].
    - rewrite app_nil_l.
      assert (Hd : Forall (fun c => is_digit c = true) (ip ++ fp))
        by (by apply Forall_app).
      rewrite <- (app_nil_r (ip ++ fp)).
      rewrite (take_run_app_all _ _ [] Hd), (lstrip_app_all _ _ [] Hd).
      simpl. rewrite !app_nil_r. rewrite bool_decide_eq_false_2; [done|].
      intros Hx. apply app_eq_nil in Hx as [_ ?]. done.
    - rewrite (take_run_app_all _ _ _ Hip), (lstrip_app_all _ _ _ Hip).
      simpl. rewrite app_nil_r.
      assert (Hall : forallb is_digit fp = true).
      { apply forallb_forall. intros x Hx. rewrite Forall_forall in Hfp.
        apply Hfp. by apply list_elem_of_In. }
      rewrite Hall. simpl. rewrite bool_decide_eq_false_2; [done|].
      intros Hx. apply app_eq_nil in Hx as [_ ?]. done. }
  assert (Hfirst : exists c r, ip ++ pt ++ fp = c :: r
                               /\ (c =? 45) = false /\ (c =? 43) = false).
  { assert (Hd : forall d, is_digit d = true ->
                   (d =? 45) = false /\ (d =? 43) = false).
    { intros d Hdig. split; apply N.eqb_neq; intros ->; discriminate. }
    destruct ip as [|d ip'].
    - destruct Hpt as [-> | ->]; simpl.
      + destruct fp as [|f fs]; [done|]. exists f, fs. split; [done|].
        inversion Hfp; subst. auto.
      + by eexists _, _.
    - exists d, (ip' ++ pt ++ fp). split; [done|].
      inversion Hip; subst. auto. }
  destruct Hfirst as (c & r & Hcr & H45 & H43).
  unfold literal_value. destruct Hsg as [-> | [-> | ->]].
  - rewrite app_nil_l, Hcr, H45, H43, <- Hcr. apply (Hbody false).
  - simpl. apply (Hbody true).
  - simpl. apply (Hbody false).
Qed.

Lemma literal_value_total (m : pystr) :
  numeric_literal m -> exists q, literal_value m = Some q.
Proof.
  intros [sg ip pt fp Hsg Hip Hpt Hfp Hne]. eexists.
  by apply literal_value_parts.
Qed.

Lemma extract_numeric_text (s : pystr) :
  extract_numeric (CStr s)
  = match first_match (strip is_space (replace_char 37 [] s)) with
    | Some m => CFloat <$> py_float m
    | None => Some CNA
    end.
Proof.
  unfold extract_numeric, first_match.
  by destruct (Re.search numeric_pattern _).
Qed.

Lemma substring_drop (s : pystr) (j : nat) (m : pystr) :
  substring_at s j m -> exists post, drop j s = m ++ post.
Proof.
  intros (pre & post & -> & <-). exists post.
  by rewrite drop_app_length.
Qed.

Lemma first_match_some (v m : pystr) :
  first_match v = Some m -> exists i, first_literal v i m.
Proof.
  unfold first_match.
  destruct (Re.search numeric_pattern v) as [[i n]|] eqn:Hs; [|discriminate].
  simpl. intros [= <-]. exists i.
  apply search_some in Hs as (Hi & Hm & Hbefore).
  rewrite match_numeric in Hm.
  destruct (literal_prefix_sound _ _ Hm) as [Hn Hlit].
  unfold Re.group. simpl. split; [|split].
  - exists (take i v), (drop n (drop i v)). split.
    + by rewrite take_drop, take_drop.
    + rewrite length_take. lia.
  - done.
  - intros j m' Hsub Hlit'. apply substring_drop in Hsub as [post Hdrop].
    destruct (literal_prefix_longest m' post Hlit') as (n' & Hn' & Hle).
    rewrite <- Hdrop, <- match_numeric in Hn'.
    destruct (decide (j < i)%nat) as [Hlt|Hge].
    { rewrite (Hbefore j Hlt) in Hn'. discriminate. }
    destruct (decide (i = j)) as [<-|Hne]; [|left; lia].
    right. split; [done|]. rewrite match_numeric in Hn'.
    rewrite Hm in Hn'. injection Hn' as <-. rewrite length_take. lia.
Qed.

Lemma first_match_none (v : pystr) :
  first_match v = None ->
  forall j m', substring_at v j m' -> ~ numeric_literal m'.
Proof.
  unfold first_match.
  destruct (Re.search numeric_pattern v) as [[i n]|] eqn:Hs; [discriminate|].
  intros _ j m' Hsub Hlit. apply substring_drop in Hsub as [post Hdrop].
  destruct (literal_prefix_longest m' post Hlit) as (n' & Hn' & _).
  rewrite <- Hdrop, <- match_numeric in Hn'.
  by rewrite (search_none _ _ Hs j) in Hn'.
Qed.

(** *** Blanks and percent signs around the number *)

Lemma space_stops (c : char) :
  is_space c = true ->
  is_digit c = false /\ is_sign c = false /\ is_point c = false
  /\ (c =? 37) = false.
Proof.
  unfold is_space. intros H.
  rewrite !orb_true_iff, !andb_true_iff, !N.leb_le, !N.eqb_eq in H.
  assert (Hc : In c [9; 10; 11; 12; 13; 28; 29; 30; 31; 32; 133; 160; 5760;
                     8192; 8193; 8194; 8195; 8196; 8197; 8198; 8199; 8200;
                     8201; 8202; 8232; 8233; 8239; 8287; 12288]).
  { simpl. lia. }
  simpl in Hc.
  repeat (destruct Hc as [<-|Hc]; [by vm_compute|]). done.
Qed.

Lemma first_match_cons_none (a : char) (x : pystr) :
  literal_prefix (a :: x) = None -> first_match (a :: x) = first_match x.
Proof.
  intros Hn. unfold first_match. cbn [Re.search].
  rewrite match_numeric, Hn.
  destruct (Re.search numeric_pattern x) as [[i n]|]; reflexivity.
Qed.

Lemma literal_prefix_stop (c : char) (v : pystr) :
  is_digit c = false -> is_sign c = false -> is_point c = false ->
  literal_prefix (c :: v) = None.
Proof.
  intros Hd Hs Hp. unfold literal_prefix, unsigned_prefix. rewrite Hs.
  cbn [take_run lstrip]. by rewrite Hd, Hp.
Qed.

Lemma first_match_spaces_l (w v : pystr) :
  Forall (fun c => is_space c = true) w -> first_match (w ++ v) = first_match v.
Proof.
  induction 1 as [|c w Hc _ IH]; [reflexivity|].
  destruct (space_stops c Hc) as (Hd & Hs & Hp & _).
  simpl. rewrite first_match_cons_none; [done|].
  by apply literal_prefix_stop.
Qed.

Lemma take_run_app_stop (p : char -> bool) (v : pystr) c w :
  p c = false -> take_run p (v ++ c :: w) = take_run p v.
Proof.
  intros Hc. induction v as [|a v IH]; simpl; [by rewrite Hc|].
  destruct (p a); [by rewrite IH|reflexivity].
Qed.

Lemma lstrip_app_stop (p : char -> bool) (v : pystr) c w :
  p c = false -> lstrip p (v ++ c :: w) = lstrip p v ++ c :: w.
Proof.
  intros Hc. induction v as [|a v IH]; simpl; [by rewrite Hc|].
  destruct (p a); [by rewrite IH|reflexivity].
Qed.

Lemma unsigned_prefix_app_stop (v : pystr) c w :
  is_digit c = false -> is_point c = false ->
  unsigned_prefix (v ++ c :: w) = unsigned_prefix v.
Proof.
  intros Hd Hp. unfold unsigned_prefix.
  rewrite take_run_app_stop, lstrip_app_stop by done.
  destruct (lstrip is_digit v) as [|a t]; simpl; [by rewrite Hp|].
  destruct (is_point a); [|reflexivity].
  by rewrite take_run_app_stop.
Qed.

Lemma literal_prefix_app_stop (v : pystr) c w :
  is_digit c = false -> is_sign c = false -> is_point c = false ->
  literal_prefix (v ++ c :: w) = literal_prefix v.
Proof.
  intros Hd Hs Hp. destruct v as [|a v].
  - by apply literal_prefix_stop.
  - rewrite <- app_comm_cons. unfold literal_prefix. destruct (is_sign a).
    + by rewrite unsigned_prefix_app_stop.
    + by apply (unsigned_prefix_app_stop (a :: v)).
Qed.

Lemma first_match_spaces_r (v w : pystr) :
  Forall (fun c => is_space c = true) w -> first_match (v ++ w) = first_match v.
Proof.
  intros Hw. destruct w as [|c w]; [by rewrite app_nil_r|].
  assert (Hc : is_space c = true) by (by inversion Hw).
  destruct (space_stops c Hc) as (Hd & Hs & Hp & _).
  induction v as [|a v IH].
  - change ([] ++ c :: w) with (c :: w). rewrite <- (app_nil_r (c :: w)).
    by rewrite first_match_spaces_l.
  - destruct (literal_prefix (a :: v)) as [n|] eqn:Hm.
    + unfold first_match. rewrite <- app_comm_cons. cbn [Re.search].
      rewrite !match_numeric, app_comm_cons, literal_prefix_app_stop by done.
      rewrite Hm. simpl. f_equal. unfold Re.group. simpl.
      apply literal_prefix_sound in Hm as [Hle _].
      by rewrite app_comm_cons, take_app_le.
    + rewrite <- app_comm_cons.
      rewrite first_match_cons_none, first_match_cons_none, IH; [done..|].
      by rewrite app_comm_cons, literal_prefix_app_stop.
Qed.

Lemma strip_frame (p : char -> bool) (v : pystr) :
  exists w1 w2,
    Forall (fun c => p c = true) w1 /\ Forall (fun c => p c = true) w2
    /\ v = w1 ++ strip p v ++ w2.
Proof.
  exists (take_run p v), (rev (take_run p (rev (lstrip p v)))).
  split; [apply Forall_take_run|]. split.
  - apply Forall_rev, Forall_take_run.
  - unfold strip, rstrip. rewrite <- rev_app_distr, take_run_lstrip.
    by rewrite rev_involutive, take_run_lstrip.
Qed.

Lemma first_match_strip (v : pystr) :
  first_match (strip is_space v) = first_match v.
Proof.
  destruct (strip_frame is_space v) as (w1 & w2 & H1 & H2 & Hv).
  rewrite Hv at 2.
  by rewrite first_match_spaces_l, first_match_spaces_r.
Qed.

Lemma replace_percent_spaces (w : pystr) :
  Forall (fun c => is_space c = true) w -> replace_char 37 [] w = w.
Proof.
  induction 1 as [|c w Hc _ IH]; [reflexivity|].
  destruct (space_stops c Hc) as (_ & _ & _ & H37).
  unfold replace_char in *. simpl. by rewrite H37, IH.
Qed.

(** Stripping the blanks before or after removing the percent signs leaves
    the same first match. *)
Lemma first_match_order (s : pystr) :
  first_match (strip is_space (replace_char 37 [] s))
  = first_match (replace_char 37 [] (strip is_space s)).
Proof.
  rewrite first_match_strip.
  destruct (strip_frame is_space s) as (w1 & w2 & H1 & H2 & Hs).
  rewrite Hs at 1. unfold replace_char. rewrite !flat_map_app.
  fold (replace_char 37 [] w1). fold (replace_char 37 [] w2).
  fold (replace_char 37 [] (strip is_space s)).
  rewrite (replace_percent_spaces w1 H1), (replace_percent_spaces w2 H2).
  by rewrite first_match_spaces_l, first_match_spaces_r.
Qed.

(** Deleting a character is a filter. *)
Lemma replace_char_filter (old : char) (s : pystr) :
  replace_char old [] s = List.filter (fun c => negb (c =? old)) s.
Proof.
  unfold replace_char. induction s as [|c s IH]; [reflexivity|].
  simpl. rewrite IH. by destruct (c =? old).
Qed.

Lemma extract_numeric_str (s w1 v w2 : pystr) :
  List.filter (fun c => negb (c =? 37)) s = w1 ++ v ++ w2 ->
  Forall (fun c => is_space c = true) w1 ->
  Forall (fun c => is_space c = true) w2 ->
  (exists i m q, first_literal v i m /\ literal_value m = Some q
                 /\ extract_numeric (CStr s) = Some (CFloat (fl q)))
  \/ ((forall j m', substring_at v j m' -> ~ numeric_literal m')
      /\ extract_numeric (CStr s) = Some CNA).
Proof.
  intros Hv H1 H2. rewrite extract_numeric_text.
  assert (Hfm : first_match (strip is_space (replace_char 37 [] s))
                = first_match v).
  { rewrite first_match_strip, replace_char_filter, Hv.
    by rewrite first_match_spaces_l, first_match_spaces_r. }
  rewrite Hfm. destruct (first_match v) as [m|] eqn:Hm.
  - left. destruct (first_match_some _ _ Hm) as [i Hfirst].
    destruct (literal_value_total m) as [q Hq]; [apply Hfirst|].
    exists i, m, q. unfold py_float. by rewrite Hq.
  - right. split; [by apply first_match_none|done].
Qed.

Lemma strip_percent_frame (s : pystr) :
  exists w1 w2,
    List.filter (fun c => negb (c =? 37)) s
    = w1 ++ strip is_space (replace_char 37 [] s) ++ w2
    /\ Forall (fun c => is_space c = true) w1
    /\ Forall (fun c => is_space c = true) w2.
Proof.
  destruct (strip_frame is_space (replace_char 37 [] s))
    as (w1 & w2 & H1 & H2 & Hs).
  exists w1, w2. by rewrite <- replace_char_filter.
Qed.

(** [float(z)] on every integer. *)
Lemma float_of_int_cases (z : Z) :
  (float_of_int z = None /\ (2 ^ 1023 <= Z.abs z)%Z)
  \/ (exists q,
        float_of_int z = Some (Fnum q)
        /\ (q - inject_Z z <= inject_Z (Z.abs z) * (1 # 9007199254740992)
            /\ inject_Z z - q <= inject_Z (Z.abs z) * (1 # 9007199254740992))%Q
        /\ (Z.abs z < 2 ^ 1024)%Z).
Proof.
  unfold float_of_int.
  destruct (Z.lt_trichotomy z 0) as [Hneg | [-> | Hp]].
  - rewrite fl_negative by (unfold Qlt; simpl; lia).
    change (- inject_Z z)%Q with (inject_Z (- z)).
    replace (Z.abs z) with (- z)%Z by lia.
    destruct (fl_pos_int_cases (- z) ltac:(lia))
      as [[-> Hbig] | (q & -> & [H1 H2] & Hlt)]; [by left|].
    right. exists (- q)%Q. split; [reflexivity|]. split; [|done].
    revert H1 H2. rewrite inject_Z_opp. generalize (inject_Z z). intros x.
    lra.
  - right. exists 0%Q. split; [reflexivity|]. split; [|reflexivity].
    split; unfold Qle; simpl; lia.
  - rewrite fl_positive by (unfold Qlt; simpl; lia).
    replace (Z.abs z) with z by lia.
    destruct (fl_pos_int_cases z Hp)
      as [[-> Hbig] | (q & -> & Herr & Hlt)]; [by left|].
    right. by exists q.
Qed.


(** An exception escapes [extract_numeric] on an int too large for a float
    only; otherwise it returns a float or [pd.NA]. *)
Lemma extract_numeric_total (value : cell) :
  (exists z, value = CInt z /\ extract_numeric value = None)
  \/ (exists c, extract_numeric value = Some c
                /\ (c = CNA \/ exists f, c = CFloat f)).
Proof.
  destruct value as [s|z|b|f| | |];
    try (right; eexists; split; [reflexivity|]; eauto).
  - right. destruct (strip_percent_frame s) as (w1 & w2 & Hs & H1 & H2).
    destruct (extract_numeric_str s _ _ _ Hs H1 H2)
      as [(i & m & q & _ & _ & ->)|[_ ->]]; eexists; split; eauto.
  - cbn [extract_numeric]. destruct (float_of_int z) as [f|] eqn:Hf.
    + right. eexists. split; [reflexivity|]. eauto.
    + left. by exists z.
Qed.




(** ** Header Normalizer: the shape of a label *)

(** A substitution only keeps characters of the text or inserts the
    replacement. *)
Lemma sub_from_elem (r : Re.regex) (repl : pystr) (k : nat) (x : pystr) c :
  c ∈ Re.sub_from r repl k x -> c ∈ x \/ c ∈ repl.
Proof.
  revert k. induction x as [|a t IH]; intros k; simpl.
  - destruct k, (Re.match_here r []); intros H.
    all: first [by right | by apply not_elem_of_nil in H].
  - assert (Htail : forall n, c ∈ Re.sub_from r repl n t ->
                      c ∈ a :: t \/ c ∈ repl).
    { intros n H. apply IH in H as [H|H]; [left; by right|by right]. }
    destruct k as [|k]; [|apply Htail].
    destruct (Re.match_here r (a :: t)) as [[|n]|]; intros H.
    + apply elem_of_app in H as [H|H]; [by right|].
      apply elem_of_cons in H as [->|H]; [left; left|by eapply Htail].
    + apply elem_of_app in H as [H|H]; [by right|by eapply Htail].
    + apply elem_of_cons in H as [->|H]; [left; left|by eapply Htail].
Qed.

(** Deleting the matches of a one-character class is a filter. *)
Lemma sub_one_delete (p : char -> bool) (x : pystr) :
  Re.sub [Re.Atom p Re.One] [] x = List.filter (fun c => negb (p c)) x.
Proof.
  unfold Re.sub. induction x as [|a t IH]; [reflexivity|].
  cbn [Re.sub_from Re.match_here Re.qt Re.cls List.filter].
  destruct (p a); simpl; by rewrite IH.
Qed.

Lemma sub_from_skip (r : Re.regex) (repl pre rest : pystr) :
  Re.sub_from r repl (length pre) (pre ++ rest) = Re.sub_from r repl O rest.
Proof. induction pre as [|a pre IH]; [reflexivity|apply IH]. Qed.

(** [_+] replaced by [_]: how the substitution proceeds. *)
Lemma sub_underscores_cons (c : char) (t : pystr) :
  Re.sub underscores [underscore] (c :: t)
  = if c =? underscore
    then underscore :: Re.sub underscores [underscore]
                         (lstrip is_underscore t)
    else c :: Re.sub underscores [underscore] t.
Proof.
  unfold Re.sub, underscores. cbn [Re.sub_from]. rewrite match_plus.
  cbn [take_run]. unfold is_underscore at 1.
  destruct (c =? underscore); [|reflexivity].
  cbn [length app]. f_equal.
  set (us := fun c => c =? underscore).
  set (r := [Re.Atom is_underscore Re.Plus]).
  transitivity (Re.sub_from r [underscore] (length (take_run is_underscore t))
                  (take_run is_underscore t ++ lstrip is_underscore t)).
  - by rewrite take_run_lstrip.
  - apply sub_from_skip.
Qed.

Lemma no_underscore_run_app_inv (x y : pystr) :
  no_underscore_run (x ++ y) = true ->
  no_underscore_run x = true /\ no_underscore_run y = true.
Proof.
  induction x as [|a x IH]; simpl; [done|].
  rewrite !andb_true_iff. intros [Ha Hxy]. destruct (IH Hxy) as [Hx Hy].
  split; [split|]; try done.
  destruct (a =? underscore); [|done]. simpl in *.
  destruct x as [|b x]; [done|]. done.
Qed.

Lemma no_underscore_run_app (x y : pystr) :
  no_underscore_run x = true -> no_underscore_run y = true ->
  ends_with_underscore x = false ->
  no_underscore_run (x ++ y) = true.
Proof.
  unfold ends_with_underscore.
  induction x as [|a x IH]; simpl; [done|].
  rewrite !andb_true_iff. intros [Ha Hx] Hy Hend.
  destruct x as [|b x].
  - simpl in *. rewrite Hend. simpl. done.
  - split; [done|]. apply IH; [done..|].
    change (rev (a :: b :: x)) with (rev (b :: x) ++ [a]) in Hend.
    destruct (rev (b :: x)) as [|h z] eqn:Hr; [|exact Hend].
    apply (f_equal length) in Hr. rewrite length_rev in Hr. done.
Qed.

Lemma no_underscore_run_spec (l : pystr) :
  no_underscore_run l = true ->
  forall pre post, l <> pre ++ underscore :: underscore :: post.
Proof.
  intros Hl pre post ->. apply no_underscore_run_app_inv in Hl as [_ Hl].
  simpl in Hl. discriminate.
Qed.

Lemma collapse_nil : Re.sub underscores [underscore] [] = [].
Proof. reflexivity. Qed.

(** After [_+] is replaced by [_] no run of underscores is left. *)
Lemma collapse_no_run (x : pystr) :
  no_underscore_run (Re.sub underscores [underscore] x) = true
  /\ (starts_with_underscore (Re.sub underscores [underscore] x) = true ->
      starts_with_underscore x = true).
Proof.
  remember (length x) as n eqn:Hn. revert x Hn.
  induction n as [n IH] using lt_wf_ind. intros x Hn.
  destruct x as [|c t]; [by rewrite collapse_nil|].
  rewrite sub_underscores_cons. destruct (c =? underscore) eqn:Hc.
  - assert (Hlen : (length (lstrip is_underscore t) < n)%nat).
    { rewrite <- (take_run_lstrip is_underscore t) in Hn.
      simpl in Hn. rewrite length_app in Hn. lia. }
    destruct (IH _ Hlen _ eq_refl) as [Hrun Hhead].
    split; [|by simpl; rewrite Hc].
    cbn [no_underscore_run]. rewrite Hrun, andb_true_r.
    destruct (starts_with_underscore
                (Re.sub underscores [underscore]
                   (lstrip is_underscore t))) eqn:Hs; [|done].
    specialize (Hhead eq_refl).
    destruct (lstrip is_underscore t) as [|b t'] eqn:Hl;
      [done|]. simpl in Hhead. apply lstrip_head in Hl.
    unfold is_underscore in Hl. congruence.
  - assert (Hlen : (length t < n)%nat) by (simpl in Hn; lia).
    destruct (IH _ Hlen _ eq_refl) as [Hrun _].
    split; [|by simpl; rewrite Hc].
    cbn [no_underscore_run]. by rewrite Hc, Hrun.
Qed.

Lemma strip_edges (p : char -> bool) (x : pystr) :
  match strip p x with c :: _ => p c = false | [] => True end
  /\ match rev (strip p x) with c :: _ => p c = false | [] => True end.
Proof.
  unfold strip, rstrip. rewrite rev_involutive. split.
  - set (y := lstrip p x).
    destruct (rev (lstrip p (rev y))) as [|c r] eqn:Hr; [done|].
    pose proof (take_run_lstrip p (rev y)) as Hy.
    apply (f_equal (@rev _)) in Hy. rewrite rev_app_distr, rev_involutive in Hy.
    rewrite Hr in Hy. unfold y in Hy.
    destruct (lstrip p x) as [|a t] eqn:Ha; [discriminate|].
    simpl in Hy. injection Hy as <- _. by apply lstrip_head in Ha.
  - destruct (lstrip p (rev (lstrip p x))) as [|c r] eqn:Hr; [done|].
    by apply lstrip_head in Hr.
Qed.

Lemma label_char_ascii (c : char) : label_char c = true -> (c <? 128) = true.
Proof.
  unfold label_char, is_ascii_alnum, underscore, hyphen. intros H.
  rewrite !orb_true_iff, !andb_true_iff, !N.leb_le, !N.eqb_eq in H.
  apply N.ltb_lt. lia.
Qed.

Lemma filter_all {A} (f : A -> bool) (l : list A) :
  Forall (fun x => f x = true) l -> List.filter f l = l.
Proof.
  induction 1 as [|x l Hx _ IH]; [reflexivity|]. simpl. by rewrite Hx, IH.
Qed.

Lemma clean_label_shaped (l : label) :
  Forall (fun c => is_space c = true -> c = space) l ->
  shaped (clean_label l).
Proof.
  intros Hl. unfold clean_label. cbv zeta.
  set (s1 := Re.sub fullwidth_parens [lparen; rparen] l).
  set (s2 := Re.sub parenthesised [] s1).
  set (s3 := Re.sub not_kept [] s2).
  set (s4 := replace_char space [underscore] s3).
  set (s5 := Re.sub underscores [underscore] s4).
  set (s6 := strip is_underscore s5).
  assert (H3 : forall c, c ∈ s3 -> label_char c = true \/ c = space).
  { intros c Hc. unfold s3, not_kept in Hc. rewrite sub_one_delete in Hc.
    apply list_elem_of_In, filter_In in Hc as [Hc Hk].
    apply list_elem_of_In in Hc. rewrite negb_involutive in Hk.
    destruct (is_space c) eqn:Hsp.
    - right. apply sub_from_elem in Hc as [Hc|Hc];
        [|by apply not_elem_of_nil in Hc].
      apply sub_from_elem in Hc as [Hc|Hc].
      + rewrite Forall_forall in Hl. by apply Hl.
      + apply elem_of_cons in Hc as [->|Hc]; [discriminate|].
        apply list_elem_of_singleton in Hc as ->. discriminate.
    - left. unfold kept in Hk. unfold label_char. rewrite Hsp in Hk.
      by rewrite orb_false_r in Hk. }
  assert (H4 : forall c, c ∈ s4 -> label_char c = true).
  { intros c Hc. unfold s4, replace_char in Hc.
    apply list_elem_of_In, in_flat_map in Hc as (a & Ha & Hc).
    apply list_elem_of_In in Ha. destruct (a =? space) eqn:Hsp.
    - destruct Hc as [<- | Hc]; [reflexivity|destruct Hc].
    - destruct Hc as [<- | Hc]; [|destruct Hc].
      destruct (H3 _ Ha) as [? | ->]; [done|]. discriminate. }
  assert (H5 : Forall (fun c => label_char c = true) s5).
  { apply Forall_forall. intros c Hc. unfold s5 in Hc.
    apply sub_from_elem in Hc as [Hc|Hc]; [by apply H4|].
    by apply list_elem_of_singleton in Hc as ->. }
  destruct (strip_frame is_underscore s5) as (w1 & w2 & _ & _ & Hs5).
  fold s6 in Hs5.
  assert (H6 : Forall (fun c => label_char c = true) s6).
  { rewrite Hs5 in H5. apply Forall_app in H5 as [_ H5].
    by apply Forall_app in H5 as [H5 _]. }
  assert (Hid : ascii_only s6 = s6).
  { apply filter_all. eapply Forall_impl; [exact H6|].
    intros c Hc. by apply label_char_ascii. }
  rewrite Hid. split; [done|].
  destruct (strip_edges is_underscore s5) as [Hhead Hlast]. fold s6 in Hhead, Hlast.
  split; [|split].
  - destruct s6; [done|]. exact Hhead.
  - unfold ends_with_underscore. destruct (rev s6); [done|]. exact Hlast.
  - destruct (collapse_no_run s4) as [Hrun _]. fold s5 in Hrun.
    rewrite Hs5 in Hrun. apply no_underscore_run_app_inv in Hrun as [_ Hrun].
    by apply no_underscore_run_app_inv in Hrun as [Hrun _].
Qed.

Lemma uint_digits_digits (d : Decimal.uint) :
  Forall (fun c => is_ascii_alnum c = true /\ (c =? underscore) = false)
    (uint_digits d).
Proof. induction d; simpl; constructor; auto. Qed.

Lemma revapp_nonnil (d d' : Decimal.uint) :
  d' <> Decimal.Nil -> Decimal.revapp d d' <> Decimal.Nil.
Proof.
  revert d'. induction d; intros d' Hd'; simpl; try done; by apply IHd.
Qed.

Lemma to_little_uint_nonnil (n : nat) (acc : Decimal.uint) :
  acc <> Decimal.Nil -> Nat.to_little_uint n acc <> Decimal.Nil.
Proof.
  revert acc. induction n as [|n IH]; intros acc Hacc; simpl; [done|].
  apply IH. by destruct acc.
Qed.

Lemma str_of_nat_nonempty (n : nat) : str_of_nat n <> [].
Proof.
  unfold str_of_nat, Nat.to_uint, Decimal.rev.
  pose proof (to_little_uint_nonnil n Decimal.zero) as Hn.
  destruct (Nat.to_little_uint n Decimal.zero) as [|d|d|d|d|d|d|d|d|d|d] eqn:Hd;
    [by exfalso; apply Hn|..]; simpl;
    match goal with
    | |- uint_digits (Decimal.revapp ?d ?acc) <> [] =>
        pose proof (revapp_nonnil d acc) as Hr;
        destruct (Decimal.revapp d acc); [by exfalso; apply Hr|..]; done
    end.
Qed.

Lemma unnamed_column_well_shaped : well_shaped unnamed_column.
Proof.
  split; [done|]. split; [|by vm_compute].
  apply Forall_forall. intros c Hc. apply list_elem_of_In in Hc.
  vm_compute in Hc. repeat (destruct Hc as [<-|Hc]; [reflexivity|]). done.
Qed.

Lemma starts_with_underscore_app (x y : pystr) :
  x <> [] -> starts_with_underscore (x ++ y) = starts_with_underscore x.
Proof. by destruct x. Qed.

Lemma numbered_well_shaped (l : label) (n : nat) :
  well_shaped l -> well_shaped (l ++ underscore :: str_of_nat n).
Proof.
  intros (Hne & Hchars & Hstart & Hend & Hrun).
  pose proof (uint_digits_digits (Nat.to_uint n)) as Hd.
  pose proof (str_of_nat_nonempty n) as Hdn.
  fold (str_of_nat n) in Hd. set (ds := str_of_nat n) in *.
  split; [by destruct l|]. split; [|split; [|split]].
  - apply Forall_app. split; [done|]. constructor; [reflexivity|].
    eapply Forall_impl; [exact Hd|]. intros c [Hc _].
    unfold label_char. by rewrite Hc.
  - by rewrite starts_with_underscore_app.
  - unfold ends_with_underscore. rewrite rev_app_distr. simpl.
    rewrite <- !app_assoc.
    assert (Hrev : Forall (fun c => is_ascii_alnum c = true
                                   /\ (c =? underscore) = false) (rev ds))
      by (by apply Forall_rev).
    destruct (rev ds) as [|c r] eqn:Hr.
    + apply (f_equal (@rev _)) in Hr. rewrite rev_involutive in Hr. done.
    + simpl. by inversion Hrev as [|? ? [_ ?] _].
  - apply no_underscore_run_app; [done| |done].
    simpl. destruct ds as [|c r]; [done|].
    inversion Hd as [|? ? [_ Hc] Hr]; subst. simpl. rewrite Hc. simpl.
    clear -Hr. induction Hr as [|a r [_ Ha] _ IH]; [done|].
    simpl. by rewrite Ha.
Qed.

Lemma dedupe_step_well_shaped st col :
  shaped col -> Forall well_shaped st.2 ->
  Forall well_shaped (dedupe_step st col).2.
Proof.
  intros Hcol Hst. unfold dedupe_step.
  assert (Hname : well_shaped (if bool_decide (col = []) then unnamed_column
                               else col)).
  { case_bool_decide; [apply unnamed_column_well_shaped|by split]. }
  destruct (st.1 !! _); simpl; apply Forall_app; (split; [done|]);
    (constructor; [|constructor]); [by apply numbered_well_shaped|done].
Qed.

Lemma fold_dedupe_well_shaped (cols : list label) st :
  Forall shaped cols -> Forall well_shaped st.2 ->
  Forall well_shaped (fold_left dedupe_step cols st).2.
Proof.
  revert st. induction cols as [|c cols IH]; intros st Hcols Hst; [done|].
  inversion Hcols; subst. simpl. apply IH; [done|].
  by apply dedupe_step_well_shaped.
Qed.

Lemma last_head_rev {A} (l : list A) : last l = head (rev l).
Proof.
  induction l as [|x l _] using rev_ind; [reflexivity|].
  by rewrite last_snoc, rev_app_distr.
Qed.

(** Whatever the raw labels, no produced label is empty. *)
Lemma clean_header_labels_nonempty (raw : list label) :
  Forall (fun l => l <> []) (clean_header_labels raw).
Proof.
  unfold clean_header_labels.
  assert (H : forall cols st, Forall (fun l : label => l <> []) st.2 ->
            Forall (fun l : label => l <> []) (fold_left dedupe_step cols st).2).
  { induction cols as [|c cols IH]; intros st Hst; [done|]. simpl. apply IH.
    unfold dedupe_step.
    assert (Hname : (if bool_decide (c = []) then unnamed_column else c) <> [])
      by (by case_bool_decide).
    destruct (st.1 !! _); simpl; apply Forall_app; (split; [done|]);
      (constructor; [|constructor]); [|done].
    by destruct (if bool_decide (c = []) then unnamed_column else c). }
  apply H. constructor.
Qed.

(** C5, as the code has it. When the only blanks in the raw labels are
    plain spaces, every label produced by header normalization is made of
    ASCII letters, digits, underscores and hyphens; it is not empty, neither
    starts nor ends with an underscore, and holds no two consecutive
    underscores. *)
Theorem clean_headers_label_shape (raw : list label) :
  Forall (Forall (fun c => is_space c = true -> c = space)) raw ->
  Forall (fun l =>
            l <> []
            /\ Forall (fun c => is_ascii_alnum c = true \/ c = underscore
                                \/ c = hyphen) l
            /\ head l <> Some underscore
            /\ last l <> Some underscore
            /\ forall pre post, l <> pre ++ underscore :: underscore :: post)
    (clean_header_labels raw).
Proof.
  intros Hraw.
  assert (Hws : Forall well_shaped (clean_header_labels raw)).
  { unfold clean_header_labels. apply fold_dedupe_well_shaped; [|constructor].
    apply Forall_fmap. eapply Forall_impl; [exact Hraw|].
    intros l Hl. by apply clean_label_shaped. }
  eapply Forall_impl; [exact Hws|].
  intros l (Hne & Hchars & Hstart & Hend & Hrun).
  split; [done|]. split; [|split; [|split]].
  - eapply Forall_impl; [exact Hchars|]. intros c Hc.
    unfold label_char in Hc.
    rewrite !orb_true_iff, !N.eqb_eq in Hc. tauto.
  - destruct l as [|c t]; [done|]. simpl in *. intros [= ->]. discriminate.
  - unfold ends_with_underscore in Hend. rewrite last_head_rev.
    destruct (rev l) as [|c t]; [done|]. simpl in *. intros [= ->].
    discriminate.
  - by apply no_underscore_run_spec.
Qed.

Lemma clean_headers_label_shape_witness :
  Forall (fun l =>
            l <> []
            /\ Forall (fun c => is_ascii_alnum c = true \/ c = underscore
                                \/ c = hyphen) l
            /\ head l <> Some underscore
            /\ last l <> Some underscore
            /\ forall pre post, l <> pre ++ underscore :: underscore :: post)
    (clean_header_labels [str "Unit price (EUR)"; str "__net--total  "; str "(x)"]).
Proof.
  apply clean_headers_label_shape.
  repeat constructor; intros H; vm_compute in H; discriminate.
Defined.

(** A hyphen stays in the label. *)
Lemma hyphen_is_kept :
  clean_header_labels [str "net-total"] = [str "net-total"]
  /\ ~ Forall (Forall (fun c => is_ascii_alnum c = true \/ c = underscore))
         (clean_header_labels [str "net-total"]).
Proof.
  assert (H : clean_header_labels [str "net-total"] = [str "net-total"])
    by (vm_compute; reflexivity).
  split; [exact H|]. rewrite H. intros Hall.
  apply Forall_cons in Hall as [Hall _].
  rewrite Forall_forall in Hall. destruct (Hall hyphen) as [Hh|Hh].
  - apply list_elem_of_In. vm_compute. tauto.
  - discriminate.
  - discriminate.
Qed.

(** ** Header Normalizer: the suffix collision *)

(** C3 at ["a b"; "a_b"; "a_b_1"]: the second label becomes [a_b_1], which
    the third label already is. *)
Theorem clean_headers_duplicate_labels :
  clean_header_labels [str "a b"; str "a_b"; str "a_b_1"]
  = [str "a_b"; str "a_b_1"; str "a_b_1"]
  /\ ~ NoDup (clean_header_labels [str "a b"; str "a_b"; str "a_b_1"]).
Proof.
  assert (H : clean_header_labels [str "a b"; str "a_b"; str "a_b_1"]
              = [str "a_b"; str "a_b_1"; str "a_b_1"])
    by (vm_compute; reflexivity).
  split; [exact H|]. rewrite H. intros Hnd.
  apply NoDup_cons in Hnd as [_ Hnd]. apply NoDup_cons in Hnd as [Hin _].
  apply Hin. left.
Qed.

(** C4 at the same labels: normalising the output again renames its third
    label. *)
Theorem clean_headers_not_idempotent :
  clean_header_labels (clean_header_labels [str "a b"; str "a_b"; str "a_b_1"])
  = [str "a_b"; str "a_b_1"; str "a_b_1_1"]
  /\ clean_header_labels (clean_header_labels [str "a b"; str "a_b"; str "a_b_1"])
     <> clean_header_labels [str "a b"; str "a_b"; str "a_b_1"].
Proof.
  split; [vm_compute; reflexivity|]. vm_compute. discriminate.
Qed.

(** ** Header Normalizer: a second pass *)

Lemma match_here_first_fails (a : Re.atom) (r : Re.regex) (s : pystr) :
  Re.qt a = Re.One \/ Re.qt a = Re.Plus ->
  match s with c :: _ => Re.cls a c = false | [] => True end ->
  Re.match_here (a :: r) s = None.
Proof.
  intros Hq Hs. cbn [Re.match_here].
  destruct Hq as [-> | ->]; destruct s as [|c t]; try reflexivity;
    by rewrite Hs.
Qed.

(** A pattern that must start with a character absent from the text
    replaces nothing. *)
Lemma sub_absent_class (a : Re.atom) (r : Re.regex) (repl x : pystr) :
  Re.qt a = Re.One \/ Re.qt a = Re.Plus ->
  Forall (fun c => Re.cls a c = false) x ->
  Re.sub (a :: r) repl x = x.
Proof.
  intros Hq Hx. unfold Re.sub.
  induction Hx as [|c t Hc _ IH]; cbn [Re.sub_from].
  - by rewrite match_here_first_fails.
  - rewrite match_here_first_fails by done. by rewrite IH.
Qed.

Lemma lstrip_id (p : char -> bool) (x : pystr) :
  match x with c :: _ => p c = false | [] => True end -> lstrip p x = x.
Proof. destruct x as [|c t]; [done|]. simpl. by intros ->. Qed.

Lemma collapse_id (x : pystr) :
  no_underscore_run x = true -> Re.sub underscores [underscore] x = x.
Proof.
  induction x as [|c t IH]; [by rewrite collapse_nil|].
  cbn [no_underscore_run]. rewrite andb_true_iff. intros [Hc Ht].
  rewrite sub_underscores_cons. destruct (c =? underscore) eqn:Hcu.
  - apply N.eqb_eq in Hcu. subst c. simpl in Hc. rewrite lstrip_id, IH; [done..|].
    destruct t as [|b t']; [done|]. simpl in Hc. unfold is_underscore.
    by destruct (b =? underscore).
  - by rewrite IH.
Qed.

Lemma label_char_cases (c : char) :
  label_char c = true ->
  kept c = true /\ (c =? space) = false /\ (c =? lparen) = false
  /\ ((c =? 65288) || (c =? 65289)) = false.
Proof.
  intros Hc. pose proof (label_char_ascii c Hc) as Hlt.
  apply N.ltb_lt in Hlt. unfold kept, label_char in *.
  rewrite !orb_true_iff in Hc. split.
  - rewrite !orb_true_iff. tauto.
  - unfold is_ascii_alnum, underscore, hyphen, space, lparen in *.
    rewrite !orb_true_iff, !andb_true_iff, !N.leb_le, !N.eqb_eq in Hc.
    rewrite orb_false_iff, !N.eqb_neq. lia.
Qed.

(** The transforms leave a label of the right shape as it is. *)
Lemma clean_label_id (l : label) : shaped l -> clean_label l = l.
Proof.
  intros (Hchars & Hstart & Hend & Hrun). unfold clean_label. cbv zeta.
  assert (H1 : Re.sub fullwidth_parens [lparen; rparen] l = l).
  { apply sub_absent_class; [by left|]. eapply Forall_impl; [exact Hchars|].
    intros c Hc. by apply label_char_cases. }
  assert (H2 : Re.sub parenthesised [] l = l).
  { apply sub_absent_class; [by left|]. eapply Forall_impl; [exact Hchars|].
    intros c Hc. by apply label_char_cases. }
  assert (H3 : Re.sub not_kept [] l = l).
  { apply sub_absent_class; [by left|]. eapply Forall_impl; [exact Hchars|].
    intros c Hc. simpl. apply label_char_cases in Hc as [-> _]. done. }
  assert (H4 : replace_char space [underscore] l = l).
  { unfold replace_char. clear -Hchars.
    induction Hchars as [|c t Hc _ IH]; [done|]. simpl.
    apply label_char_cases in Hc as (_ & -> & _). by rewrite IH. }
  assert (H6 : strip is_underscore l = l).
  { unfold strip, rstrip. rewrite (lstrip_id _ l).
    - rewrite lstrip_id, rev_involutive; [done|].
      unfold ends_with_underscore in Hend. by destruct (rev l).
    - by destruct l. }
  rewrite H1, H2, H3, H4, (collapse_id l Hrun), H6.
  apply filter_all. eapply Forall_impl; [exact Hchars|].
  intros c Hc. by apply label_char_ascii.
Qed.

(** Distinct, non-empty labels are all first occurrences: none is renamed. *)
Lemma fold_dedupe_distinct (cols : list label) (counts : gmap label nat)
    (acc : list label) :
  NoDup cols -> Forall (fun c => c <> []) cols ->
  (forall c, c ∈ cols -> counts !! c = None) ->
  (fold_left dedupe_step cols (counts, acc)).2 = acc ++ cols.
Proof.
  revert counts acc. induction cols as [|c cols IH];
    intros counts acc Hnd Hne Hfresh; simpl; [by rewrite app_nil_r|].
  apply NoDup_cons in Hnd as [Hc Hnd]. apply Forall_cons in Hne as [Hcne Hne].
  unfold dedupe_step at 2. simpl.
  rewrite bool_decide_eq_false_2 by done.
  rewrite (Hfresh c) by left. rewrite IH; [by rewrite <- app_assoc|done..|].
  intros c' Hc'. rewrite lookup_insert_ne; [apply Hfresh; by right|].
  intros ->. done.
Qed.

(** Header normalization repeats itself on its output whenever that output
    has no duplicate (and the raw labels have no blank but the space). *)
Lemma clean_headers_idempotent_when_distinct (raw : list label) :
  Forall (Forall (fun c => is_space c = true -> c = space)) raw ->
  NoDup (clean_header_labels raw) ->
  clean_header_labels (clean_header_labels raw) = clean_header_labels raw.
Proof.
  intros Hraw Hnd.
  assert (Hws : Forall well_shaped (clean_header_labels raw)).
  { unfold clean_header_labels. apply fold_dedupe_well_shaped; [|constructor].
    apply Forall_fmap. eapply Forall_impl; [exact Hraw|].
    intros l Hl. by apply clean_label_shaped. }
  set (out := clean_header_labels raw) in *.
  assert (Hid : clean_label <$> out = out).
  { rewrite <- (list_fmap_id out) at 2. apply Forall_fmap_ext.
    eapply Forall_impl; [exact Hws|]. intros l [_ Hl]. by apply clean_label_id. }
  unfold clean_header_labels at 1. rewrite Hid.
  rewrite fold_dedupe_distinct; [done|done| |done].
  eapply Forall_impl; [exact Hws|]. by intros l [Hl _].
Qed.

(** ** Access by label in a frame with distinct labels *)

Lemma getitem_cons (n : nat) (c : label * series) cs (col : label) :
  getitem (mkDataFrame n (c :: cs)) col
  = if bool_decide (c.1 = col) then c.2 :: getitem (mkDataFrame n cs) col
    else getitem (mkDataFrame n cs) col.
Proof.
  unfold getitem. simpl. destruct (bool_decide (c.1 = col)); reflexivity.
Qed.

Lemma getitem_absent (n : nat) cs (col : label) :
  col ∉ (fst <$> cs) -> getitem (mkDataFrame n cs) col = [].
Proof.
  induction cs as [|c cs IH]; intros Hn; [reflexivity|].
  rewrite getitem_cons. rewrite fmap_cons, not_elem_of_cons in Hn.
  destruct Hn as [Hne Hn]. rewrite bool_decide_eq_false_2 by congruence.
  auto.
Qed.

Lemma getitem_unique (df : DataFrame) (col : label) (s : series) :
  NoDup (labels df) -> (col, s) ∈ columns df -> getitem df col = [s].
Proof.
  destruct df as [n cs]. unfold labels. simpl.
  induction cs as [|c cs IH]; intros Hnd Hin.
  - inversion Hin.
  - rewrite fmap_cons in Hnd. apply NoDup_cons in Hnd as [Hc Hnd].
    rewrite getitem_cons. apply elem_of_cons in Hin as [<-|Hin].
    + simpl. rewrite bool_decide_eq_true_2 by reflexivity.
      rewrite getitem_absent; auto.
    + rewrite bool_decide_eq_false_2; [auto|].
      intros Heq. apply Hc. rewrite Heq.
      apply (list_elem_of_fmap_2 fst _ _ Hin).
Qed.

Lemma getitem_elem (df : DataFrame) (col : label) (s : series) :
  s ∈ getitem df col <-> (col, s) ∈ columns df.
Proof.
  unfold getitem. rewrite list_elem_of_fmap. split.
  - intros ([l s'] & -> & Hin). apply list_elem_of_In, filter_In in Hin.
    destruct Hin as [Hin Hb]. apply bool_decide_eq_true in Hb. simpl in *.
    subst. by apply list_elem_of_In.
  - intros Hin. exists (col, s). split; [reflexivity|].
    apply list_elem_of_In, filter_In. split; [by apply list_elem_of_In|].
    by apply bool_decide_eq_true.
Qed.

Lemma setitem_same (df : DataFrame) (col : label) (s : series) :
  getitem df col = [s] -> setitem df col s = df.
Proof.
  intros Hg. destruct df as [n cs]. unfold setitem. simpl. f_equal.
  rewrite <- (list_fmap_id cs) at 2. apply list_fmap_ext.
  intros i [l s'] Hi. simpl. case_bool_decide as Hl; [|reflexivity].
  subst l. assert (Hin : s' ∈ getitem (mkDataFrame n cs) col).
  { apply getitem_elem. simpl. eapply list_elem_of_lookup_2, Hi. }
  rewrite Hg in Hin. apply list_elem_of_singleton in Hin. by subst.
Qed.

Lemma labels_setitem (df : DataFrame) (col : label) (s : series) :
  labels (setitem df col s) = labels df.
Proof.
  unfold labels, setitem. simpl. rewrite <- list_fmap_compose.
  apply list_fmap_ext. intros i c _. simpl. by case_bool_decide.
Qed.

Lemma update_with_unique g (df : DataFrame) (col : label) :
  NoDup (labels df) -> col ∈ labels df ->
  exists s, (col, s) ∈ columns df
            /\ update_with g df col = Some (setitem df col (g s)).
Proof.
  intros Hnd Hin. unfold labels in Hin. apply list_elem_of_fmap in Hin.
  destruct Hin as ([l s] & -> & Hin). exists s. split; [done|].
  unfold update_with. simpl. by rewrite (getitem_unique _ _ _ Hnd Hin).
Qed.

(** A loop of [update_with] over distinct labels of the frame rewrites the
    labelled columns and keeps their order. *)
Lemma foldl_update_with g (ls : list label) (df : DataFrame) :
  NoDup (labels df) -> NoDup ls -> ls ⊆ labels df ->
  for_each (update_with g) ls df = Some (map_columns g ls df).
Proof.
  unfold for_each.
  revert df. induction ls as [|a ls IH]; intros df Hnd Hls Hsub.
  - simpl. f_equal. destruct df as [n cs]. unfold map_columns. simpl.
    f_equal. rewrite <- (list_fmap_id cs) at 1. apply list_fmap_ext.
    intros i c _. reflexivity.
  - apply NoDup_cons in Hls as [Ha Hls].
    destruct (update_with_unique g df a Hnd) as (s & Hin & Hup).
    { apply Hsub. left. }
    simpl. rewrite Hup. rewrite IH.
    + f_equal. unfold map_columns, setitem. simpl. f_equal.
      rewrite <- list_fmap_compose. apply list_fmap_ext.
      intros i [l s'] Hi. simpl.
      assert (Hc : (l, s') ∈ columns df) by (eapply list_elem_of_lookup_2, Hi).
      destruct (decide (l = a)) as [->|Hne].
      * rewrite (bool_decide_eq_true_2 (a = a)) by done. simpl.
        rewrite bool_decide_eq_false_2 by done.
        rewrite bool_decide_eq_true_2 by left.
        assert (Hs : getitem df a = [s]) by (by apply getitem_unique).
        assert (Hs' : s' ∈ getitem df a) by (by apply getitem_elem).
        rewrite Hs in Hs'. apply list_elem_of_singleton in Hs'. by subst.
      * rewrite (bool_decide_eq_false_2 (l = a)) by done. simpl.
        destruct (decide (l ∈ ls)) as [Hls'|Hls'].
        -- rewrite !bool_decide_eq_true_2; [done| by right | done].
        -- rewrite !bool_decide_eq_false_2; [done| |done].
           intros Hx. apply elem_of_cons in Hx as [?|?]; done.
    + by rewrite labels_setitem.
    + done.
    + rewrite labels_setitem. intros x Hx. apply Hsub. by right.
Qed.

Lemma for_each_ext body body' (ls : list label) (df : DataFrame) :
  (forall df col, body df col = body' df col) ->
  for_each body ls df = for_each body' ls df.
Proof.
  intros Hext. unfold for_each. generalize (Some df).
  induction ls as [|a ls IH]; intros acc; [reflexivity|].
  simpl. rewrite <- IH. f_equal. destruct acc; simpl; auto.
Qed.

Lemma labels_on_columns g (df : DataFrame) : labels (on_columns g df) = labels df.
Proof.
  unfold labels, on_columns. simpl. rewrite <- list_fmap_compose.
  by apply list_fmap_ext.
Qed.

Lemma map_columns_all g (df : DataFrame) :
  map_columns g (labels df) df = on_columns g df.
Proof.
  unfold map_columns, on_columns. f_equal. apply list_fmap_ext.
  intros i c Hi. rewrite bool_decide_eq_true_2; [done|].
  apply list_elem_of_fmap. exists c. split; [done|].
  eapply list_elem_of_lookup_2, Hi.
Qed.

Lemma clean_mixed_column_update (df : DataFrame) (col : label) :
  clean_mixed_column df col = update_with clean_series df col.
Proof.
  unfold clean_mixed_column, update_with, clean_series.
  destruct (getitem df col) as [|s [|s' l]] eqn:Hg; try reflexivity.
  destruct (is_object s && negb (forallb isna (values s)));
    [|by rewrite setitem_same].
  destruct (mapM extract_numeric (values s)) as [cleaned|];
    [|by rewrite setitem_same].
  destruct (_ || _); [done|by rewrite setitem_same].
Qed.

Lemma clean_mixed_columns_distinct (df : DataFrame) :
  NoDup (labels df) ->
  clean_mixed_columns df = Some (on_columns clean_series df).
Proof.
  intros Hnd. unfold clean_mixed_columns.
  rewrite (for_each_ext _ _ _ _ clean_mixed_column_update).
  rewrite foldl_update_with by done. by rewrite map_columns_all.
Qed.

(** The stage succeeds only on distinct labels: at a duplicated label
    [df[column]] is a DataFrame and the dtype test raises. *)
Lemma getitem_length (df : DataFrame) (col : label) :
  length (getitem df col)
  = length (List.filter (fun l => bool_decide (l = col)) (labels df)).
Proof.
  unfold getitem, labels. rewrite length_fmap.
  induction (columns df) as [|c cs IH]; [reflexivity|].
  rewrite fmap_cons. simpl. destruct (bool_decide (c.1 = col)); simpl; by rewrite IH.
Qed.

Lemma NoDup_single_occurrences (l : list label) :
  (forall a, a ∈ l ->
     length (List.filter (fun x => bool_decide (x = a)) l) = 1%nat) ->
  NoDup l.
Proof.
  induction l as [|x t IH]; intros Hocc; [constructor|].
  assert (Hx : x ∉ t).
  { pose proof (Hocc x (list_elem_of_here _ _)) as H1. simpl in H1.
    rewrite bool_decide_eq_true_2 in H1 by done. simpl in H1.
    intros Hin. apply list_elem_of_In in Hin.
    assert (Hf : In x (List.filter (fun y => bool_decide (y = x)) t)).
    { apply filter_In. split; [done|]. by apply bool_decide_eq_true. }
    destruct (List.filter (fun y => bool_decide (y = x)) t); [done|].
    simpl in H1. lia. }
  constructor; [done|]. apply IH. intros a Ha.
  pose proof (Hocc a (list_elem_of_further _ _ _ Ha)) as H1. simpl in H1.
  rewrite bool_decide_eq_false_2 in H1; [done|]. intros ->. done.
Qed.

Lemma for_each_update_some g (ls : list label) (df df' : DataFrame) :
  for_each (update_with g) ls df = Some df' ->
  forall a, a ∈ ls -> length (getitem df a) = 1%nat.
Proof.
  unfold for_each. revert df. induction ls as [|c ls IH]; intros df Hf a Ha.
  - by apply not_elem_of_nil in Ha.
  - simpl in Hf. unfold update_with at 2 in Hf.
    destruct (getitem df c) as [|s [|s' k]] eqn:Hg.
    + exfalso. clear -Hf. induction ls; simpl in Hf; [discriminate|auto].
    + apply elem_of_cons in Ha as [->|Ha]; [by rewrite Hg|].
      rewrite <- (IH _ Hf a Ha). rewrite !getitem_length.
      by rewrite labels_setitem.
    + exfalso. clear -Hf. induction ls; simpl in Hf; [discriminate|auto].
Qed.

Lemma clean_mixed_columns_some (df df' : DataFrame) :
  clean_mixed_columns df = Some df' ->
  NoDup (labels df) /\ df' = on_columns clean_series df.
Proof.
  intros Hs.
  assert (Hnd : NoDup (labels df)).
  { unfold clean_mixed_columns in Hs.
    rewrite (for_each_ext _ _ _ _ clean_mixed_column_update) in Hs.
    apply NoDup_single_occurrences. intros a Ha.
    rewrite <- getitem_length. by eapply for_each_update_some. }
  split; [done|]. rewrite (clean_mixed_columns_distinct df Hnd) in Hs.
  by injection Hs.
Qed.

(** ** Numeric-extraction stage *)





(** ** Column Classifier *)

Lemma select_by_mask {A} (h : A -> bool) (cs : list A) :
  fst <$> List.filter snd (zip cs (h <$> cs)) = List.filter h cs.
Proof.
  induction cs as [|c cs IH]; [reflexivity|].
  rewrite fmap_cons. cbn [zip zip_with List.filter snd].
  destruct (h c); [rewrite fmap_cons; cbn [fst]|]; by rewrite IH.
Qed.

Lemma filter_sublist {A} (h : A -> bool) (cs : list A) :
  sublist (List.filter h cs) cs.
Proof.
  induction cs as [|c cs IH]; simpl; [constructor|].
  destruct (h c); by constructor.
Qed.

Lemma existsb_elem_of {A} (h : A -> bool) (l : list A) :
  existsb h l = true <-> exists x, x ∈ l /\ h x = true.
Proof.
  rewrite existsb_exists. split; intros (x & Hx & Hh); exists x;
    (split; [by apply list_elem_of_In|done]).
Qed.

Section ClassifierProperties.

Variable parses : pystr -> bool.

Lemma is_potentially_numeric_distinct (df : DataFrame) (c : label * series) :
  NoDup (labels df) -> c ∈ columns df ->
  is_potentially_numeric parses df c.1 = has_numeric_content parses c.2.
Proof.
  intros Hnd Hin. unfold is_potentially_numeric, has_numeric_content.
  destruct c as [l s]. simpl. rewrite (getitem_unique _ _ _ Hnd Hin).
  destruct (existsb is_int_or_float (values s)); [done|].
  by destruct (existsb _ _).
Qed.

Lemma remove_fully_non_numeric_columns_distinct (df : DataFrame) :
  NoDup (labels df) ->
  remove_fully_non_numeric_columns parses df
  = mkDataFrame (nrows df)
      (List.filter (fun c => has_numeric_content parses c.2) (columns df)).
Proof.
  intros Hnd. unfold remove_fully_non_numeric_columns, select_columns.
  f_equal. unfold labels. rewrite <- list_fmap_compose.
  rewrite (select_by_mask (is_potentially_numeric parses df ∘ fst)).
  apply filter_ext_in. intros c Hc. simpl.
  apply is_potentially_numeric_distinct; [done|by apply list_elem_of_In].
Qed.

(** C7. In a dataset with distinct labels the Column Classifier retains a
    column if and only if one of its values is an int or a float, or one of
    its values is coerced to a number by [pd.to_numeric]; the retained
    columns are a subsequence of the input columns (same relative order), a
    column meeting the criterion is never dropped, and the result has no
    column when no column meets it. *)
Theorem classifier_retains_numeric_columns (df : DataFrame) :
  NoDup (labels df) ->
  let out := remove_fully_non_numeric_columns parses df in
  let criterion (c : label * series) :=
    (exists x, x ∈ values c.2 /\ is_int_or_float x = true)
    \/ (exists x, x ∈ values c.2 /\ to_numeric_notna parses x = true) in
  (forall c, c ∈ columns out <-> c ∈ columns df /\ criterion c)
  /\ sublist (columns out) (columns df)
  /\ nrows out = nrows df
  /\ ((forall c, c ∈ columns df -> ~ criterion c) -> columns out = []).
Proof.
  intros Hnd out criterion. subst out.
  rewrite remove_fully_non_numeric_columns_distinct by done. simpl.
  assert (Hcrit : forall c, has_numeric_content parses c.2 = true <-> criterion c).
  { intros c. unfold has_numeric_content, criterion.
    rewrite orb_true_iff, !existsb_elem_of. tauto. }
  split; [|split; [|split]].
  - intros c. rewrite list_elem_of_In, filter_In, <- list_elem_of_In.
    by rewrite Hcrit.
  - apply filter_sublist.
  - reflexivity.
  - intros Hnone. induction (columns df) as [|c cs IH]; [reflexivity|].
    simpl. destruct (has_numeric_content parses c.2) eqn:Hc.
    + exfalso. apply (Hnone c); [left|by apply Hcrit].
    + apply IH. intros c' Hc'. apply Hnone. by right.
Qed.

End ClassifierProperties.

Lemma classifier_retains_numeric_columns_witness :
  columns (remove_fully_non_numeric_columns
             (fun s => bool_decide (s = str "7")) classifier_example)
  = [ (str "b", SFloat [Fnum 1; Fnan]);
      (str "d", SObject [CStr (str "7"); CNone]) ]
  /\ sublist (columns (remove_fully_non_numeric_columns
                         (fun s => bool_decide (s = str "7")) classifier_example))
       (columns classifier_example).
Proof.
  split; [vm_compute; reflexivity|].
  apply (classifier_retains_numeric_columns
           (fun s => bool_decide (s = str "7")) classifier_example).
  apply (bool_decide_unpack _). vm_compute. exact I.
Defined.

(** ** Missing-Value Reporter *)

Lemma percentage_full (b : nat) :
  (0 < b)%nat -> (Z.of_nat b <= 2 ^ 53)%Z ->
  percent (truediv b b) = Fnum 100.
Proof.
  intros Hb Hb53. rewrite truediv_exact_operands by lia.
  assert (H1 : (inject_Z (Z.of_nat b) / inject_Z (Z.of_nat b) == inject_Z 1)%Q).
  { change (inject_Z 1) with 1%Q. field. unfold Qeq. simpl. lia. }
  rewrite (fl_comp _ _ H1), fl_int by (simpl; lia).
  unfold percent. cbn [fmul].
  assert (H2 : (inject_Z 1 * 100 == inject_Z 100)%Q) by reflexivity.
  rewrite (fl_comp _ _ H2), fl_int by (simpl; lia). reflexivity.
Qed.

Lemma count_na_le (s : series) : (count_na s <= length (values s))%nat.
Proof. unfold count_na. apply filter_length_le. Qed.

Lemma total_missing_le (n : nat) (cs : list (label * series)) :
  Forall (fun c => length (values c.2) = n) cs ->
  (sum_list (count_na ∘ snd <$> cs) <= n * length cs)%nat.
Proof.
  induction 1 as [|c cs Hc _ IH]; [simpl; lia|].
  change (sum_list (count_na ∘ snd <$> c :: cs))
    with (count_na c.2 + sum_list (count_na ∘ snd <$> cs))%nat.
  pose proof (count_na_le c.2). rewrite Hc in *. cbn [length]. nia.
Qed.

(** C9, as the code has it. The reporter returns on every dataset, writes
    the report and leaves the dataset as it was; the overall percentage is 0
    when there are no cells. On a dataset with one cell per row and column
    and at most 2^53 cells it is the binary64 quotient of the absent count
    by the cell count, times 100 in binary64: 0 without absent cells, 100
    when every cell is absent, and otherwise within a relative error of
    2^-51 of 100 times the absent count over the cell count. *)
Theorem report_missing_values_percentage (df : DataFrame)
    (output_file : pystr) (fs : filesystem) :
  well_formed df ->
  (Z.of_nat (nrows df * length (columns df)) <= 2 ^ 53)%Z ->
  let total := (nrows df * length (columns df))%nat in
  let absent := sum_list (count_na ∘ snd <$> columns df) in
  let r := missing_report df in
  report_missing_values df output_file fs
  = (df, fs ++ [(ReportFolder, output_file, ReportTxt r)])
  /\ total_datapoints r = total
  /\ total_missing r = absent
  /\ (total = O ->
      missing_percentage_dataset r = Fnum 0
      /\ missing_percentage_columns r = [])
  /\ (absent = O -> missing_percentage_dataset r = Fnum 0)
  /\ (absent = total -> (0 < total)%nat ->
      missing_percentage_dataset r = Fnum 100)
  /\ ((0 < absent)%nat ->
      exists q,
        missing_percentage_dataset r = Fnum q
        /\ (q - 100 * inject_Z (Z.of_nat absent) / inject_Z (Z.of_nat total)
              <= 100 * inject_Z (Z.of_nat absent) / inject_Z (Z.of_nat total)
                 * (1 # 2251799813685248)
            /\ 100 * inject_Z (Z.of_nat absent) / inject_Z (Z.of_nat total) - q
                 <= 100 * inject_Z (Z.of_nat absent) / inject_Z (Z.of_nat total)
                    * (1 # 2251799813685248))%Q).
Proof.
  intros Hwf Hsize total absent r.
  pose proof (total_missing_le _ _ Hwf) as Hle. fold total absent in Hle.
  fold total in Hsize.
  split; [reflexivity|]. split; [reflexivity|]. split; [reflexivity|].
  unfold r, missing_report. cbn [missing_percentage_dataset
                                   missing_percentage_columns].
  fold total absent.
  split; [|split; [|split]].
  - intros Hz. rewrite bool_decide_eq_false_2 by lia. split; [reflexivity|].
    assert (He : empty df = true).
    { unfold empty. apply orb_true_iff.
      destruct (nrows df) eqn:Hn; [left; by apply bool_decide_eq_true|].
      right. apply bool_decide_eq_true. unfold total in Hz.
      destruct (columns df); [done|]. simpl in Hz. lia. }
    by rewrite He.
  - intros Hz. case_bool_decide as Ht; [|reflexivity].
    rewrite Hz. apply percentage_zero; lia.
  - intros Heq Ht. rewrite bool_decide_eq_true_2 by done.
    rewrite Heq. apply percentage_full; lia.
  - intros Ha. rewrite bool_decide_eq_true_2 by lia.
    destruct (percentage_accuracy absent total) as (q & Hq & _ & Herr & _);
      [lia..|].
    by exists q.
Qed.

Lemma report_missing_values_percentage_witness :
  total_datapoints (missing_report classifier_example) = 8%nat
  /\ total_missing (missing_report classifier_example) = 4%nat.
Proof.
  destruct (report_missing_values_percentage classifier_example (str "r") [])
    as (_ & H2 & H3 & _).
  - repeat constructor.
  - vm_compute. discriminate.
  - split; [exact H2|exact H3].
Defined.

(** With 7 absent cells out of 25 the percentage reported is not 28: the
    quotient 7/25 is rounded, and so is its product by 100. *)
Lemma seven_of_25_is_not_28 :
  total_datapoints (missing_report seven_of_25) = 25%nat
  /\ total_missing (missing_report seven_of_25) = 7%nat
  /\ missing_percentage_dataset (missing_report seven_of_25)
     = Fnum (7881299347898369 # 281474976710656)
  /\ ~ (7881299347898369 # 281474976710656 == 100 * 7 / 25)%Q.
Proof.
  split; [reflexivity|]. split; [reflexivity|].
  split; [vm_compute; reflexivity|]. unfold Qeq. vm_compute. discriminate.
Qed.

(** ** Imputer *)

Lemma fill_object_column_update (df : DataFrame) (col : label) :
  fill_object_column df col = update_with fill_series df col.
Proof.
  unfold fill_object_column, update_with.
  destruct (getitem df col) as [|s [|s' l]] eqn:Hg; try reflexivity;
    destruct s; try reflexivity; simpl; by rewrite setitem_same.
Qed.

Lemma for_each_sublabels g (df : DataFrame) (h : label * series -> bool) :
  NoDup (labels df) ->
  for_each (update_with g) (fst <$> List.filter h (columns df)) df
  = Some (mkDataFrame (nrows df)
            ((fun c => if h c then (c.1, g c.2) else c) <$> columns df)).
Proof.
  intros Hnd. rewrite foldl_update_with; [|done| |].
  - unfold map_columns. f_equal. f_equal. apply list_fmap_ext.
    intros i c Hi.
    assert (Hc : c ∈ columns df) by (eapply list_elem_of_lookup_2, Hi).
    destruct (h c) eqn:Hh.
    + rewrite bool_decide_eq_true_2; [done|].
      apply list_elem_of_fmap. exists c. split; [done|].
      apply list_elem_of_In, filter_In. split; [by apply list_elem_of_In|done].
    + rewrite bool_decide_eq_false_2; [done|].
      intros Hin. apply list_elem_of_fmap in Hin as (c' & Heq & Hin).
      apply list_elem_of_In, filter_In in Hin as [Hin Hh'].
      apply list_elem_of_In in Hin.
      assert (c' = c); [|congruence].
      destruct c as [l s], c' as [l' s']. simpl in Heq. subst l'.
      pose proof (getitem_unique _ _ _ Hnd Hc) as H1.
      pose proof (proj2 (getitem_elem df l s') Hin) as H2.
      rewrite H1 in H2. apply list_elem_of_singleton in H2. by subst.
  - eapply sublist_NoDup; [exact Hnd|]. unfold labels.
    apply fmap_sublist, filter_sublist.
  - intros x Hx. unfold labels. eapply sublist_subseteq; [|exact Hx].
    apply fmap_sublist, filter_sublist.
Qed.

Lemma present_nil (l : list pyfloat) :
  present l = [] -> Forall (fun x => x = Fnan) l.
Proof.
  induction l as [|x l IH]; intros Hp; [constructor|].
  unfold present in Hp. simpl in Hp.
  destruct x as [q|s|]; try discriminate. constructor; auto.
Qed.

Lemma present_all_nan (l : list pyfloat) :
  Forall (fun x => x = Fnan) l -> present l = [].
Proof. induction 1 as [|x l -> _ IH]; [reflexivity|]. exact IH. Qed.

Section ImputerProperties.

Variable fsum : list pyfloat -> pyfloat.

Lemma is_number_dtype_impute (s : series) :
  is_number_dtype (impute_series fsum s) = is_number_dtype s.
Proof.
  destruct s; try reflexivity. simpl.
  destruct (existsb _ _); [|reflexivity]. by destruct (mean fsum l).
Qed.

Lemma mean_imputation_distinct (df : DataFrame) :
  NoDup (labels df) ->
  mean_imputation fsum df = Some (on_columns (imputed fsum (nrows df)) df).
Proof.
  intros Hnd. unfold mean_imputation.
  set (numeric := fst <$> List.filter (fun c => is_number_dtype c.2) (columns df)).
  assert (Hfirst :
    (if negb (bool_decide (nrows df = O) || bool_decide (numeric = []))
     then for_each (impute_column fsum) numeric df else Some df)
    = Some (mkDataFrame (nrows df)
        ((fun c => if is_number_dtype c.2 && negb (bool_decide (nrows df = O))
                   then (c.1, impute_series fsum c.2) else c) <$> columns df))).
  { destruct (bool_decide (nrows df = O)) eqn:Hn; simpl.
    - f_equal. destruct df as [n cs]. simpl. f_equal.
      rewrite <- (list_fmap_id cs) at 1. apply list_fmap_ext.
      intros i c _. by rewrite andb_false_r.
    - assert (Hloop : for_each (impute_column fsum) numeric df
        = Some (mkDataFrame (nrows df)
            ((fun c => if is_number_dtype c.2 then (c.1, impute_series fsum c.2)
                       else c) <$> columns df))).
      { unfold numeric.
        apply (for_each_sublabels (impute_series fsum) df
                 (fun c => is_number_dtype c.2) Hnd). }
      destruct (bool_decide (numeric = [])) eqn:Hnum; simpl.
      + apply bool_decide_eq_true in Hnum. rewrite Hnum in Hloop.
        unfold for_each in Hloop. simpl in Hloop. rewrite Hloop.
        f_equal. f_equal. apply list_fmap_ext. intros i c _.
        by rewrite andb_true_r.
      + rewrite Hloop. f_equal. f_equal. apply list_fmap_ext. intros i c _.
        by rewrite andb_true_r. }
  rewrite Hfirst. simpl.
  set (df1 := mkDataFrame _ _).
  assert (Hl1 : labels df1 = labels df).
  { unfold df1, labels. simpl. rewrite <- list_fmap_compose.
    apply list_fmap_ext. intros i c _. simpl. by destruct (_ && _). }
  rewrite (for_each_ext _ _ _ _ fill_object_column_update).
  rewrite foldl_update_with.
  - unfold map_columns, on_columns, df1. simpl. f_equal. f_equal.
    rewrite <- list_fmap_compose. apply list_fmap_ext.
    intros i c Hi. simpl.
    assert (Hc : c ∈ columns df) by (eapply list_elem_of_lookup_2, Hi).
    unfold imputed. destruct (is_number_dtype c.2) eqn:Hd; simpl.
    + assert (Hnot :
                c.1 ∉ fst <$> List.filter (fun c => negb (is_number_dtype c.2))
                                (columns df)).
      { intros Hin. apply list_elem_of_fmap in Hin as (c' & Heq & Hin).
        apply list_elem_of_In, filter_In in Hin as [Hin Hh'].
        apply list_elem_of_In in Hin.
        destruct c as [l s], c' as [l' s']. simpl in *. subst l'.
        pose proof (getitem_unique _ _ _ Hnd Hc) as H1.
        pose proof (proj2 (getitem_elem df l s') Hin) as H2.
        rewrite H1 in H2. apply list_elem_of_singleton in H2. subst.
        by rewrite Hd in Hh'. }
      destruct (bool_decide (nrows df = O)); simpl;
        (rewrite bool_decide_eq_false_2 by exact Hnot); by destruct c.
    + rewrite bool_decide_eq_true_2; [done|].
      apply list_elem_of_fmap. exists c. split; [done|].
      apply list_elem_of_In, filter_In. split; [by apply list_elem_of_In|].
      by rewrite Hd.
  - by rewrite Hl1.
  - eapply sublist_NoDup; [exact Hnd|]. unfold labels.
    apply fmap_sublist, filter_sublist.
  - rewrite Hl1. intros x Hx. unfold labels.
    eapply sublist_subseteq; [|exact Hx]. apply fmap_sublist, filter_sublist.
Qed.

(** A float column without any present value has no mean and is left as
    it is. *)
Lemma all_nan_unchanged (l : list pyfloat) :
  Forall (fun x => x = Fnan) l -> impute_series fsum (SFloat l) = SFloat l.
Proof.
  intros Hall. unfold impute_series, mean. rewrite (present_all_nan l Hall).
  destruct (existsb isna (values (SFloat l))) eqn:He; [reflexivity|].
  destruct Hall as [|x l -> _]; [reflexivity|discriminate].
Qed.

End ImputerProperties.

Section ImputedScenario.

Variable parses : pystr -> bool.
Variable fsum : list pyfloat -> pyfloat.

(** C8. The first end-to-end scenario of the specification: the column
    [Revenue ($)] holds [$100], [$200] and [bad], the column [Notes] holds
    text. After the extraction and the pruning the dataset is the column
    [Revenue] with 100.0, 200.0 and one absent cell, [pd.NA], which makes it
    an object column; [mean_imputation] selects the columns of a number
    dtype and returns the dataset as it is, and the cleaned file holds the
    NA marker where the specification has the mean 150.0. The same cells in a
    float64 column are imputed: the absent cell, NaN there, gets 150.0.
    There every cell is rounded by [round(3)], which works in binary64:
    a mean of two thirds is stored as 0.667, the cell 0.0055 and the mean
    that fills the gap next to it as 0.006, and 1.0005, whose product with
    1000 is the tie 1000.5, as 1.0. *)
Theorem extracted_column_is_not_imputed :
  let revenue :=
    mkDataFrame 3
      [ (str "Revenue",
         SObject [CFloat (Fnum 100); CFloat (Fnum 200); CNA]) ] in
  (exists df1,
     clean_mixed_columns (clean_headers scenario_revenue) = Some df1
     /\ remove_fully_non_numeric_columns parses df1 = revenue)
  /\ mean_imputation fsum revenue = Some revenue
  /\ process_single_csv_file parses fsum (Frame scenario_revenue)
       (str "sales") []
     = [ (ReportFolder, str "sales_report.txt",
          ReportTxt (missing_report revenue));
         (CleanedFolder, str "sales_clean.csv",
          CleanedCsv [ (str "Revenue",
                        [ Field (CFloat (Fnum 100)); Field (CFloat (Fnum 200));
                          NA_marker ]) ]) ]
  /\ mean_imputation fsum_loop
       (mkDataFrame 3 [ (str "Revenue", SFloat [Fnum 100; Fnum 200; Fnan]) ])
     = Some (mkDataFrame 3
               [ (str "Revenue", SFloat [Fnum 100; Fnum 200; Fnum 150]) ])
  /\ mean_imputation fsum_loop
       (mkDataFrame 4 [ (str "Rate", SFloat [Fnum 0; Fnum 1; Fnum 1; Fnan]) ])
     = Some (mkDataFrame 4
               [ (str "Rate",
                  SFloat [Fnum 0; Fnum 1; Fnum 1; fl (667 # 1000)]) ])
  /\ mean_imputation fsum_loop
       (mkDataFrame 2 [ (str "Rate", SFloat [fl (11 # 2000); Fnan]) ])
     = Some (mkDataFrame 2
               [ (str "Rate", SFloat [fl (6 # 1000); fl (6 # 1000)]) ])
  /\ round3 (fl (2001 # 2000)) = Fnum 1
  /\ round3 (fl (1 # 3)) = fl (333 # 1000)
  /\ round3 (fl (- (12345 # 10000))) = fl (- (1234 # 1000)).
Proof.
  intros revenue.
  split; [eexists; split; vm_compute; reflexivity|].
  repeat (split; [vm_compute; reflexivity|]).
  vm_compute. reflexivity.
Qed.

End ImputedScenario.

(** ** File Pipeline Orchestrator *)

Lemma dedupe_step_length st col :
  length (dedupe_step st col).2 = S (length st.2).
Proof.
  unfold dedupe_step. destruct (st.1 !! _); simpl; rewrite length_app;
    simpl; lia.
Qed.

Lemma fold_dedupe_length (cols : list label) st :
  length (fold_left dedupe_step cols st).2 = (length st.2 + length cols)%nat.
Proof.
  revert st. induction cols as [|c cols IH]; intros st; simpl; [lia|].
  rewrite IH, dedupe_step_length. lia.
Qed.

Lemma clean_header_labels_length (raw : list label) :
  length (clean_header_labels raw) = length raw.
Proof.
  unfold clean_header_labels. rewrite fold_dedupe_length, length_fmap.
  reflexivity.
Qed.

Lemma labels_clean_headers (df : DataFrame) :
  labels (clean_headers df) = clean_header_labels (labels df).
Proof.
  unfold labels, clean_headers. simpl. apply fst_zip.
  rewrite clean_header_labels_length. unfold labels.
  by rewrite !length_fmap.
Qed.

Lemma columns_clean_headers (df : DataFrame) (i : nat) lbl s :
  columns df !! i = Some (lbl, s) ->
  exists lbl', clean_header_labels (labels df) !! i = Some lbl'
               /\ columns (clean_headers df) !! i = Some (lbl', s).
Proof.
  intros Hi.
  destruct (clean_header_labels (labels df) !! i) as [lbl'|] eqn:Hl.
  - exists lbl'. split; [done|]. unfold clean_headers. simpl.
    apply lookup_zip_with_Some. exists lbl', s. split; [done|]. split; [done|].
    by rewrite list_lookup_fmap, Hi.
  - apply lookup_ge_None in Hl. rewrite clean_header_labels_length in Hl.
    unfold labels in Hl. rewrite length_fmap in Hl.
    apply lookup_lt_Some in Hi. lia.
Qed.

Lemma report_missing_values_writes (df : DataFrame) (output_file : pystr)
    (fs : filesystem) :
  exists r, report_missing_values df output_file fs
            = (df, fs ++ [(ReportFolder, output_file, ReportTxt r)]).
Proof. by eexists. Qed.

Section PipelineProperties.

Variable parses : pystr -> bool.
Variable fsum : list pyfloat -> pyfloat.

(** C2, as the code has it. A loaded dataset without rows is abandoned
    right after loading, as is a file that cannot be read (an empty file
    among them): the call leaves the files as they were, so there is no
    placeholder, no cleaned file and no report, and no imputation runs. The
    placeholder [_clean_empty] is what the call writes, alone, when a dataset
    with rows comes out of pruning without columns. *)
Theorem zero_rows_input_is_abandoned (df : DataFrame)
    (filename_no_ext : pystr) (fs : filesystem) :
  (nrows df = O ->
     process_single_csv_file parses fsum (Frame df) filename_no_ext fs = fs)
  /\ process_single_csv_file parses fsum ReadError filename_no_ext fs = fs
  /\ (forall df1,
        empty df = false ->
        clean_mixed_columns (clean_headers df) = Some df1 ->
        columns (remove_fully_non_numeric_columns parses df1) = [] ->
        process_single_csv_file parses fsum (Frame df) filename_no_ext fs
        = fs ++ [(CleanedFolder, filename_no_ext ++ str "_clean_empty.csv",
                  EmptyCsv)]).
Proof.
  split; [|split].
  - intros Hn. unfold process_single_csv_file, empty.
    by rewrite (bool_decide_eq_true_2 _ Hn).
  - reflexivity.
  - intros df1 He Hmix Hcols. unfold process_single_csv_file.
    rewrite He, Hmix. unfold empty at 1. rewrite Hcols. simpl.
    by rewrite orb_true_r.
Qed.

End PipelineProperties.

Lemma zero_rows_input_is_abandoned_witness :
  process_single_csv_file (fun _ => false) fsum_loop (Frame header_only) (str "data") []
  = [].
Proof.
  apply (proj1 (zero_rows_input_is_abandoned (fun _ => false) fsum_loop header_only
                  (str "data") [])).
  reflexivity.
Defined.

(** On the header-only file the placeholder is not written. *)
Lemma zero_rows_input_leaves_no_placeholder :
  ~ In (CleanedFolder, str "data_clean_empty.csv", EmptyCsv)
      (process_single_csv_file (fun _ => false) fsum_loop (Frame header_only)
         (str "data") []).
Proof. vm_compute. tauto. Qed.

Lemma all_nan_rendered (l : list pyfloat) :
  Forall (fun x => x = Fnan) l ->
  (fun x => if isna x then NA_marker else Field x) <$> values (SFloat l)
  = replicate (length l) NA_marker.
Proof.
  induction 1 as [|x l -> _ IH]; [done|].
  cbn [values] in *. rewrite !fmap_cons. cbn [isna length replicate].
  by rewrite IH.
Qed.

Lemma elem_on_columns g (df : DataFrame) (lbl : label) (s : series) :
  (lbl, s) ∈ columns df -> (lbl, g s) ∈ columns (on_columns g df).
Proof.
  intros Hin. unfold on_columns. cbn [columns]. apply list_elem_of_fmap.
  by exists (lbl, s).
Qed.

Section AllAbsentColumn.

Variable parses : pystr -> bool.
Variable fsum : list pyfloat -> pyfloat.

(** C10. Take a loaded dataset with rows whose normalised labels are
    distinct, and in it a float column whose cells are all NaN. The column
    is retained by the Column Classifier, the Imputer leaves it as it is,
    and the pipeline writes the report and the cleaned file, in which the
    column stands under its normalised label with the NA marker in every
    cell. *)
Theorem all_nan_column_reaches_output (df : DataFrame)
    (filename_no_ext : pystr) (fs : filesystem)
    (i : nat) (lbl : label) (l : list pyfloat) :
  empty df = false ->
  NoDup (clean_header_labels (labels df)) ->
  columns df !! i = Some (lbl, SFloat l) ->
  l <> [] ->
  Forall (fun x => x = Fnan) l ->
  exists lbl' df1 df2 r cols,
    clean_header_labels (labels df) !! i = Some lbl'
    /\ clean_mixed_columns (clean_headers df) = Some df1
    /\ (lbl', SFloat l) ∈ columns (remove_fully_non_numeric_columns parses df1)
    /\ mean_imputation fsum (remove_fully_non_numeric_columns parses df1) = Some df2
    /\ (lbl', SFloat l) ∈ columns df2
    /\ process_single_csv_file parses fsum (Frame df) filename_no_ext fs
       = fs ++ [(ReportFolder, filename_no_ext ++ str "_report.txt",
                 ReportTxt r);
                (CleanedFolder, filename_no_ext ++ str "_clean.csv",
                 CleanedCsv cols)]
    /\ (lbl', replicate (length l) NA_marker) ∈ cols.
Proof.
  intros Hne Hnd Hi Hl Hall.
  destruct (columns_clean_headers df i lbl _ Hi) as (lbl' & Hlbl & Hcol).
  set (dfh := clean_headers df) in *.
  assert (Hndh : NoDup (labels dfh))
    by (unfold dfh; by rewrite labels_clean_headers).
  pose proof (clean_mixed_columns_distinct dfh Hndh) as Hmix.
  set (df1 := on_columns clean_series dfh) in *.
  assert (Hnd1 : NoDup (labels df1))
    by (unfold df1; by rewrite labels_on_columns).
  assert (Hin1 : (lbl', SFloat l) ∈ columns df1).
  { apply (elem_on_columns clean_series dfh lbl' (SFloat l)).
    eapply list_elem_of_lookup_2, Hcol. }
  pose proof (remove_fully_non_numeric_columns_distinct parses df1 Hnd1)
    as Hrem.
  set (df2 := remove_fully_non_numeric_columns parses df1) in *.
  assert (Hin2 : (lbl', SFloat l) ∈ columns df2).
  { rewrite Hrem. simpl. apply list_elem_of_In, filter_In.
    split; [by apply list_elem_of_In|].
    unfold has_numeric_content. simpl.
    destruct l as [|x l']; [done|]. reflexivity. }
  assert (Hnd2 : NoDup (labels df2)).
  { rewrite Hrem. unfold labels. simpl.
    eapply sublist_NoDup; [exact Hnd1|]. apply fmap_sublist, filter_sublist. }
  assert (Hrows : nrows df2 = nrows df) by (by rewrite Hrem).
  assert (Hn : nrows df <> O).
  { unfold empty in Hne. apply orb_false_iff in Hne as [Hn _].
    by apply bool_decide_eq_false in Hn. }
  assert (Hne2 : (empty df2 || bool_decide (length (columns df2) = O)) = false).
  { unfold empty. rewrite Hrows.
    destruct (columns df2) as [|c cs]; [by apply not_elem_of_nil in Hin2|].
    rewrite (bool_decide_eq_false_2 (nrows df = O)) by done.
    reflexivity. }
  pose proof (mean_imputation_distinct fsum df2 Hnd2) as Himp.
  set (df3 := on_columns (imputed fsum (nrows df2)) df2) in *.
  assert (Hin3 : (lbl', SFloat l) ∈ columns df3).
  { assert (Hsame : imputed fsum (nrows df2) (SFloat l) = SFloat l).
    { unfold imputed. cbn [is_number_dtype]. rewrite Hrows.
      rewrite bool_decide_eq_false_2 by done. by apply all_nan_unchanged. }
    rewrite <- Hsame at 1. by apply elem_on_columns. }
  destruct (report_missing_values_writes df2
              (filename_no_ext ++ str "_report.txt") fs) as [r Hr].
  exists lbl', df1, df3, r.
  eexists. split; [done|]. split; [done|]. split; [done|]. split; [done|].
  split; [done|]. split.
  - unfold process_single_csv_file. rewrite Hne. fold dfh. rewrite Hmix.
    fold df2. rewrite Hne2, Hr, Himp. rewrite <- app_assoc. reflexivity.
  - unfold to_csv. apply list_elem_of_fmap.
    exists (lbl', SFloat l). split; [|done]. simpl. f_equal.
    by rewrite <- all_nan_rendered.
Qed.

End AllAbsentColumn.

Lemma all_nan_column_reaches_output_witness :
  exists r cols,
    process_single_csv_file (fun _ => false) fsum_loop (Frame blank_column_frame)
      (str "t") []
    = [(ReportFolder, str "t_report.txt", ReportTxt r);
       (CleanedFolder, str "t_clean.csv", CleanedCsv cols)]
    /\ (str "Blank", [NA_marker; NA_marker]) ∈ cols.
Proof.
  destruct (all_nan_column_reaches_output (fun _ => false) fsum_loop blank_column_frame
              (str "t") [] 1 (str "Blank (unused)") [Fnan; Fnan])
    as (lbl' & df1 & df2 & r & cols & H1 & _ & _ & _ & _ & H6 & H7).
  - reflexivity.
  - apply (bool_decide_unpack _). vm_compute. exact I.
  - reflexivity.
  - discriminate.
  - repeat constructor.
  - exists r, cols. split; [exact H6|].
    vm_compute in H1. injection H1 as <-. exact H7.
Defined.

(** * Further properties *)

(** ** extract_numeric *)

Lemma elem_of_replace_char (old c : char) (s : pystr) :
  c ∈ replace_char old [] s <-> c ∈ s /\ c <> old.
Proof.
  unfold replace_char. rewrite list_elem_of_In, in_flat_map. split.
  - intros (a & Ha & Hc). apply list_elem_of_In in Ha.
    destruct (a =? old) eqn:Hao; [destruct Hc|].
    destruct Hc as [<- | []]. split; [done|]. by apply N.eqb_neq.
  - intros [Hc Hne]. exists c. split; [by apply list_elem_of_In|].
    apply N.eqb_neq in Hne. rewrite Hne. by left.
Qed.

Lemma literal_has_digit (m : pystr) :
  numeric_literal m -> exists d, d ∈ m /\ is_digit d = true.
Proof.
  intros [sg ip pt fp _ _ _ Hfp Hne]. destruct fp as [|d fp]; [done|].
  exists d. split; [|by inversion Hfp].
  rewrite !elem_of_app. right. right. right. left.
Qed.

Lemma fl_not_nan (q : Q) : fl q <> Fnan.
Proof.
  unfold fl, fl_pos.
  destruct (q ?= 0)%Q; [discriminate| |];
    by destruct (Qle_bool (2 ^ 1024) (nearest _)).
Qed.

(** X1. The extractor raises on one kind of cell only, an int that no float
    reaches: such an int has 1024 bits or more, and every int of more than
    1024 bits raises. On every other cell it returns a float or [pd.NA],
    and extracting from its result returns that result. *)
Theorem extract_numeric_raises_on_huge_int_only :
  (forall value,
     (extract_numeric value = None
      /\ exists z, value = CInt z /\ (2 ^ 1023 <= Z.abs z)%Z)
     \/ (exists c, extract_numeric value = Some c
                   /\ (c = CNA \/ exists f, c = CFloat f)
                   /\ extract_numeric c = Some c))
  /\ (forall z, (2 ^ 1024 <= Z.abs z)%Z -> extract_numeric (CInt z) = None).
Proof.
  split.
  - intros value.
    destruct (extract_numeric_total value) as [(z & -> & Hz) | (c & Hc & Hkind)].
    + left. split; [done|]. exists z. split; [done|].
      cbn [extract_numeric] in Hz.
      destruct (float_of_int_cases z) as [[_ Hbig] | (q & Hq & _)]; [done|].
      by rewrite Hq in Hz.
    + right. exists c. split; [done|]. split; [done|].
      destruct Hkind as [-> | [f ->]]; reflexivity.
  - intros z Hz. cbn [extract_numeric].
    destruct (float_of_int_cases z) as [[-> _] | (q & _ & _ & Hlt)];
      [reflexivity|lia].
Qed.

(** X2. A text cell yields [pd.NA] exactly when it holds no decimal digit;
    with a digit it yields a float, which is not NaN. *)
Theorem extract_numeric_absent_iff_no_digit (s : pystr) :
  (extract_numeric (CStr s) = Some CNA
   <-> Forall (fun c => is_digit c = false) s)
  /\ ((exists c, c ∈ s /\ is_digit c = true)
      <-> exists f, extract_numeric (CStr s) = Some (CFloat f) /\ f <> Fnan).
Proof.
  assert (Hiff : extract_numeric (CStr s) = Some CNA
                 <-> Forall (fun c => is_digit c = false) s).
  { rewrite extract_numeric_text, first_match_strip.
    destruct (first_match (replace_char 37 [] s)) as [m|] eqn:Hm; split.
    - intros H. exfalso. unfold py_float in H.
      destruct (literal_value m); discriminate.
    - intros Hnone. exfalso.
      destruct (first_match_some _ _ Hm) as (i & Hsub & Hlit & _).
      destruct (literal_has_digit m Hlit) as (d & Hd & Hdig).
      destruct Hsub as (pre & post & Hs & _).
      assert (Hin : d ∈ replace_char 37 [] s).
      { rewrite Hs, !elem_of_app. right. by left. }
      apply elem_of_replace_char in Hin as [Hin _].
      rewrite Forall_forall in Hnone. rewrite (Hnone d Hin) in Hdig.
      discriminate.
    - intros _. apply Forall_forall. intros c Hc.
      destruct (is_digit c) eqn:Hdig; [|reflexivity]. exfalso.
      assert (Hin : c ∈ replace_char 37 [] s).
      { apply elem_of_replace_char. split; [done|]. intros ->. discriminate. }
      apply list_elem_of_split in Hin as (l1 & l2 & Hs).
      apply (first_match_none _ Hm (length l1) [c]).
      + by exists l1, l2.
      + apply (Literal [] [] [] [c]); auto.
    - reflexivity. }
  split; [exact Hiff|].
  destruct (strip_percent_frame s) as (w1 & w2 & Hs & H1 & H2).
  destruct (extract_numeric_str s _ _ _ Hs H1 H2)
    as [(i & m & q & _ & _ & Hex)|[_ Hex]]; split.
  - intros _. exists (fl q). split; [done|apply fl_not_nan].
  - intros _.
    destruct (decide (Forall (fun c => is_digit c = false) s)) as [Hall|Hnot].
    + apply Hiff in Hall. congruence.
    + apply not_Forall_Exists in Hnot; [|intros x; apply _].
      apply Exists_exists in Hnot as (c & Hc & Hd). exists c.
      split; [done|]. simpl in Hd. by destruct (is_digit c).
  - intros (c & Hc & Hd). apply Hiff in Hex. rewrite Forall_forall in Hex.
    rewrite (Hex c Hc) in Hd. discriminate.
  - intros (f & Hf & _). congruence.
Qed.

Lemma replace_char_app (old : char) (new a b : pystr) :
  replace_char old new (a ++ b) = replace_char old new a ++ replace_char old new b.
Proof. unfold replace_char. apply flat_map_app. Qed.

Lemma replace_percent_padding (w : pystr) :
  Forall (fun c => is_space c = true \/ c = 37) w ->
  Forall (fun c => is_space c = true) (replace_char 37 [] w).
Proof.
  intros Hw. apply Forall_forall. intros c Hc.
  apply elem_of_replace_char in Hc as [Hc Hne].
  rewrite Forall_forall in Hw. by destruct (Hw c Hc).
Qed.

(** X3. Blanks and percent signs around the text, and percent signs inside
    it, do not change what is extracted. *)
Theorem extract_numeric_ignores_padding (w1 a pc b w2 : pystr) :
  Forall (fun c => is_space c = true \/ c = 37) w1 ->
  Forall (fun c => is_space c = true \/ c = 37) w2 ->
  Forall (fun c => c = 37) pc ->
  extract_numeric (CStr (w1 ++ (a ++ pc ++ b) ++ w2))
  = extract_numeric (CStr (a ++ b)).
Proof.
  intros H1 H2 Hpc. rewrite !extract_numeric_text, !first_match_strip.
  rewrite !replace_char_app.
  assert (Hnil : replace_char 37 [] pc = []).
  { clear -Hpc. induction Hpc as [|c pc -> _ IH]; [done|].
    unfold replace_char in *. simpl. exact IH. }
  rewrite Hnil, app_nil_l.
  rewrite first_match_spaces_l by (by apply replace_percent_padding).
  rewrite first_match_spaces_r by (by apply replace_percent_padding).
  reflexivity.
Qed.

Lemma extract_numeric_ignores_padding_witness :
  extract_numeric (CStr (str " % " ++ (str "1" ++ str "%%" ++ str "2.5 kg") ++ str " %"))
  = extract_numeric (CStr (str "1" ++ str "2.5 kg")).
Proof.
  apply (extract_numeric_ignores_padding (str " % ") (str "1") (str "%%")
           (str "2.5 kg") (str " %")).
  - repeat (constructor; [first [by left | by right]|]). constructor.
  - repeat (constructor; [first [by left | by right]|]). constructor.
  - repeat constructor.
Defined.

Lemma ascii_digit_facts (c : char) :
  48 <= c <= 57 ->
  is_digit c = true /\ decimal_value c = Some (c - 48)
  /\ is_space c = false /\ (c =? 37) = false /\ is_sign c = false.
Proof.
  intros Hc.
  assert (H : In c [48; 49; 50; 51; 52; 53; 54; 55; 56; 57]) by (simpl; lia).
  simpl in H. repeat (destruct H as [<-|H]; [by vm_compute|]). done.
Qed.

Lemma uint_digits_ascii (d : Decimal.uint) :
  Forall (fun c => 48 <= c <= 57) (uint_digits d).
Proof. induction d; simpl; constructor; auto; lia. Qed.

Lemma digits_value_uint (d : Decimal.uint) (acc : N) :
  fold_left (fun acc c => 10 * acc + default 0 (decimal_value c))
    (uint_digits d) acc
  = N.of_nat (Nat.of_uint_acc d (N.to_nat acc)).
Proof.
  revert acc. induction d; intros acc; simpl;
    [by rewrite N2Nat.id|rewrite IHd; f_equal; f_equal;
       rewrite Nat.tail_mul_spec; lia ..].
Qed.

Lemma digits_value_str_of_nat (n : nat) :
  digits_value (str_of_nat n) = N.of_nat n.
Proof.
  unfold digits_value, str_of_nat. rewrite digits_value_uint.
  change (N.to_nat 0) with O. fold (Nat.of_uint (Nat.to_uint n)).
  by rewrite Unsigned.of_to.
Qed.

Lemma strip_id (p : char -> bool) (x : pystr) :
  Forall (fun c => p c = false) x -> strip p x = x.
Proof.
  intros Hx. unfold strip, rstrip. rewrite (lstrip_id p x).
  - rewrite lstrip_id, rev_involutive; [done|].
    apply Forall_rev in Hx. destruct (rev x); [done|]. by inversion Hx.
  - destruct x; [done|]. by inversion Hx.
Qed.

(** X4. The decimal text of a natural number, as [str] writes it, is
    extracted as the float nearest to that number, which is the number
    itself up to 2^53. *)
Theorem extract_numeric_reads_natural (n : nat) :
  extract_numeric (CStr (str_of_nat n))
  = Some (CFloat (fl (inject_Z (Z.of_nat n))))
  /\ ((Z.of_nat n <= 2 ^ 53)%Z ->
      extract_numeric (CStr (str_of_nat n))
      = Some (CFloat (Fnum (inject_Z (Z.of_nat n))))).
Proof.
  assert (Hgen : extract_numeric (CStr (str_of_nat n))
                 = Some (CFloat (fl (inject_Z (Z.of_nat n))))).
  { pose proof (uint_digits_ascii (Nat.to_uint n)) as Hd.
    pose proof (str_of_nat_nonempty n) as Hne.
    pose proof (digits_value_str_of_nat n) as Hval.
    fold (str_of_nat n) in Hd. set (d := str_of_nat n) in *.
    assert (Hdig : Forall (fun c => is_digit c = true) d).
    { eapply Forall_impl; [exact Hd|]. intros c Hc. by apply ascii_digit_facts. }
    assert (Hrp : replace_char 37 [] d = d).
    { clear -Hd. induction Hd as [|c t Hc _ IH]; [done|].
      unfold replace_char in *. simpl.
      destruct (ascii_digit_facts c Hc) as (_ & _ & _ & -> & _). by rewrite IH. }
    assert (Hst : strip is_space d = d).
    { apply strip_id. eapply Forall_impl; [exact Hd|].
      intros c Hc. by apply ascii_digit_facts. }
    assert (Hsearch : Re.search numeric_pattern d = Some (O, length d)).
    { destruct d as [|c t] eqn:Hdeq; [done|]. cbn [Re.search].
      rewrite match_numeric. unfold literal_prefix.
      assert (Hc : is_sign c = false).
      { inversion Hd; subst. by apply ascii_digit_facts. }
      rewrite Hc. unfold unsigned_prefix.
      rewrite <- (app_nil_r (c :: t)).
      rewrite (take_run_app_all _ _ [] Hdig), (lstrip_app_all _ _ [] Hdig).
      simpl. by rewrite app_nil_r. }
    unfold extract_numeric. rewrite Hrp, Hst, Hsearch.
    unfold Re.group. simpl fst. simpl snd. rewrite drop_0, firstn_all.
    pose proof (literal_value_parts [] [] [] d) as Hpf.
    rewrite !app_nil_l in Hpf. unfold py_float. rewrite Hpf; auto. simpl.
    rewrite Hval, nat_N_Z. f_equal. f_equal. f_equal.
    apply Qred_identity. simpl. apply Z.gcd_1_r. }
  split; [exact Hgen|]. intros Hn. rewrite Hgen, fl_int by lia. reflexivity.
Qed.

Lemma extract_numeric_reads_natural_witness :
  extract_numeric (CStr (str_of_nat 1250))
  = Some (CFloat (Fnum (inject_Z (Z.of_nat 1250)))).
Proof.
  apply (proj2 (extract_numeric_reads_natural 1250)). vm_compute. discriminate.
Defined.

(** ** clean_headers *)

(** X5. Header normalization only renames: the row count, the number of
    columns and the data of every column, in order, are as before, and the
    new labels depend on the old labels alone. *)
Theorem clean_headers_only_renames (df : DataFrame) :
  nrows (clean_headers df) = nrows df
  /\ snd <$> columns (clean_headers df) = snd <$> columns df
  /\ labels (clean_headers df) = clean_header_labels (labels df)
  /\ length (columns (clean_headers df)) = length (columns df).
Proof.
  assert (Hlen : length (clean_header_labels (labels df))
                 = length (snd <$> columns df)).
  { rewrite clean_header_labels_length. unfold labels. by rewrite !length_fmap. }
  split; [reflexivity|]. split; [|split].
  - unfold clean_headers. simpl. apply snd_zip. lia.
  - apply labels_clean_headers.
  - unfold clean_headers. simpl. rewrite length_zip_with, Hlen.
    rewrite length_fmap. lia.
Qed.

Lemma occurrences_snoc (x n : label) (seen : list label) :
  occurrences x (seen ++ [n])
  = (occurrences x seen + if bool_decide (n = x) then 1 else 0)%nat.
Proof.
  unfold occurrences. rewrite List.filter_app, length_app. simpl.
  by destruct (bool_decide (n = x)).
Qed.

(** The dictionary [counts] holds, for every label seen, the number of its
    occurrences less one. *)
Lemma fold_dedupe_numbered (cols seen : list label) (counts : gmap label nat)
    (acc : list label) :
  (forall x, counts !! x = match occurrences x seen with
                           | O => None
                           | S k => Some k
                           end) ->
  (fold_left dedupe_step cols (counts, acc)).2 = acc ++ numbered seen cols.
Proof.
  revert seen counts acc. induction cols as [|c cols IH];
    intros seen counts acc Hinv; simpl; [by rewrite app_nil_r|].
  fold (named c). unfold dedupe_step at 2. cbn [fst snd]. fold (named c).
  rewrite (Hinv (named c)).
  destruct (occurrences (named c) seen) as [|k] eqn:Hocc.
  - rewrite (IH (seen ++ [named c])); [by rewrite <- app_assoc|].
    intros x. rewrite occurrences_snoc. case_bool_decide as Hx.
    + subst x. rewrite lookup_insert_eq, Hocc. reflexivity.
    + rewrite lookup_insert_ne by done. rewrite Hinv, Nat.add_0_r. reflexivity.
  - rewrite (IH (seen ++ [named c])); [by rewrite <- app_assoc|].
    intros x. rewrite occurrences_snoc. case_bool_decide as Hx.
    + subst x. rewrite lookup_insert_eq, Hocc. simpl. f_equal. lia.
    + rewrite lookup_insert_ne by done. rewrite Hinv, Nat.add_0_r. reflexivity.
Qed.

Lemma numbered_lookup (cols seen : list label) (i : nat) (base : label) :
  (named <$> cols) !! i = Some base ->
  numbered seen cols !! i
  = Some match occurrences base (seen ++ take i (named <$> cols)) with
         | O => base
         | S k => base ++ underscore :: str_of_nat (S k)
         end.
Proof.
  revert seen i. induction cols as [|c cols IH]; intros seen i Hi; [done|].
  destruct i as [|i]; simpl in *.
  - injection Hi as <-. by rewrite app_nil_r.
  - rewrite (IH _ _ Hi). by rewrite <- app_assoc.
Qed.

(** X6. The numbering of repeated labels: a label whose normalised text did
    not occur before it is kept as it is; one preceded by [k > 0] occurrences
    of the same normalised text gets the suffix [_k]. An empty normalised
    text counts as [unnamed_column]. *)
Theorem clean_headers_numbering (raw : list label) (i : nat) (base : label) :
  (named <$> (clean_label <$> raw)) !! i = Some base ->
  clean_header_labels raw !! i
  = Some match occurrences base
                 (take i (named <$> (clean_label <$> raw))) with
         | O => base
         | S k => base ++ underscore :: str_of_nat (S k)
         end.
Proof.
  intros Hi. unfold clean_header_labels.
  rewrite (fold_dedupe_numbered _ [] ∅ []); [|intros x; apply lookup_empty].
  rewrite app_nil_l. by rewrite (numbered_lookup _ [] i base Hi).
Qed.

Lemma clean_headers_numbering_witness :
  clean_header_labels [str "Rate (%)"; str ""; str "Rate"; str "rate"; str "Rate "]
    !! 4%nat
  = Some (str "Rate_2").
Proof.
  apply (clean_headers_numbering
           [str "Rate (%)"; str ""; str "Rate"; str "rate"; str "Rate "]
           4 (str "Rate")).
  reflexivity.
Defined.

(** X7. Labels that are already normalised and pairwise distinct are left
    exactly as they are. *)
Theorem clean_headers_keeps_clean_labels (ls : list label) :
  Forall well_shaped ls -> NoDup ls -> clean_header_labels ls = ls.
Proof.
  intros Hws Hnd. unfold clean_header_labels.
  assert (Hid : clean_label <$> ls = ls).
  { rewrite <- (list_fmap_id ls) at 2. apply Forall_fmap_ext.
    eapply Forall_impl; [exact Hws|]. intros l [_ Hl]. by apply clean_label_id. }
  rewrite Hid. rewrite fold_dedupe_distinct; [done|done| |done].
  eapply Forall_impl; [exact Hws|]. by intros l [Hl _].
Qed.

Lemma clean_headers_keeps_clean_labels_witness :
  clean_header_labels [str "id"; str "net-total"; str "Rate_1"]
  = [str "id"; str "net-total"; str "Rate_1"].
Proof.
  apply clean_headers_keeps_clean_labels.
  - repeat (constructor;
            [split; [discriminate|]; split; [repeat constructor|by vm_compute]|]).
    constructor.
  - apply (bool_decide_unpack _). vm_compute. exact I.
Defined.

Lemma clean_label_output_chars (l : label) :
  Forall output_char (clean_label l).
Proof.
  unfold clean_label. cbv zeta.
  set (s2 := Re.sub parenthesised [] _).
  set (s3 := Re.sub not_kept [] s2).
  set (s4 := replace_char space [underscore] s3).
  set (s5 := Re.sub underscores [underscore] s4).
  apply Forall_forall. intros c Hc. unfold ascii_only in Hc.
  apply list_elem_of_In, filter_In in Hc as [Hc Hascii].
  apply list_elem_of_In in Hc. split; [done|].
  destruct (strip_frame is_underscore s5) as (w1 & w2 & _ & _ & Hs5).
  assert (Hc5 : c ∈ s5).
  { rewrite Hs5, !elem_of_app. right. by left. }
  assert (Hus : kept underscore = true /\ underscore <> space) by done.
  unfold s5 in Hc5. apply sub_from_elem in Hc5 as [Hc4|Hc4];
    [|by apply list_elem_of_singleton in Hc4 as ->].
  unfold s4, replace_char in Hc4.
  apply list_elem_of_In, in_flat_map in Hc4 as (a & Ha & Hca).
  destruct (a =? space) eqn:Hsp.
  - destruct Hca as [<- | Hca]; [done|destruct Hca].
  - destruct Hca as [<- | Hca]; [|destruct Hca].
    apply N.eqb_neq in Hsp. split; [|done].
    unfold s3, not_kept in Ha. rewrite sub_one_delete in Ha.
    apply filter_In in Ha as [_ Ha]. by rewrite negb_involutive in Ha.
Qed.

Lemma fold_dedupe_all (Q : label -> Prop) (cols : list label) st :
  (forall c, c ∈ cols ->
     Q (named c) /\ forall k, Q (named c ++ underscore :: str_of_nat k)) ->
  Forall Q st.2 ->
  Forall Q (fold_left dedupe_step cols st).2.
Proof.
  revert st. induction cols as [|c cols IH]; intros st Hcols Hst; [done|].
  simpl. apply IH; [intros c' Hc'; apply Hcols; by right|].
  destruct (Hcols c (list_elem_of_here _ _)) as [Hn Hk].
  unfold dedupe_step. fold (named c).
  destruct (st.1 !! named c); simpl; apply Forall_app; (split; [done|]);
    (constructor; [|constructor]); auto.
Qed.

(** X8. Whatever the raw labels, no produced label is empty, and each of
    its characters is an ASCII letter, digit, underscore, hyphen or control
    blank: never a space, a parenthesis or a character beyond ASCII. *)
Theorem clean_headers_output_alphabet (raw : list label) :
  Forall (fun l => l <> [] /\ Forall output_char l) (clean_header_labels raw).
Proof.
  unfold clean_header_labels. apply fold_dedupe_all; [|constructor].
  intros c Hc. apply list_elem_of_fmap in Hc as (l & -> & _).
  assert (Hnamed : named (clean_label l) <> []
                   /\ Forall output_char (named (clean_label l))).
  { unfold named. case_bool_decide.
    - split; [done|]. repeat (constructor; [by vm_compute|]). constructor.
    - split; [done|]. apply clean_label_output_chars. }
  split; [done|]. intros k. destruct Hnamed as [Hne Hchars].
  split; [by destruct (named (clean_label l))|].
  apply Forall_app. split; [done|]. constructor; [done|].
  pose proof (uint_digits_ascii (Nat.to_uint k)) as Hd.
  eapply Forall_impl; [exact Hd|]. intros d Hd'. simpl in Hd'.
  unfold output_char, kept.
  assert (Hal : is_ascii_alnum d = true).
  { unfold is_ascii_alnum. rewrite !orb_true_iff, !andb_true_iff, !N.leb_le. lia. }
  rewrite Hal. simpl. split; [apply N.ltb_lt; lia|]. split; [done|].
  unfold space. lia.
Qed.

(** ** clean_mixed_columns *)

(** X9. The extraction stage raises exactly on a dataset in which two
    columns carry the same label. *)
Theorem clean_mixed_columns_fails_iff_duplicate (df : DataFrame) :
  clean_mixed_columns df = None <-> ~ NoDup (labels df).
Proof.
  split.
  - intros Hnone Hnd. by rewrite (clean_mixed_columns_distinct df Hnd) in Hnone.
  - intros Hdup. destruct (clean_mixed_columns df) as [df'|] eqn:Hs; [|done].
    exfalso. apply Hdup. by apply (clean_mixed_columns_some df df').
Qed.

Lemma values_infer_series (l : list cell) : values (infer_series l) = l.
Proof.
  unfold infer_series. destruct (mapM as_float l) as [fs|] eqn:Hfs; [|done].
  simpl. apply mapM_Some in Hfs.
  induction Hfs as [|x f l fs Hx _ IH]; [done|].
  rewrite fmap_cons, IH. destruct x; try discriminate. by injection Hx as ->.
Qed.

Lemma clean_series_cases (s : series) :
  clean_series s = s
  \/ exists l cleaned,
       s = SObject l
       /\ Forall2 (fun x y => extract_numeric x = Some y) l cleaned
       /\ clean_series s = infer_series cleaned.
Proof.
  unfold clean_series.
  destruct (is_object s && negb (forallb isna (values s))) eqn:Hc; [|by left].
  destruct s as [l|l|l|l]; try discriminate. simpl.
  destruct (mapM extract_numeric l) as [cleaned|] eqn:Hm; [|by left].
  destruct (_ || _); [|by left]. right. exists l, cleaned.
  split; [done|]. split; [by apply mapM_Some|done].
Qed.

Lemma extracted_cells (l cleaned : list cell) :
  Forall2 (fun x y => extract_numeric x = Some y) l cleaned ->
  Forall extracted cleaned.
Proof.
  induction 1 as [|x y l k Hxy _ IH]; constructor; [|done].
  destruct (extract_numeric_total x) as [(z & -> & Hz) | (c & Hc & Hkind)];
    [congruence|].
  rewrite Hc in Hxy. by injection Hxy as <-.
Qed.

(** X10. When the extraction stage succeeds it keeps the row count, the
    labels and the number of cells of every column; a column it changed
    holds floats and [pd.NA] only. *)
Theorem clean_mixed_columns_keeps_shape (df df' : DataFrame) :
  clean_mixed_columns df = Some df' ->
  nrows df' = nrows df
  /\ labels df' = labels df
  /\ (well_formed df -> well_formed df')
  /\ forall i lbl s', columns df' !! i = Some (lbl, s') ->
       columns df !! i = Some (lbl, s') \/ Forall extracted (values s').
Proof.
  intros Hs. apply clean_mixed_columns_some in Hs as [_ ->].
  split; [reflexivity|]. split; [apply labels_on_columns|]. split.
  - unfold well_formed, on_columns. simpl. intros Hwf.
    apply Forall_fmap. eapply Forall_impl; [exact Hwf|].
    intros [lbl s] Hlen. simpl in *.
    destruct (clean_series_cases s) as [Heq | (l & cleaned & -> & Hf & Heq)];
      rewrite Heq; [done|].
    rewrite values_infer_series. simpl in Hlen.
    by rewrite <- (Forall2_length _ _ _ Hf).
  - intros i lbl s' Hi. unfold on_columns in Hi. simpl in Hi.
    rewrite list_lookup_fmap in Hi.
    destruct (columns df !! i) as [[lbl0 s]|] eqn:Hdf; [|done].
    simpl in Hi. injection Hi as <- <-.
    destruct (clean_series_cases s) as [Heq | (l & cleaned & -> & Hf & Heq)];
      rewrite Heq; [by left|].
    right. rewrite values_infer_series. by eapply extracted_cells.
Qed.

Lemma clean_mixed_columns_keeps_shape_witness :
  exists df',
    clean_mixed_columns (clean_headers scenario_1) = Some df'
    /\ labels df' = [str "Revenue"; str "Notes"; str "Price"].
Proof.
  eexists. split; [vm_compute; reflexivity|].
  etransitivity;
    [apply (clean_mixed_columns_keeps_shape (clean_headers scenario_1));
     vm_compute; reflexivity|].
  vm_compute. reflexivity.
Defined.

Lemma clean_series_idempotent (s : series) :
  clean_series (clean_series s) = clean_series s.
Proof.
  destruct (clean_series_cases s) as [Heq | (l & cleaned & -> & Hf & Hc)];
    [by rewrite !Heq|].
  rewrite Hc. pose proof (extracted_cells _ _ Hf) as Hex.
  unfold infer_series. destruct (mapM as_float cleaned) as [fs|] eqn:Hfs;
    [reflexivity|].
  unfold clean_series. simpl.
  destruct (forallb isna cleaned) eqn:Hna; simpl; [reflexivity|].
  assert (Hm : mapM extract_numeric cleaned = Some cleaned).
  { apply mapM_Some, Forall_Forall2_diag.
    eapply Forall_impl; [exact Hex|]. by intros x [-> | [f ->]]. }
  rewrite Hm.
  assert (Hany : existsb notna cleaned = true).
  { clear -Hna. induction cleaned as [|x t IH]; [discriminate|].
    simpl in *. unfold notna at 1. destruct (isna x); simpl in *; auto. }
  rewrite Hany. simpl. unfold infer_series. by rewrite Hfs.
Qed.

(** X11. Running the extraction stage on its own result changes nothing. *)
Theorem clean_mixed_columns_idempotent (df df' : DataFrame) :
  clean_mixed_columns df = Some df' -> clean_mixed_columns df' = Some df'.
Proof.
  intros Hs. apply clean_mixed_columns_some in Hs as [Hnd ->].
  rewrite clean_mixed_columns_distinct by (by rewrite labels_on_columns).
  f_equal. unfold on_columns. simpl. f_equal.
  rewrite <- list_fmap_compose. apply list_fmap_ext.
  intros i [lbl s] _. simpl. by rewrite clean_series_idempotent.
Qed.

Lemma clean_mixed_columns_idempotent_witness :
  exists df',
    clean_mixed_columns (clean_headers scenario_1) = Some df'
    /\ clean_mixed_columns df' = Some df'.
Proof.
  eexists. split; [vm_compute; reflexivity|].
  apply (clean_mixed_columns_idempotent (clean_headers scenario_1)).
  vm_compute. reflexivity.
Defined.

(** ** remove_fully_non_numeric_columns *)

Section ClassifierFurther.

Variable parses : pystr -> bool.

Lemma remove_columns_filter (df : DataFrame) :
  remove_fully_non_numeric_columns parses df
  = mkDataFrame (nrows df)
      (List.filter (fun c => is_potentially_numeric parses df c.1) (columns df)).
Proof.
  unfold remove_fully_non_numeric_columns, select_columns, labels. f_equal.
  rewrite <- list_fmap_compose.
  apply (select_by_mask (is_potentially_numeric parses df ∘ fst)).
Qed.

Lemma getitem_filter (n : nat) (h : label * series -> bool) cs (col : label) :
  (forall c, c ∈ cs -> c.1 = col -> h c = true) ->
  getitem (mkDataFrame n (List.filter h cs)) col = getitem (mkDataFrame n cs) col.
Proof.
  induction cs as [|c cs IH]; intros Hh; [reflexivity|].
  assert (IH' : getitem (mkDataFrame n (List.filter h cs)) col
                = getitem (mkDataFrame n cs) col).
  { apply IH. intros c' Hc'. apply Hh. by right. }
  rewrite getitem_cons. cbn [List.filter]. case_bool_decide as Hc.
  - rewrite (Hh c) by (done || left). rewrite getitem_cons.
    by rewrite bool_decide_eq_true_2, IH' by done.
  - destruct (h c); [|exact IH'].
    rewrite getitem_cons. by rewrite bool_decide_eq_false_2, IH' by done.
Qed.

(** X12. Whatever the dataset, duplicated labels included, the Column
    Classifier returns without a fault, only drops columns (the retained
    ones are a subsequence, the row count is kept), and a retained column is
    the only one under its label in the input and meets the criterion. *)
Theorem classifier_only_drops (df : DataFrame) :
  let out := remove_fully_non_numeric_columns parses df in
  sublist (columns out) (columns df)
  /\ nrows out = nrows df
  /\ forall c, c ∈ columns out ->
       getitem df c.1 = [c.2] /\ has_numeric_content parses c.2 = true.
Proof.
  intros out. subst out. rewrite remove_columns_filter. cbn [nrows columns].
  split; [apply filter_sublist|]. split; [reflexivity|].
  intros [lbl s] Hc. apply list_elem_of_In, filter_In in Hc as [Hin Hp].
  apply list_elem_of_In in Hin. simpl in *.
  unfold is_potentially_numeric in Hp.
  destruct (getitem df lbl) as [|s' [|s'' l]] eqn:Hg; try discriminate.
  assert (Hs : s ∈ getitem df lbl) by (by apply getitem_elem).
  rewrite Hg in Hs. apply list_elem_of_singleton in Hs. subst s'.
  split; [reflexivity|]. unfold has_numeric_content.
  destruct (existsb is_int_or_float (values s)); [reflexivity|].
  by destruct (existsb _ _).
Qed.

(** X13. Running the Column Classifier on its own result drops nothing
    more. *)
Theorem classifier_idempotent (df : DataFrame) :
  remove_fully_non_numeric_columns parses
    (remove_fully_non_numeric_columns parses df)
  = remove_fully_non_numeric_columns parses df.
Proof.
  rewrite (remove_columns_filter df).
  set (out := mkDataFrame _ _). rewrite (remove_columns_filter out).
  unfold out at 1 3. cbn [nrows columns]. f_equal.
  apply filter_all, Forall_forall. intros c Hc.
  apply list_elem_of_In, filter_In in Hc as [_ Hp].
  rewrite <- Hp. unfold is_potentially_numeric, out.
  rewrite getitem_filter; [by destruct df|].
  intros c' _ Hl. by rewrite Hl.
Qed.

End ClassifierFurther.

(** ** report_missing_values *)

Lemma percentage_range (a b : nat) :
  (a <= b)%nat -> (0 < b)%nat -> (Z.of_nat b <= 2 ^ 53)%Z ->
  exists q, percent (truediv a b) = Fnum q /\ (0 <= q /\ q <= 100)%Q.
Proof.
  intros Hab Hb Hb53. destruct a as [|a].
  - exists 0%Q. split; [by apply percentage_zero|].
    split; unfold Qle; simpl; lia.
  - destruct (percentage_accuracy (S a) b) as (q & Hq & H0 & _ & H100);
      [lia..|].
    exists q. split; [done|]. split; [lra|by apply H100].
Qed.

(** X14. On a dataset whose columns have one cell per row, with at most
    2^53 cells, the figures of the report are consistent: the absent cells
    are at most the cells, the overall percentage and the percentage of
    every column are numbers between 0 and 100, and the columns are reported
    under their labels, in order (none when the dataset is empty). *)
Theorem report_missing_values_bounds (df : DataFrame) :
  well_formed df ->
  (Z.of_nat (nrows df * length (columns df)) <= 2 ^ 53)%Z ->
  let r := missing_report df in
  (total_missing r <= total_datapoints r)%nat
  /\ (exists q, missing_percentage_dataset r = Fnum q
                /\ (0 <= q /\ q <= 100)%Q)
  /\ Forall (fun e => exists q, e.2 = Fnum q /\ (0 <= q /\ q <= 100)%Q)
       (missing_percentage_columns r)
  /\ fst <$> missing_percentage_columns r
     = if empty df then [] else labels df.
Proof.
  intros Hwf Hsize r. pose proof (total_missing_le _ _ Hwf) as Htot.
  unfold r, missing_report.
  cbn [total_missing total_datapoints missing_percentage_dataset
         missing_percentage_columns].
  set (total := (nrows df * length (columns df))%nat) in *.
  set (absent := sum_list (count_na ∘ snd <$> columns df)) in *.
  split; [done|]. split; [|split].
  - case_bool_decide as Ht.
    + by apply percentage_range.
    + exists 0%Q. split; [reflexivity|]. split; unfold Qle; simpl; lia.
  - destruct (empty df) eqn:He; simpl; [constructor|].
    unfold empty in He. apply orb_false_iff in He as [Hn Hc].
    apply bool_decide_eq_false in Hn. apply bool_decide_eq_false in Hc.
    assert (Hrows : (Z.of_nat (nrows df) <= 2 ^ 53)%Z).
    { unfold total in Hsize. destruct (columns df) as [|c cs]; [done|].
      cbn [length] in Hsize. nia. }
    apply Forall_fmap. eapply Forall_impl; [exact Hwf|].
    intros c Hc'. simpl. apply percentage_range; [|lia|done].
    rewrite <- Hc'. apply count_na_le.
  - destruct (empty df); simpl; [reflexivity|].
    unfold labels. rewrite <- list_fmap_compose. reflexivity.
Qed.

Lemma report_missing_values_bounds_witness :
  (total_missing (missing_report classifier_example)
   <= total_datapoints (missing_report classifier_example))%nat.
Proof.
  apply (report_missing_values_bounds classifier_example).
  - repeat constructor.
  - vm_compute. discriminate.
Defined.

(** ** mean_imputation *)

Lemma downcast_with_NA (l : list cell) : CNA ∈ l -> downcast l = SObject l.
Proof.
  intros Hin. unfold downcast. destruct l as [|x l]; [reflexivity|].
  assert (H1 : mapM as_int64 (x :: l) = None)
    by (apply mapM_None_2, Exists_exists; by exists CNA).
  assert (H2 : mapM as_bool (x :: l) = None)
    by (apply mapM_None_2, Exists_exists; by exists CNA).
  assert (H3 : mapM as_number (x :: l) = None)
    by (apply mapM_None_2, Exists_exists; by exists CNA).
  by rewrite H1, H2, H3.
Qed.

Section ImputerFurther.

Variable fsum : list pyfloat -> pyfloat.

(** X17. On a dataset with distinct labels the Imputer never fills an
    object column that has an absent cell: the column stays in place under
    its label, an object column, its present cells untouched and each absent
    cell [pd.NA], whatever numbers stand beside it. *)
Theorem mean_imputation_leaves_object_gaps (df : DataFrame) :
  NoDup (labels df) ->
  exists df',
    mean_imputation fsum df = Some df'
    /\ forall i lbl l,
         columns df !! i = Some (lbl, SObject l) ->
         (exists x, x ∈ l /\ isna x = true) ->
         columns df' !! i
         = Some (lbl, SObject ((fun c => if isna c then CNA else c) <$> l)).
Proof.
  intros Hnd. eexists. split; [by apply mean_imputation_distinct|].
  intros i lbl l Hi (x & Hx & Hna). unfold on_columns. cbn [columns].
  rewrite list_lookup_fmap, Hi. cbn [fmap option_fmap option_map].
  f_equal. f_equal. unfold imputed. cbn [is_number_dtype fill_series snd].
  unfold fillna_object. apply downcast_with_NA.
  apply list_elem_of_fmap. exists x. by rewrite Hna.
Qed.

End ImputerFurther.

(** An object column that holds floats only and no absent cell comes back
    from [fillna] as a float64 column, so a second run rounds it. *)
Example object_numbers_become_float64 :
  mean_imputation fsum_loop
    (mkDataFrame 2 [ (str "x", SObject [CFloat (Fnum (17 # 16)); CFloat (Fnum 2)]) ])
  = Some (mkDataFrame 2 [ (str "x", SFloat [Fnum (17 # 16); Fnum 2]) ])
  /\ mean_imputation fsum_loop
       (mkDataFrame 2 [ (str "x", SFloat [Fnum (17 # 16); Fnum 2]) ])
     = Some (mkDataFrame 2
               [ (str "x", SFloat [Fnum (4782822804267467 # 4503599627370496);
                                   Fnum 2]) ]).
Proof. split; vm_compute; reflexivity. Qed.

Lemma mean_imputation_leaves_object_gaps_witness :
  exists df',
    mean_imputation fsum_loop classifier_example = Some df'
    /\ columns df' !! 3%nat = Some (str "d", SObject [CStr (str "7"); CNA]).
Proof.
  destruct (mean_imputation_leaves_object_gaps fsum_loop classifier_example)
    as (df' & H1 & H2).
  - apply (bool_decide_unpack _). vm_compute. exact I.
  - exists df'. split; [exact H1|].
    apply (H2 3%nat (str "d") [CStr (str "7"); CNone] eq_refl).
    exists CNone. split; [|reflexivity]. right. left.
Defined.

(** ** process_single_csv_file *)

(** The last write to a path decides what it holds. *)
Lemma file_content_app (fs written : filesystem) (dir : folder) (name : pystr) :
  file_content (fs ++ written) dir name
  = match file_content written dir name with
    | Some c => Some c
    | None => file_content fs dir name
    end.
Proof.
  induction fs as [|[[d n] c] fs IH]; simpl.
  - by destruct (file_content written dir name).
  - rewrite IH. by destruct (file_content written dir name).
Qed.

Lemma file_content_path (written : filesystem) (dir : folder) (name : pystr)
    (c : content) :
  file_content written dir name = Some c -> (dir, name) ∈ written.*1.
Proof.
  revert c. induction written as [|[[d n] c'] w IH]; intros c;
    [discriminate|]. simpl.
  destruct (file_content w dir name) as [later|].
  - intros _. right. by apply (IH later).
  - destruct (bool_decide (d = dir) && bool_decide (n = name)) eqn:Hb;
      [|discriminate].
    apply andb_true_iff in Hb as [Hd Hn].
    apply bool_decide_eq_true in Hd. apply bool_decide_eq_true in Hn.
    subst. intros _. left.
Qed.

Lemma file_content_other (written : filesystem) (dir : folder) (name : pystr) :
  (dir, name) ∉ written.*1 -> file_content written dir name = None.
Proof.
  intros Hnot. destruct (file_content written dir name) as [c|] eqn:Hc;
    [|reflexivity].
  by apply file_content_path in Hc.
Qed.

Lemma output_paths_of_stem (s s' : pystr) (p : folder * pystr) :
  p ∈ output_paths s -> p ∈ output_paths s' -> s = s'.
Proof.
  unfold output_paths. rewrite !elem_of_cons, !elem_of_nil.
  intros [-> | [-> | [-> | []]]] [H | [H | [H | []]]];
    try discriminate; apply (f_equal snd) in H; cbn [snd] in H;
    try (by apply app_inv_tail in H);
    apply (f_equal (@rev char)) in H; rewrite !rev_app_distr in H;
    vm_compute in H; discriminate.
Qed.

Section PipelineFurther.

Variable parses : pystr -> bool.
Variable fsum : list pyfloat -> pyfloat.

(** The stages on a loaded dataset that has rows and columns, one case per
    [return]. *)
Lemma process_frame_cases (df : DataFrame) (filename_no_ext : pystr)
    (fs : filesystem) :
  empty df = false ->
  let df2 := remove_fully_non_numeric_columns parses
               (on_columns clean_series (clean_headers df)) in
  (~ NoDup (clean_header_labels (labels df))
   /\ process_single_csv_file parses fsum (Frame df) filename_no_ext fs = fs)
  \/ (NoDup (clean_header_labels (labels df))
      /\ columns df2 = []
      /\ process_single_csv_file parses fsum (Frame df) filename_no_ext fs
         = fs ++ [(CleanedFolder, filename_no_ext ++ str "_clean_empty.csv",
                   EmptyCsv)])
  \/ (NoDup (clean_header_labels (labels df))
      /\ columns df2 <> []
      /\ NoDup (labels df2)
      /\ process_single_csv_file parses fsum (Frame df) filename_no_ext fs
         = fs ++ [(ReportFolder, filename_no_ext ++ str "_report.txt",
                   ReportTxt (missing_report df2));
                  (CleanedFolder, filename_no_ext ++ str "_clean.csv",
                   to_csv (on_columns (imputed fsum (nrows df2)) df2))]).
Proof.
  intros He df2. unfold process_single_csv_file. rewrite He.
  destruct (decide (NoDup (clean_header_labels (labels df)))) as [Hnd|Hdup].
  - right. rewrite <- labels_clean_headers in Hnd.
    rewrite (clean_mixed_columns_distinct _ Hnd). fold df2.
    assert (Hn : nrows df2 <> O).
    { unfold df2. rewrite remove_columns_filter. simpl.
      unfold empty in He. apply orb_false_iff in He as [Hn _].
      by apply bool_decide_eq_false in Hn. }
    assert (Hnd2 : NoDup (labels df2)).
    { unfold df2. rewrite remove_columns_filter. unfold labels at 1.
      cbn [columns].
      eapply sublist_NoDup; [|apply fmap_sublist, filter_sublist].
      change (NoDup (labels (on_columns clean_series (clean_headers df)))).
      by rewrite labels_on_columns. }
    rewrite labels_clean_headers in Hnd.
    destruct (decide (columns df2 = [])) as [Hc|Hc].
    + left. split; [done|]. split; [done|]. unfold empty. rewrite Hc.
      simpl. by rewrite orb_true_r.
    + right. split; [done|]. split; [done|]. split; [done|].
      assert (Hne : (empty df2 || bool_decide (length (columns df2) = O))
                    = false).
      { unfold empty. rewrite (bool_decide_eq_false_2 (nrows df2 = O)) by done.
        rewrite (bool_decide_eq_false_2 (columns df2 = [])) by done.
        apply bool_decide_eq_false. by destruct (columns df2). }
      rewrite Hne. unfold report_missing_values.
      rewrite (mean_imputation_distinct fsum _ Hnd2).
      by rewrite <- app_assoc.
  - left. split; [done|].
    destruct (clean_mixed_columns (clean_headers df)) as [df1|] eqn:Hmix;
      [|reflexivity].
    exfalso. apply Hdup. rewrite <- labels_clean_headers.
    by apply (clean_mixed_columns_some _ df1).
Qed.

(** The writes of a call do not depend on the writes made before. *)
Lemma process_appends (input : loaded) (filename_no_ext : pystr)
    (fs : filesystem) :
  process_single_csv_file parses fsum input filename_no_ext fs
  = fs ++ process_single_csv_file parses fsum input filename_no_ext [].
Proof.
  destruct input as [|df]; [by rewrite app_nil_r|].
  destruct (empty df) eqn:He.
  { unfold process_single_csv_file. rewrite He. by rewrite app_nil_r. }
  destruct (process_frame_cases df filename_no_ext fs He)
    as [[Hd ->] | [(Hd & Hc & ->) | (Hd & Hc & _ & ->)]];
    destruct (process_frame_cases df filename_no_ext [] He)
      as [[Hd' ->] | [(Hd' & Hc' & ->) | (Hd' & Hc' & _ & ->)]];
    try done.
  by rewrite app_nil_r.
Qed.

(** A call writes to the paths of its stem only. *)
Lemma process_paths (input : loaded) (filename_no_ext : pystr) :
  (process_single_csv_file parses fsum input filename_no_ext []).*1
  ⊆ output_paths filename_no_ext.
Proof.
  destruct input as [|df]; [by intros x Hx; apply elem_of_nil in Hx|].
  destruct (empty df) eqn:He.
  { unfold process_single_csv_file. rewrite He.
    by intros x Hx; apply elem_of_nil in Hx. }
  unfold output_paths.
  destruct (process_frame_cases df filename_no_ext [] He)
    as [[_ ->] | [(_ & _ & ->) | (_ & _ & _ & ->)]]; simpl; intros x Hx;
    repeat (apply elem_of_cons in Hx as [-> | Hx]);
    try (by apply elem_of_nil in Hx); rewrite !elem_of_cons; auto.
Qed.

(** X18. What one call does to the output folders, for every input and
    whatever was written before: it makes no write, or writes the
    placeholder alone, or writes the report and then the cleaned file. A
    file of the same name is replaced and every other file is left as it
    was. The cleaned file has at least one column and distinct labels, taken
    in order from the normalised labels of the input; a report is never
    written without the cleaned file. *)
Theorem process_single_csv_file_outcomes (input : loaded)
    (filename_no_ext : pystr) :
  exists written,
    (forall fs,
       process_single_csv_file parses fsum input filename_no_ext fs
       = fs ++ written)
    /\ (forall fs dir name,
          file_content
            (process_single_csv_file parses fsum input filename_no_ext fs)
            dir name
          = match file_content written dir name with
            | Some c => Some c
            | None => file_content fs dir name
            end)
    /\ (forall dir name,
          (dir, name) ∉ output_paths filename_no_ext ->
          file_content written dir name = None)
    /\ (written = []
        \/ written = [(CleanedFolder,
                       filename_no_ext ++ str "_clean_empty.csv", EmptyCsv)]
        \/ exists df r cols,
             input = Frame df
             /\ written = [(ReportFolder,
                            filename_no_ext ++ str "_report.txt", ReportTxt r);
                           (CleanedFolder,
                            filename_no_ext ++ str "_clean.csv",
                            CleanedCsv cols)]
             /\ cols <> []
             /\ NoDup (fst <$> cols)
             /\ sublist (fst <$> cols) (clean_header_labels (labels df))).
Proof.
  exists (process_single_csv_file parses fsum input filename_no_ext []).
  split; [intros fs; apply process_appends|].
  split; [intros fs dir name; by rewrite process_appends, file_content_app|].
  split.
  { intros dir name Hnot. apply file_content_other. intros Hin.
    by apply process_paths in Hin. }
  destruct input as [|df]; [by left|].
  destruct (empty df) eqn:He.
  { left. unfold process_single_csv_file. by rewrite He. }
  destruct (process_frame_cases df filename_no_ext [] He)
    as [[Hd ->] | [(Hd & Hc & ->) | (Hd & Hc & Hnd2 & ->)]];
    [by left|right; by left|].
  right. right. exists df. eexists. eexists. split; [reflexivity|].
  split; [reflexivity|].
  set (df2 := remove_fully_non_numeric_columns parses
                (on_columns clean_series (clean_headers df))) in *.
  assert (Hl : fst <$> ((fun c : label * series =>
                 (c.1, (fun x => if isna x then NA_marker else Field x)
                         <$> values c.2))
                <$> columns (on_columns (imputed fsum (nrows df2)) df2))
               = labels df2).
  { rewrite <- list_fmap_compose.
    change (labels (on_columns (imputed fsum (nrows df2)) df2) = labels df2).
    apply labels_on_columns. }
  split; [|split].
  - intros Hnil. apply Hc. unfold on_columns in Hnil. simpl in Hnil.
    apply fmap_nil_inv in Hnil. by apply fmap_nil_inv in Hnil.
  - by rewrite Hl.
  - rewrite Hl. unfold df2. rewrite remove_columns_filter.
    unfold labels at 1. simpl.
    transitivity (labels (on_columns clean_series (clean_headers df))).
    + apply fmap_sublist, filter_sublist.
    + by rewrite labels_on_columns, labels_clean_headers.
Qed.

(** X19. A dataset with rows and columns whose normalised labels collide
    is given up in the extraction stage: the call writes nothing, neither
    report nor cleaned file nor placeholder. *)
Theorem colliding_headers_write_nothing (df : DataFrame)
    (filename_no_ext : pystr) (fs : filesystem) :
  empty df = false ->
  ~ NoDup (clean_header_labels (labels df)) ->
  process_single_csv_file parses fsum (Frame df) filename_no_ext fs = fs.
Proof.
  intros He Hdup.
  destruct (process_frame_cases df filename_no_ext fs He)
    as [[_ ->] | [(Hd & _) | (Hd & _)]]; done.
Qed.

End PipelineFurther.

Lemma colliding_headers_write_nothing_witness :
  process_single_csv_file (fun _ => false) fsum_loop
    (Frame (mkDataFrame 1
              [ (str "a b", SInt [1%Z]); (str "a_b", SInt [2%Z]);
                (str "a_b_1", SInt [3%Z]) ]))
    (str "t") []
  = [].
Proof.
  apply (colliding_headers_write_nothing (fun _ => false) fsum_loop).
  - reflexivity.
  - intros H. apply (bool_decide_pack _) in H. vm_compute in H. exact H.
Defined.

(** ** main_processing_logic *)

Lemma rfind_absent (c : char) (p : pystr) : c ∉ p -> rfind c p = None.
Proof.
  induction p as [|a p IH]; intros Hc; [reflexivity|].
  apply not_elem_of_cons in Hc as [Hne Hc]. simpl. rewrite (IH Hc).
  destruct (a =? c) eqn:Ha; [|reflexivity].
  apply N.eqb_eq in Ha. congruence.
Qed.

Lemma rfind_last (c : char) (p q : pystr) :
  c ∉ q -> rfind c (p ++ c :: q) = Some (length p).
Proof.
  intros Hc. induction p as [|a p IH]; simpl.
  - by rewrite (rfind_absent _ _ Hc), N.eqb_refl.
  - by rewrite IH.
Qed.

(** X20. The stem of a file name: a name without a dot is its own stem;
    the name is cut at its last dot when a character other than a dot
    stands before it, and is left whole when only dots do. *)
Theorem splitext_root_cuts_extension (ext : pystr) :
  46%N ∉ ext ->
  splitext_root ext = ext
  /\ (forall stem, (exists c, c ∈ stem /\ c <> 46%N) ->
        splitext_root (stem ++ 46%N :: ext) = stem)
  /\ (forall stem, Forall (fun c => c = 46%N) stem ->
        splitext_root (stem ++ 46%N :: ext) = stem ++ 46%N :: ext).
Proof.
  intros Hext. split; [|split].
  - unfold splitext_root. by rewrite (rfind_absent _ _ Hext).
  - intros stem (c & Hc & Hne). unfold splitext_root.
    rewrite (rfind_last _ _ _ Hext), take_app_length.
    assert (He : existsb (fun a => negb (a =? 46)) stem = true).
    { apply existsb_elem_of. exists c. split; [done|].
      apply negb_true_iff, N.eqb_neq, Hne. }
    by rewrite He.
  - intros stem Hdots. unfold splitext_root.
    rewrite (rfind_last _ _ _ Hext), take_app_length.
    assert (He : existsb (fun a => negb (a =? 46)) stem = false).
    { induction Hdots as [|a stem -> _ IH]; [reflexivity|]. simpl. exact IH. }
    by rewrite He.
Qed.

Lemma splitext_root_cuts_extension_witness :
  splitext_root (str "sales.2024.csv") = str "sales.2024".
Proof.
  refine (proj1 (proj2 (splitext_root_cuts_extension (str "csv") _))
            (str "sales.2024") _).
  - intros H. apply (bool_decide_pack _) in H. vm_compute in H. exact H.
  - exists 115%N. split; [|discriminate].
    apply (bool_decide_unpack _). vm_compute. exact I.
Defined.

Section BatchDriverProperties.

Variable parses : pystr -> bool.
Variable fsum : list pyfloat -> pyfloat.
Variable lower : pystr -> pystr.

(** The writes of a batch are those of its matching files, one file after
    the other. *)
Lemma fold_batch_step (walk : list (pystr * loaded)) (found : bool)
    (fs : filesystem) :
  fold_left (batch_step parses fsum lower) walk (found, fs)
  = (found || existsb (fun e => is_csv lower e.1) walk,
     fs ++ concat ((fun e => process_single_csv_file parses fsum e.2
                               (splitext_root e.1) [])
                     <$> List.filter (fun e => is_csv lower e.1) walk)).
Proof.
  revert found fs. induction walk as [|e walk IH]; intros found fs.
  - simpl. by rewrite orb_false_r, app_nil_r.
  - cbn [fold_left existsb List.filter]. unfold batch_step at 2.
    destruct (is_csv lower e.1) eqn:He.
    + rewrite IH. cbn [snd]. rewrite fmap_cons. cbn [concat].
      rewrite (process_appends parses fsum e.2 (splitext_root e.1) fs).
      by rewrite orb_true_r, app_assoc.
    + rewrite IH. reflexivity.
Qed.

(** X21. In a batch the outputs of a matching file are those of the last
    file of the walk with its stem: what the file writes when processed
    alone is what its paths hold at the end, whatever the files before it
    wrote there (a file of the same name in another folder among them),
    provided no later matching file has the same stem. The flag says
    whether some name of the walk ends in [.csv] once lowered. *)
Theorem main_processing_logic_last_stem_wins
    (before after : list (pystr * loaded)) (file : pystr) (input : loaded)
    (fs : filesystem) :
  is_csv lower file = true ->
  (forall e, e ∈ after -> is_csv lower e.1 = true ->
             splitext_root e.1 <> splitext_root file) ->
  (main_processing_logic parses fsum lower
     (before ++ (file, input) :: after) fs).1 = true
  /\ forall dir name c,
       file_content
         (process_single_csv_file parses fsum input (splitext_root file) [])
         dir name = Some c ->
       file_content
         (main_processing_logic parses fsum lower
            (before ++ (file, input) :: after) fs).2 dir name
       = Some c.
Proof.
  intros Hcsv Hafter. unfold main_processing_logic. rewrite fold_batch_step.
  cbn [fst snd orb]. split.
  - rewrite existsb_app. cbn [existsb fst]. rewrite Hcsv.
    by rewrite orb_true_r.
  - intros dir name c Hc. rewrite List.filter_app. cbn [List.filter fst].
    rewrite Hcsv, fmap_app, fmap_cons, concat_app. cbn [concat snd fst].
    rewrite !file_content_app.
    assert (Hlater :
      file_content
        (concat ((fun e => process_single_csv_file parses fsum e.2
                             (splitext_root e.1) [])
                   <$> List.filter (fun e => is_csv lower e.1) after))
        dir name = None).
    { apply file_content_other. intros Hin.
      apply list_elem_of_fmap in Hin as (f & Hf & Hin).
      apply list_elem_of_In, in_concat in Hin as (w & Hw & Hfw).
      apply list_elem_of_In in Hw. apply list_elem_of_In in Hfw.
      apply list_elem_of_fmap in Hw as (e & -> & He).
      apply list_elem_of_In, filter_In in He as [He Hecsv].
      apply list_elem_of_In in He.
      apply (Hafter e He Hecsv).
      apply (output_paths_of_stem _ _ (dir, name)).
      - apply (process_paths parses fsum e.2). rewrite Hf.
        by apply list_elem_of_fmap_2.
      - apply (process_paths parses fsum input).
        by eapply file_content_path. }
    by rewrite Hlater, Hc.
Qed.

End BatchDriverProperties.

Lemma main_processing_logic_last_stem_wins_witness :
  file_content
    (main_processing_logic (fun _ => false) fsum_loop (fun s => s)
       [ (str "a.csv", Frame scenario_revenue);
         (str "a.csv", Frame blank_column_frame);
         (str "notes.txt", ReadError) ] []).2
    CleanedFolder (str "a_clean.csv")
  = Some (CleanedCsv [ (str "Qty", [Field (CInt 3); Field (CInt 4)]);
                       (str "Blank", [NA_marker; NA_marker]) ]).
Proof.
  apply (proj2 (main_processing_logic_last_stem_wins (fun _ => false) fsum_loop
                  (fun s => s) [(str "a.csv", Frame scenario_revenue)]
                  [(str "notes.txt", ReadError)] (str "a.csv")
                  (Frame blank_column_frame) [] ltac:(reflexivity)
                  ltac:(intros e He; apply list_elem_of_singleton in He;
                        subst e; discriminate))).
  vm_compute. reflexivity.
Defined.

